(** * mcdm: AHP weights, min-max normalisation, TOPSIS scoring and
    weight-sensitivity analysis

    A shallow embedding of [mcdm/ahp.py], [mcdm/normalisation.py],
    [mcdm/topsis.py] and [mcdm/sensitivity.py], of what [cat_config] of
    [mcdm/mcdm_io.py] computes between its reads and writes, and of the rank
    step of [mcdm/visualisation_static.py].  The Python code is written
    once, over an interface of numbers, and read at two instances:
    - [float], the binary64 numbers numpy computes with, for running the code
      on concrete inputs;
    - [xreal], exact real arithmetic with a not-a-number element, for the
      properties that hold of every input once rounding, overflow and
      underflow are set aside. *)

From Stdlib Require Import List String Ascii DecimalString Bool Arith ZArith Lia.
From Stdlib Require Import Sorted Reals Lra Floats.
From Stdlib Require Import Permutation.
Import ListNotations.

Set Implicit Arguments.

(** ** Numbers *)

(** What the code asks of its numbers: the literals, the four operations,
    [np.sqrt], [abs], the comparisons [==], [<] and [<=], and the casts
    between integers and floats. *)
Class Numeric (T : Type) := {
  (** The float of an integer: the literal [1], and the cast of an integer
      column to [float64]. *)
  of_Z : Z -> T;
  (** [decimal m k] is the literal [m * 10^-k] ([0.01] is [decimal 1 2]). *)
  decimal : Z -> nat -> T;
  add : T -> T -> T;
  sub : T -> T -> T;
  mul : T -> T -> T;
  div : T -> T -> T;
  sqrt : T -> T;
  abs : T -> T;
  eqb : T -> T -> bool;
  ltb : T -> T -> bool;
  leb : T -> T -> bool;
  (** The integer a float is, when it is one: the cast back to an integer
      column that loses nothing.  [None] for a fraction, an infinity or a
      NaN. *)
  to_int : T -> option Z
}.

(** [**] with a float exponent, which [ahp_weights] alone uses. *)
Class Power (T : Type) := {
  pow : T -> T -> T
}.

Section Derived.
Context {T : Type} `{Numeric T}.

Definition zero : T := of_Z 0.
Definition one : T := of_Z 1.
Definition nan : T := div zero zero.
(** A NaN is the one value that differs from itself. *)
Definition isnan (x : T) : bool := negb (eqb x x).
Definition notnan (x : T) : bool := eqb x x.
(** [x - x] is [0] for a finite [x] and NaN for an infinity or a NaN. *)
Definition isfinite (x : T) : bool := eqb (sub x x) zero.

(** pandas reductions skip NaN ([skipna=True]).  The sum adds from the
    left.  (pandas and numpy may add a longer list in another order, and the
    sum of a group in [pivot_table] carries a correction of its rounding
    errors along: for up to two addends, and in exact arithmetic, the result
    is this sum.) *)
Definition nansum (l : list T) : T :=
  fold_left add (filter notnan l) zero.

Definition nanmax (l : list T) : T :=
  match filter notnan l with
  | [] => nan
  | x :: xs => fold_left (fun a y => if ltb a y then y else a) xs x
  end.

Definition nanmin (l : list T) : T :=
  match filter notnan l with
  | [] => nan
  | x :: xs => fold_left (fun a y => if ltb y a then y else a) xs x
  end.

(** [sum(...)] of Python: starts from [0] and adds from the left. *)
Definition py_sum (l : list T) : T := fold_left add l zero.

(** [np.prod] along a row. *)
Definition np_prod (l : list T) : T := fold_left mul l one.
End Derived.

(** *** binary64 *)

(** The binary64 number nearest to [z] (ties to even): the primitive
    conversion below 2^63, the rounding of the IEEE specification above. *)
Definition float_of_Z (z : Z) : float :=
  if (Z.abs z <? 2 ^ 63)%Z then
    if (z <? 0)%Z then PrimFloat.opp (PrimFloat.of_uint63 (Uint63.of_Z (- z)))
    else PrimFloat.of_uint63 (Uint63.of_Z z)
  else SF2Prim (binary_normalize prec emax z 0 false).

(** A finite float is [m * 2^e] for integers [m] and [e]. *)
Definition float_to_int (x : float) : option Z :=
  match Prim2SF x with
  | S754_zero _ => Some 0%Z
  | S754_finite s m e =>
      let z := if s then Z.neg m else Z.pos m in
      if (0 <=? e)%Z then Some (z * 2 ^ e)%Z
      else if (Z.pos m mod 2 ^ (- e) =? 0)%Z then Some (z / 2 ^ (- e))%Z
      else None
  | _ => None
  end.

#[global] Instance float_numeric : Numeric float := {
  of_Z := float_of_Z;
  decimal m k := PrimFloat.div (float_of_Z m) (float_of_Z (10 ^ Z.of_nat k));
  add := PrimFloat.add;
  sub := PrimFloat.sub;
  mul := PrimFloat.mul;
  div := PrimFloat.div;
  sqrt := PrimFloat.sqrt;
  abs := PrimFloat.abs;
  eqb := PrimFloat.eqb;
  ltb := PrimFloat.ltb;
  leb := PrimFloat.leb;
  to_int := float_to_int
}.

(** *** Exact arithmetic

    [Fin r] is the real number [r].  [NaN] is what an operation answers when
    it has no real result: a zero divisor, the square root of a negative
    number.  (numpy answers [nan] or an infinity there; the exact instance
    keeps a single non-number, compared unequal to everything.) *)

Inductive xreal : Type :=
| Fin (r : R)
| NaN.

Definition xlift2 (f : R -> R -> R) (x y : xreal) : xreal :=
  match x, y with
  | Fin a, Fin b => Fin (f a b)
  | _, _ => NaN
  end.

Definition xdiv (x y : xreal) : xreal :=
  match x, y with
  | Fin a, Fin b => if Req_dec_T b 0 then NaN else Fin (a / b)
  | _, _ => NaN
  end.

Definition xsqrt (x : xreal) : xreal :=
  match x with
  | Fin a => if Rlt_dec a 0 then NaN else Fin (R_sqrt.sqrt a)
  | NaN => NaN
  end.

Definition xabs (x : xreal) : xreal :=
  match x with
  | Fin a => Fin (Rabs a)
  | NaN => NaN
  end.

Definition xeqb (x y : xreal) : bool :=
  match x, y with
  | Fin a, Fin b => if Req_dec_T a b then true else false
  | _, _ => false
  end.

Definition xltb (x y : xreal) : bool :=
  match x, y with
  | Fin a, Fin b => if Rlt_dec a b then true else false
  | _, _ => false
  end.

Definition xleb (x y : xreal) : bool :=
  match x, y with
  | Fin a, Fin b => if Rle_dec a b then true else false
  | _, _ => false
  end.

Definition xto_int (x : xreal) : option Z :=
  match x with
  | Fin a => if Req_dec_T a (IZR (Int_part a)) then Some (Int_part a) else None
  | NaN => None
  end.

#[global] Instance xreal_numeric : Numeric xreal := {
  of_Z z := Fin (IZR z);
  decimal m k := Fin (IZR m / IZR (10 ^ Z.of_nat k));
  add := xlift2 Rplus;
  sub := xlift2 Rminus;
  mul := xlift2 Rmult;
  div := xdiv;
  sqrt := xsqrt;
  abs := xabs;
  eqb := xeqb;
  ltb := xltb;
  leb := xleb;
  to_int := xto_int
}.

(** [x ** y] in exact arithmetic: [exp (y * ln x)] for a positive base; a
    zero base gives [0] for a positive exponent and [1] for the exponent [0];
    a negative base has a power only for an integer exponent. *)
Definition xpow (x y : xreal) : xreal :=
  match x, y with
  | Fin a, Fin b =>
      if Rlt_dec 0 a then Fin (Rpower a b)
      else if Req_dec_T b (IZR (Int_part b)) then
        if Req_dec_T a 0
        then (if Rlt_dec b 0 then NaN else if Req_dec_T b 0 then Fin 1 else Fin 0)
        else Fin (powerRZ a (Int_part b))
      else if Req_dec_T a 0
        then (if Rlt_dec b 0 then NaN else Fin 0)
        else NaN
  | _, _ => NaN
  end.

#[global] Instance xreal_power : Power xreal := { pow := xpow }.

(** [x ** y] on binary64, where no approximation is involved.  numpy
    answers [x] for the exponent 1.0 and [np.sqrt(x)] for the exponent 0.5;
    it leaves the other exponents to [pow] of the C library, whose result
    IEEE 754 and C (Annex F) fix in the special cases: [pow(1, y)] and
    [pow(x, 0)] are 1; for [0 < y < 1], [pow] of a zero is +0, of an infinity
    +inf, of a NaN or a negative number NaN.  For a positive finite base
    other than 1 (and for the exponents not named here) the C library
    answers an approximation of [x^y] that this file does not define:
    [float_pow] answers NaN in its place, and a property read at such an
    answer would say nothing of numpy. *)
Definition float_pow (x y : float) : float :=
  if PrimFloat.eqb y 1 then x
  else if PrimFloat.eqb y 0.5 then PrimFloat.sqrt x
  else if PrimFloat.eqb x 1 || PrimFloat.eqb y 0 then 1%float
  else if PrimFloat.ltb 0 y && PrimFloat.ltb y 1 then
    if PrimFloat.eqb x 0 then 0%float
    else if PrimFloat.eqb (PrimFloat.abs x) infinity then infinity
    else PrimFloat.nan
  else PrimFloat.nan.

#[global] Instance float_power : Power float := { pow := float_pow }.

(** ** Python values *)

(** The exceptions the four modules can raise. *)
Inductive exn : Type :=
| ValueError (msg : string)
| KeyError (key : string)
| IndexError
| AttributeError
| ZeroDivisionError
| TypeError.

Definition result (A : Type) : Type := (exn + A)%type.

Definition ret {A} (a : A) : result A := inr a.
Definition raise {A} (e : exn) : result A := inl e.
Definition bind {A B} (m : result A) (k : A -> result B) : result B :=
  match m with
  | inl e => inl e
  | inr a => k a
  end.

Notation "x <- m ;; k" := (bind m (fun x => k))
  (at level 61, m at next level, right associativity).

(** [for x in l: acc = body(acc, x)], stopping at the first exception. *)
Fixpoint for_each {A B} (l : list A) (body : B -> A -> result B) (acc : B)
  : result B :=
  match l with
  | [] => ret acc
  | x :: l' => acc' <- body acc x ;; for_each l' body acc'
  end.

(** A [dict] with string keys, in insertion order. *)
Definition dict (V : Type) : Type := list (string * V).

Fixpoint dict_get {V} (d : dict V) (k : string) : option V :=
  match d with
  | [] => None
  | (k', v) :: d' => if String.eqb k' k then Some v else dict_get d' k
  end.

(** [d[k] = v]: an existing key keeps its place. *)
Fixpoint dict_set {V} (d : dict V) (k : string) (v : V) : dict V :=
  match d with
  | [] => [(k, v)]
  | (k', v') :: d' =>
      if String.eqb k' k then (k', v) :: d' else (k', v') :: dict_set d' k v
  end.

Definition dict_keys {V} (d : dict V) : list string := map fst d.
Definition dict_values {V} (d : dict V) : list V := map snd d.

(** [dict(zip(keys, vals))]. *)
Definition dict_zip {V} (keys : list string) (vals : list V) : dict V :=
  fold_left (fun d kv => dict_set d (fst kv) (snd kv)) (combine keys vals) [].

(** *** Strings *)

Definition lower_ascii (c : ascii) : ascii :=
  let n := nat_of_ascii c in
  if (65 <=? n)%nat && (n <=? 90)%nat then ascii_of_nat (n + 32) else c.

(** [str.lower], on the ASCII letters (no other character lowers to a letter
    of ["cost"]). *)
Fixpoint lower (s : string) : string :=
  match s with
  | EmptyString => EmptyString
  | String c s' => String (lower_ascii c) (lower s')
  end.

(** [s.replace(old, new)] for a non-empty [old]: [skip] counts the characters
    of a match still to be dropped. *)
Fixpoint replace_from (old new s : string) (skip : nat) : string :=
  match s with
  | EmptyString => EmptyString
  | String c s' =>
      match skip with
      | S k => replace_from old new s' k
      | O =>
          if String.prefix old s
          then (new ++ replace_from old new s' (String.length old - 1))%string
          else String c (replace_from old new s' 0)
      end
  end.

Definition replace (old new s : string) : string := replace_from old new s 0.

(** U+00A0, the no-break space, in UTF-8. *)
Definition nbsp : string :=
  String (ascii_of_nat 194) (String (ascii_of_nat 160) EmptyString).

(** *** Sorted, duplicate-free key lists (the axes of a pivot table) *)

Section SortedKeys.
Variable K : Type.
Variable cmp : K -> K -> comparison.

Fixpoint insert_key (k : K) (l : list K) : list K :=
  match l with
  | [] => [k]
  | x :: l' =>
      match cmp k x with
      | Lt => k :: l
      | Eq => l
      | Gt => x :: insert_key k l'
      end
  end.

Definition sorted_keys (l : list K) : list K :=
  fold_right insert_key [] l.
End SortedKeys.

Definition pair_compare (p q : string * string) : comparison :=
  match String.compare (fst p) (fst q) with
  | Eq => String.compare (snd p) (snd q)
  | c => c
  end.

Definition pair_eqb (p q : string * string) : bool :=
  String.eqb (fst p) (fst q) && String.eqb (snd p) (snd q).

(** [Series.unique()]: first occurrences, in order of appearance. *)
Fixpoint unique (l : list string) : list string :=
  match l with
  | [] => []
  | x :: l' => x :: filter (fun y => negb (String.eqb y x)) (unique l')
  end.

(** *** Frames *)

(** A row of the long-format data frame with the columns ["Region"],
    ["Category"], ["Sub-category"], ["Value"] and ["Cost/Benefit"]. *)
Record row (V : Type) : Type := mkrow {
  Region : string;
  Category : string;
  Sub_category : string;
  Value : V;
  Cost_Benefit : string
}.

Definition DataFrame (V : Type) : Type := list (row V).

Definition set_Value {V W} (r : row V) (w : W) : row W :=
  mkrow (Region r) (Category r) (Sub_category r) w (Cost_Benefit r).

(** [df[col].str] for a column of [df]: the four key columns hold strings;
    [.str] on a column of numbers (["Value"], and the ["Weight"] and
    ["Weighted"] columns [topsis] adds) is an [AttributeError]; any other
    name is a [KeyError]. *)
Definition str_column {V} (col : string) (r : row V) : result string :=
  if String.eqb col "Region" then ret (Region r)
  else if String.eqb col "Category" then ret (Category r)
  else if String.eqb col "Sub-category" then ret (Sub_category r)
  else if String.eqb col "Cost/Benefit" then ret (Cost_Benefit r)
  else if String.eqb col "Value" || String.eqb col "Weight"
          || String.eqb col "Weighted" then raise AttributeError
  else raise (KeyError col).

(** The frame [pd.DataFrame(matrix)] of a pairwise comparison matrix: row
    labels, column labels and cells by row. *)
Record Matrix (T : Type) : Type := mkMatrix {
  index : list string;
  columns : list string;
  values : list (list T)
}.

(** The scores [topsis] returns: a frame with the columns ["Region"] and
    ["TOPSIS Score"]. *)
Record Scores (T : Type) : Type := mkScores {
  score_columns : list string;
  score_rows : list (string * T)
}.

(** ** [mcdm/ahp.py] *)

Section AHP.
Context {T : Type} `{Numeric T} `{Power T}.

(** [arr.T] for a frame of [ncols] columns. *)
Definition transpose (ncols : nat) (arr : list (list T)) : list (list T) :=
  map (fun j => map (fun r => nth j r nan) arr) (seq 0 ncols).

(** [np.isclose(a, b, rtol=1e-5, atol=atol)]. *)
Definition isclose (atol a b : T) : bool :=
  if isfinite a && isfinite b
  then leb (abs (sub a b)) (add atol (mul (decimal 1 5) (abs b)))
  else eqb a b.

Definition allclose (atol : T) (a b : list (list T)) : bool :=
  forallb (fun rs =>
             forallb (fun xy => isclose atol (fst xy) (snd xy))
                     (combine (fst rs) (snd rs)))
          (combine a b).

Definition list_eqb (a b : list string) : bool :=
  (List.length a =? List.length b)%nat
  && forallb (fun xy => String.eqb (fst xy) (snd xy)) (combine a b).

Definition show_nat (n : nat) : string :=
  DecimalString.NilEmpty.string_of_uint (Nat.to_uint n).

(** One turn of the loop of [ahp_weights]: the lines it prints, and the
    weights of the sheet or the exception raised. *)
Definition ahp_sheet (sheet_name : string) (df : Matrix T)
  : list string * result (dict T) :=
  let shape0 := List.length (index df) in
  let shape1 := List.length (columns df) in
  if negb (shape0 =? shape1)%nat then
    ([], raise (ValueError ("AHP matrix '" ++ sheet_name ++ "' is not square: ("
                              ++ show_nat shape0 ++ ", " ++ show_nat shape1 ++ ")")%string))
  else
    let index' :=
      if negb (list_eqb (index df) (columns df)) then columns df else index df in
    let arr := values df in
    let printed :=
      if negb (allclose (decimal 1 2) arr
                        (map (map (div one)) (transpose shape1 arr)))
      then [("⚠️ Warning: Matrix '" ++ sheet_name
               ++ "' may not be fully reciprocal.")%string]
      else [] in
    match shape0 with
    | O => (printed, raise ZeroDivisionError)
    | S _ =>
        let exponent := div (of_Z 1) (of_Z (Z.of_nat shape0)) in
        let geom_means := map (fun r => pow (np_prod r) exponent) arr in
        let total := py_sum geom_means in
        let norm_weights := map (fun g => div g total) geom_means in
        (printed, ret (dict_zip index' norm_weights))
    end.

Fixpoint ahp_loop (sheets : dict (Matrix T)) (final_weights : dict (dict T))
  : list string * result (dict (dict T)) :=
  match sheets with
  | [] => ([], ret final_weights)
  | (sheet_name, matrix) :: sheets' =>
      match ahp_sheet sheet_name matrix with
      | (printed, inl e) => (printed, inl e)
      | (printed, inr w) =>
          let (printed', r) :=
            ahp_loop sheets' (dict_set final_weights sheet_name w) in
          (printed ++ printed', r)
      end
  end.

Definition ahp_weights (weights_dict : dict (Matrix T))
  : list string * result (dict (dict T)) :=
  ahp_loop weights_dict [].
End AHP.

(** ** [mcdm/normalisation.py] *)

Definition clean (s : string) : string :=
  replace "," "." (replace " " "" (replace nbsp "" s)).

Definition in_group {V} (cat sub_cat : string) (r : row V) : bool :=
  String.eqb (Category r) cat && String.eqb (Sub_category r) sub_cat.

(** *** The dtype of the parsed column

    [pd.to_numeric] gives the column the dtype [int64] when every value is
    written as an integer of its range, and [float64] as soon as one value
    is written with a point or an exponent.  The loops then compute in that
    dtype. *)

Definition digit_of (c : ascii) : option Z :=
  let n := nat_of_ascii c in
  if (48 <=? n)%nat && (n <=? 57)%nat then Some (Z.of_nat (n - 48)) else None.

(** The white space of C: the characters 9 to 13, and the space. *)
Definition is_space (c : ascii) : bool :=
  let n := nat_of_ascii c in
  ((9 <=? n)%nat && (n <=? 13)%nat) || (n =? 32)%nat.

Fixpoint all_space (s : string) : bool :=
  match s with
  | EmptyString => true
  | String c s' => is_space c && all_space s'
  end.

Fixpoint lstrip (s : string) : string :=
  match s with
  | EmptyString => EmptyString
  | String c s' => if is_space c then lstrip s' else s
  end.

(** Decimal digits, at least one, up to the end of the string or to trailing
    white space. *)
Fixpoint read_integer (s : string) (acc : Z) (seen : bool) : option Z :=
  match s with
  | EmptyString => if seen then Some acc else None
  | String c s' =>
      match digit_of c with
      | Some d => read_integer s' (10 * acc + d)%Z true
      | None => if seen && all_space s then Some acc else None
      end
  end.

(** The integer a string writes: an optional sign and decimal digits, the
    white space around them ignored.  [None] for every other string of
    digits, points and exponents, which is read as a float. *)
Definition int_literal (s : string) : option Z :=
  match lstrip s with
  | EmptyString => None
  | String c s' =>
      if Ascii.eqb c "-" then option_map Z.opp (read_integer s' 0 false)
      else if Ascii.eqb c "+" then read_integer s' 0 false
      else read_integer (String c s') 0 false
  end.

Inductive int_dtype : Type :=
| Int64
| UInt64.

Definition in_int64 (z : Z) : bool := (- 2 ^ 63 <=? z)%Z && (z <? 2 ^ 63)%Z.
Definition in_uint64 (z : Z) : bool := (0 <=? z)%Z && (z <? 2 ^ 64)%Z.

Definition all_integers (p : Z -> bool) (data : DataFrame string) : bool :=
  forallb (fun r => match int_literal (clean (Value r)) with
                    | Some z => p z
                    | None => false
                    end)
          data.

(** The integer dtype of the parsed column: [int64] when all values are
    integers of its range, [uint64] when all are integers from 0 to 2^64 - 1
    and one is above the range of [int64]; [None], for [float64],
    otherwise. *)
Definition column_dtype (data : DataFrame string) : option int_dtype :=
  if all_integers in_int64 data then Some Int64
  else if all_integers in_uint64 data then Some UInt64
  else None.

(** The rows of an integer column. *)
Definition int_rows (data : DataFrame string) : DataFrame Z :=
  map (fun r => set_Value r match int_literal (clean (Value r)) with
                            | Some z => z
                            | None => 0%Z
                            end)
      data.

(** Integer arithmetic wraps around. *)
Definition wrap (dt : int_dtype) (z : Z) : Z :=
  match dt with
  | Int64 => ((z + 2 ^ 63) mod 2 ^ 64 - 2 ^ 63)%Z
  | UInt64 => (z mod 2 ^ 64)%Z
  end.

(** The two loops over the categories and their sub-categories, in order of
    first appearance, on a frame with values of the type [V]; [body] is the
    body of the inner loop. *)
Definition normalize_loops {V}
           (body : DataFrame V -> string -> string -> result (DataFrame V))
           (norm_data : DataFrame V) : result (DataFrame V) :=
  for_each (unique (map (@Category V) norm_data))
    (fun nd cat =>
       for_each
         (unique (map (@Sub_category V)
                      (filter (fun r => String.eqb (Category r) cat) nd)))
         (fun nd' sub_cat => body nd' cat sub_cat)
         nd)
    norm_data.

Section Normalisation.
Context {T : Type} `{Numeric T}.

(** [pd.to_numeric] on one cell: the number read, or [None] where pandas
    raises. *)
Variable to_numeric : string -> option T.

Fixpoint parse_values (data : DataFrame string) : result (DataFrame T) :=
  match data with
  | [] => ret []
  | r :: data' =>
      match to_numeric (clean (Value r)) with
      | None =>
          raise (ValueError ("Unable to parse string " ++ clean (Value r))%string)
      | Some v => rest <- parse_values data' ;; ret (set_Value r v :: rest)
      end
  end.

(** The value assigned to a member [v] of a group with the values [vals] and
    the orientation [ctype], in a [float64] column. *)
Definition new_value (vals : list T) (ctype : string) (v : T) : T :=
  let vmax := nanmax vals in
  let vmin := nanmin vals in
  if eqb vmax vmin then one
  else if String.eqb (lower ctype) "cost"
       then div (sub vmax v) (sub vmax vmin)
       else div (sub v vmin) (sub vmax vmin).

(** The body of the inner loop, for one (category, sub-category), in a
    [float64] column. *)
Definition normalize_group (norm_data : DataFrame T) (cat sub_cat : string)
  : result (DataFrame T) :=
  let mask := in_group cat sub_cat in
  let vals := map (@Value T) (filter mask norm_data) in
  match filter mask norm_data with
  | [] => raise IndexError
  | r0 :: _ =>
      let ctype := Cost_Benefit r0 in
      ret (map (fun r => if mask r
                         then set_Value r (new_value vals ctype (Value r))
                         else r)
               norm_data)
  end.

(** In an integer column the differences are integers, which wrap around;
    their quotient is the float of the one divided by the float of the
    other. *)
Definition int_quotient (dt : int_dtype) (vmax vmin : Z) (ctype : string) (v : Z)
  : T :=
  let difference :=
    if String.eqb (lower ctype) "cost" then wrap dt (vmax - v) else wrap dt (v - vmin) in
  div (of_Z difference) (of_Z (wrap dt (vmax - vmin))).

(** The integer of the column that a float is, if it is one. *)
Definition cast (dt : int_dtype) (q : T) : option Z :=
  match to_int q with
  | Some z => if (wrap dt z =? z)%Z then Some z else None
  | None => None
  end.

(** The body of the inner loop in an integer column.  The assignment of
    [1.0] stores the integer 1.  The assignment of the quotients stores
    them as integers when each of them is one; when one is not, pandas 3
    refuses it with a [TypeError].  (pandas 2 turned the column into
    [float64] instead, with a warning from 2.1 on that announces the
    error.) *)
Definition normalize_group_int (dt : int_dtype) (norm_data : DataFrame Z)
           (cat sub_cat : string) : result (DataFrame Z) :=
  let mask := in_group cat sub_cat in
  match filter mask norm_data with
  | [] => raise IndexError
  | r0 :: g =>
      let ctype := Cost_Benefit r0 in
      let vmax := fold_left Z.max (map (@Value Z) g) (Value r0) in
      let vmin := fold_left Z.min (map (@Value Z) g) (Value r0) in
      if (vmax =? vmin)%Z then
        ret (map (fun r => if mask r then set_Value r 1%Z else r) norm_data)
      else
        let quotient := int_quotient dt vmax vmin ctype in
        if forallb (fun r => match cast dt (quotient (Value r)) with
                             | Some _ => true
                             | None => false
                             end)
                   (r0 :: g)
        then ret (map (fun r => if mask r
                                then set_Value r match cast dt (quotient (Value r)) with
                                                 | Some z => z
                                                 | None => 0%Z
                                                 end
                                else r)
                      norm_data)
        else raise TypeError
  end.

Definition min_max_normalize (data : DataFrame string) : result (DataFrame T) :=
  norm_data <- parse_values data ;;
  match column_dtype data with
  | Some dt =>
      ints <- normalize_loops (normalize_group_int dt) (int_rows data) ;;
      ret (map (fun r => set_Value r (of_Z (Value r))) ints)
  | None => normalize_loops normalize_group norm_data
  end.
End Normalisation.

(** ** [mcdm/topsis.py] *)

(** [df.pivot_table(index='Region', columns=['Category', 'Sub-category'],
    values='Weighted', aggfunc='sum', fill_value=0)]: the sorted regions, the
    sorted (category, sub-category) pairs and the cells by region. *)
Record Pivot (T : Type) : Type := mkPivot {
  pivot_index : list string;
  pivot_columns : list (string * string);
  pivot_cells : list (list T)
}.

Section Topsis.
Context {T : Type} `{Numeric T}.

(** [weights.get(cat, {}).get(sub, 1.0)]. *)
Definition get_weight (weights : dict (dict T)) (r : row T) : T :=
  match dict_get weights (Category r) with
  | None => one
  | Some sub_dict =>
      match dict_get sub_dict (Sub_category r) with
      | None => one
      | Some w => w
      end
  end.

(** A row of [df] with its ['Weighted'] column. *)
Definition weighted_row : Type := (row T * T)%type.

Definition add_weighted (weights : dict (dict T)) (r : row T) : weighted_row :=
  (r, mul (Value r) (get_weight weights r)).

(** [df.loc[cost_mask, 'Weighted'] = 1 - df.loc[cost_mask, 'Weighted']]. *)
Definition adjust_cost (criteria_type_col : string) (x : weighted_row)
  : result weighted_row :=
  ctype <- str_column criteria_type_col (fst x) ;;
  if String.eqb (lower ctype) "cost"
  then ret (fst x, sub (of_Z 1) (snd x))
  else ret x.

Fixpoint adjust_costs (criteria_type_col : string) (df : list weighted_row)
  : result (list weighted_row) :=
  match df with
  | [] => ret []
  | x :: df' =>
      x' <- adjust_cost criteria_type_col x ;;
      rest <- adjust_costs criteria_type_col df' ;;
      ret (x' :: rest)
  end.

Definition in_cell (region : string) (col : string * string) (x : weighted_row)
  : bool :=
  String.eqb (Region (fst x)) region
  && pair_eqb (Category (fst x), Sub_category (fst x)) col.

(** A cell sums the weighted values of its group; a (region, criterion)
    without a row gets [fill_value]. *)
Definition pivot_cell (df : list weighted_row) (region : string)
           (col : string * string) : T :=
  match filter (in_cell region col) df with
  | [] => of_Z 0
  | g => nansum (map snd g)
  end.

Definition pivot_table (df : list weighted_row) : Pivot T :=
  let regions := sorted_keys String.compare (map (fun x => Region (fst x)) df) in
  let cols :=
    sorted_keys pair_compare
                (map (fun x => (Category (fst x), Sub_category (fst x))) df) in
  mkPivot regions cols
          (map (fun r => map (fun c => pivot_cell df r c) cols) regions).

Definition column (cells : list (list T)) (j : nat) : list T :=
  map (fun r => nth j r nan) cells.

(** [df_pivot.max()] and [df_pivot.min()], by column. *)
Definition ideal_of (p : Pivot T) : list T :=
  map (fun j => nanmax (column (pivot_cells p) j))
      (seq 0 (List.length (pivot_columns p))).

Definition anti_ideal_of (p : Pivot T) : list T :=
  map (fun j => nanmin (column (pivot_cells p) j))
      (seq 0 (List.length (pivot_columns p))).

(** [np.sqrt(((row - ref)**2).sum())]. *)
Definition distance (r ref : list T) : T :=
  sqrt (nansum (map (fun xi => mul (sub (fst xi) (snd xi)) (sub (fst xi) (snd xi)))
                    (combine r ref))).

(** The closeness coefficients, by region. *)
Definition closeness (p : Pivot T) : list T :=
  let ideal := ideal_of p in
  let anti_ideal := anti_ideal_of p in
  map (fun r =>
         let dist_to_ideal := distance r ideal in
         let dist_to_anti := distance r anti_ideal in
         div dist_to_anti (add dist_to_ideal dist_to_anti))
      (pivot_cells p).

Definition epsilon : T := decimal 1 2.

(** The rescaling to [[epsilon, 1]]. *)
Definition rescale (scores : list T) : list T :=
  let smin := nanmin scores in
  let smax := nanmax scores in
  let scores1 := map (fun s => div (sub s smin) (sub smax smin)) scores in
  map (fun s => add (mul s (sub (of_Z 1) epsilon)) epsilon) scores1.

Definition topsis (norm_data : DataFrame T) (weights : dict (dict T))
           (criteria_type_col : option string) : result (Scores T) :=
  let df := map (add_weighted weights) norm_data in
  df <- match criteria_type_col with
        | Some col => if String.eqb col "" then ret df else adjust_costs col df
        | None => ret df
        end ;;
  let df_pivot := pivot_table df in
  let scores := rescale (closeness df_pivot) in
  ret (mkScores ["Region"; "TOPSIS Score"]%string
                (combine (pivot_index df_pivot) scores)).
End Topsis.

(** ** [mcdm/sensitivity.py] *)

(** A weight, and [delta], is a Python [float] or a [numpy.float64] (the
    weights [ahp_weights] returns are of the second kind).  Both hold the
    same binary64 numbers and compute the same sums, products and quotients;
    an operation answers a [numpy.float64] when one of its operands is one.
    They differ in the division by zero: between two Python floats it raises
    [ZeroDivisionError]; once a [numpy.float64] takes part it answers an
    infinity or NaN.  (A Python [int] behaves here as the Python float of its
    value.) *)
Inductive scalar (T : Type) : Type :=
| PyFloat (x : T)
| NpFloat64 (x : T).

Section Sensitivity.
Context {T : Type} `{Numeric T}.

Definition scalar_value (s : scalar T) : T :=
  match s with
  | PyFloat x => x
  | NpFloat64 x => x
  end.

Definition is_numpy (s : scalar T) : bool :=
  match s with
  | PyFloat _ => false
  | NpFloat64 _ => true
  end.

(** The number [x] as the result of an operation on [a] and [b]. *)
Definition typed (a b : scalar T) (x : T) : scalar T :=
  if is_numpy a || is_numpy b then NpFloat64 x else PyFloat x.

Definition scalar_add (a b : scalar T) : scalar T :=
  typed a b (add (scalar_value a) (scalar_value b)).

Definition scalar_sub (a b : scalar T) : scalar T :=
  typed a b (sub (scalar_value a) (scalar_value b)).

Definition scalar_mul (a b : scalar T) : scalar T :=
  typed a b (mul (scalar_value a) (scalar_value b)).

(** [a / b]. *)
Definition scalar_truediv (a b : scalar T) : result (scalar T) :=
  if negb (is_numpy a || is_numpy b) && eqb (scalar_value b) zero
  then raise ZeroDivisionError
  else ret (typed a b (div (scalar_value a) (scalar_value b))).

(** [sum(...)]: starts from the integer [0] and adds from the left. *)
Definition scalar_sum (l : list (scalar T)) : scalar T :=
  fold_left scalar_add l (PyFloat zero).

(** [for key in d: d[key] /= total]. *)
Fixpoint divide_values (d : dict (scalar T)) (total : scalar T)
  : result (dict (scalar T)) :=
  match d with
  | [] => ret []
  | (key, v) :: d' =>
      v' <- scalar_truediv v total ;;
      rest <- divide_values d' total ;;
      ret ((key, v') :: rest)
  end.

(** The numbers of a weight tree: what [topsis] reads of it into its
    ['Weight'] column. *)
Definition dict_numbers (d : dict (scalar T)) : dict T :=
  map (fun sw => (fst sw, scalar_value (snd sw))) d.

Definition tree_values (weights : dict (dict (scalar T))) : dict (dict T) :=
  map (fun cs => (fst cs, dict_numbers (snd cs))) weights.

(** A deep copy of [weights] in which [weights[category][sub_category]] is
    [new_weight] and the weights of [category] are divided by their sum. *)
Definition perturb (weights : dict (dict (scalar T))) (category sub_category : string)
           (new_weight : scalar T) : result (dict (dict (scalar T))) :=
  match dict_get weights category with
  | None => raise (KeyError category)
  | Some sub_dict =>
      let sub_dict' := dict_set sub_dict sub_category new_weight in
      let total := scalar_sum (dict_values sub_dict') in
      sub_dict'' <- divide_values sub_dict' total ;;
      ret (dict_set weights category sub_dict'')
  end.

Definition result_key (category sub_category direction : string) : string :=
  (category ++ "_" ++ sub_category ++ "_" ++ direction)%string.

(** The body of the inner loop, for one leaf weight. *)
Definition sensitivity_step (norm_data : DataFrame T)
           (weights : dict (dict (scalar T))) (delta : scalar T)
           (category : string) (results : dict (Scores T))
           (leaf : string * scalar T) : result (dict (Scores T)) :=
  let (sub_category, orig_weight) := leaf in
  weights_plus <- perturb weights category sub_category
                          (scalar_mul orig_weight
                                      (scalar_add (PyFloat (of_Z 1)) delta)) ;;
  scores_plus <- topsis norm_data (tree_values weights_plus) None ;;
  let results := dict_set results (result_key category sub_category "plus")
                          scores_plus in
  weights_minus <- perturb weights category sub_category
                           (scalar_mul orig_weight
                                       (scalar_sub (PyFloat (of_Z 1)) delta)) ;;
  scores_minus <- topsis norm_data (tree_values weights_minus) None ;;
  ret (dict_set results (result_key category sub_category "minus") scores_minus).

Definition sensitivity_analysis (norm_data : DataFrame T)
           (weights : dict (dict (scalar T))) (delta : scalar T)
  : result (Scores T * dict (Scores T)) :=
  base_scores <- topsis norm_data (tree_values weights) None ;;
  results <- for_each weights
               (fun results cat_subs =>
                  for_each (snd cat_subs)
                           (sensitivity_step norm_data weights delta (fst cat_subs))
                           results)
               [] ;;
  ret (base_scores, results).

(** The tree of the numbers [weights] as numpy floats, as [ahp_weights]
    returns it, and as Python floats, as a caller may write it. *)
Definition numpy_tree (weights : dict (dict T)) : dict (dict (scalar T)) :=
  map (fun cs => (fst cs, map (fun sw => (fst sw, NpFloat64 (snd sw))) (snd cs)))
      weights.

Definition python_tree (weights : dict (dict T)) : dict (dict (scalar T)) :=
  map (fun cs => (fst cs, map (fun sw => (fst sw, PyFloat (snd sw))) (snd cs)))
      weights.
End Sensitivity.

(** ** [mcdm/visualisation_static.py]: the rank column *)

Section Rank.
Context {T : Type} `{Numeric T}.

(** [Score.rank(ascending=False, method="min")] over the valid (non-NaN)
    scores: one more than the number of strictly greater scores; a region
    without a valid score keeps no rank. *)
Definition rank_scores (scores : list T) : list (option nat) :=
  let valid := filter notnan scores in
  map (fun s =>
         if notnan s
         then Some (S (List.length (filter (fun t => ltb s t) valid)))
         else None)
      scores.
End Rank.

(** ** Reading decimal numerals

    [to_numeric_decimal] reads the numerals of a configuration as
    [pd.to_numeric] does: an optional sign, digits with an optional
    fraction, an optional exponent.  It answers [None] on an integer outside
    the ranges of [int64] and [uint64], which pandas refuses, and on every
    other string, also on the other spellings of a number that pandas
    accepts (an infinity, a NaN, white space around a numeral with a point
    or an exponent; around an integer it is accepted).  Its float
    is the nearest one for an integer and for a numeral of at most 15 digits
    scaled by a power of ten of at most 22, which covers the numerals used
    below; pandas answers the nearest float for every numeral. *)

Section Reader.
Context {T : Type} `{Numeric T}.

Fixpoint read_natural (s : string) (acc : Z) (seen : bool) : option Z :=
  match s with
  | EmptyString => if seen then Some acc else None
  | String c s' =>
      match digit_of c with
      | Some d => read_natural s' (10 * acc + d)%Z true
      | None => None
      end
  end.

Definition read_exponent (s : string) : option Z :=
  match s with
  | EmptyString => None
  | String c s' =>
      if Ascii.eqb c "-" then option_map Z.opp (read_natural s' 0 false)
      else if Ascii.eqb c "+" then read_natural s' 0 false
      else read_natural s 0 false
  end.

(** [m] is the number read so far, [frac] the count of digits after the
    point once the point was seen, [seen] whether a digit was read; the
    result is the digits as an integer, the count of those after the point
    and the exponent. *)
Fixpoint read_digits (s : string) (m : Z) (frac : option nat) (seen : bool)
  : option (Z * nat * Z) :=
  match s with
  | EmptyString =>
      if seen then Some (m, match frac with Some k => k | None => O end, 0%Z)
      else None
  | String c s' =>
      if Ascii.eqb c "."
      then match frac with
           | None => read_digits s' m (Some O) seen
           | Some _ => None
           end
      else if Ascii.eqb c "e" || Ascii.eqb c "E"
      then if seen
           then option_map
                  (fun e => (m, match frac with Some k => k | None => O end, e))
                  (read_exponent s')
           else None
      else match digit_of c with
           | Some d => read_digits s' (10 * m + d)%Z (option_map S frac) true
           | None => None
           end
  end.

(** The float of [m * 10^(e - k)]. *)
Definition scaled (mke : Z * nat * Z) : T :=
  let '(m, k, e) := mke in
  if (e =? 0)%Z then decimal m k
  else if (Z.of_nat k <=? e)%Z then of_Z (m * 10 ^ (e - Z.of_nat k))
  else div (of_Z m) (of_Z (10 ^ (Z.of_nat k - e))).

Definition to_numeric_decimal (s : string) : option T :=
  match int_literal s with
  | Some z => if in_int64 z || in_uint64 z then Some (of_Z z) else None
  | None =>
      match s with
      | EmptyString => None
      | String c s' =>
          if Ascii.eqb c "-"
          then option_map (fun mke => sub zero (scaled mke))
                          (read_digits s' 0 None false)
          else if Ascii.eqb c "+"
          then option_map scaled (read_digits s' 0 None false)
          else option_map scaled (read_digits s 0 None false)
      end
  end.
End Reader.

(** ** Inputs of the scenarios *)

Module Scenario.
Local Open Scope string_scope.

(** Two regions and the cost criterion ["Distance"], raw values 10 and 20. *)
Definition distance_data : DataFrame string :=
  [ mkrow "Region1" "Accessibility" "Distance" "10" "Cost";
    mkrow "Region2" "Accessibility" "Distance" "20" "Cost" ].

(** The same two regions with the raw values 10,5 and 20: the first is
    written with a decimal comma, and the column is a [float64] column. *)
Definition decimal_data : DataFrame string :=
  [ mkrow "Region1" "Accessibility" "Distance" "10,5" "Cost";
    mkrow "Region2" "Accessibility" "Distance" "20" "Cost" ].

Definition distance_norm {T} `{Numeric T} : DataFrame T :=
  [ mkrow "Region1" "Accessibility" "Distance" (of_Z 1) "Cost";
    mkrow "Region2" "Accessibility" "Distance" (of_Z 0) "Cost" ].

Definition distance_weights {T} `{Numeric T} : dict (dict T) :=
  [ ("Accessibility", [ ("Distance", of_Z 1) ]) ].

(** The same criterion read as a benefit: the far region scores best and
    the regions come out in ascending order of score. *)
Definition ascending_norm {T} `{Numeric T} : DataFrame T :=
  [ mkrow "Region1" "Accessibility" "Distance" (of_Z 0) "Benefit";
    mkrow "Region2" "Accessibility" "Distance" (of_Z 1) "Benefit" ].

(** Two regions, two criteria, each region best on one of them: both
    closeness coefficients are 0.5. *)
Definition crossed_norm {T} `{Numeric T} : DataFrame T :=
  [ mkrow "Region1" "Economy" "Income" (of_Z 1) "Benefit";
    mkrow "Region1" "Economy" "Jobs" (of_Z 0) "Benefit";
    mkrow "Region2" "Economy" "Income" (of_Z 0) "Benefit";
    mkrow "Region2" "Economy" "Jobs" (of_Z 1) "Benefit" ].

Definition crossed_weights {T} `{Numeric T} : dict (dict T) :=
  [ ("Economy", [ ("Income", decimal 5 1); ("Jobs", decimal 5 1) ]) ].

(** Two leaves whose names run together into one result key. *)
Definition colliding_weights {T} `{Numeric T} : dict (dict T) :=
  [ ("A", [ ("B_C", of_Z 1) ]); ("A_B", [ ("C", of_Z 1) ]) ].

Definition halves_weights {T} `{Numeric T} : dict (dict T) :=
  [ ("Accessibility", [ ("Distance", decimal 5 1); ("Roads", decimal 5 1) ]) ].




(** Income judged twice as important as jobs. *)
Definition saaty_rows : list (list R) := [ [1; 2]; [1 / 2; 1] ]%R.

Definition saaty_matrix : Matrix xreal :=
  mkMatrix ["Income"; "Jobs"] ["Income"; "Jobs"] (map (map Fin) saaty_rows).


(** Three regions and two benefit criteria of one category, the second with
    the weight 1e-8; [jobs3] is the normalized value of Region3 for it. *)
Definition tilted_weights {T} `{Numeric T} : dict (dict T) :=
  [ ("Economy", [ ("Income", decimal 99999999 8); ("Jobs", decimal 1 8) ]) ].

Definition tilted_norm {T} `{Numeric T} (jobs3 : T) : DataFrame T :=
  [ mkrow "Region1" "Economy" "Income" (decimal 1 1) "Benefit";
    mkrow "Region1" "Economy" "Jobs" (decimal 3 1) "Benefit";
    mkrow "Region2" "Economy" "Income" (decimal 7 1) "Benefit";
    mkrow "Region2" "Economy" "Jobs" (decimal 7 1) "Benefit";
    mkrow "Region3" "Economy" "Income" (decimal 5 1) "Benefit";
    mkrow "Region3" "Economy" "Jobs" jobs3 "Benefit" ].

(** An exactly reciprocal matrix of three items with the judgements 2^600
    and 2^-600 beside the diagonal of ones. *)
Definition steep_matrix {T} `{Numeric T} : Matrix T :=
  let big := of_Z (2 ^ 600) in
  let small := div one big in
  mkMatrix ["Income"; "Jobs"; "Roads"] ["Income"; "Jobs"; "Roads"]
           [ [one; big; big]; [small; one; big]; [small; small; one] ].

(** The frame of the scores [rows]. *)
Definition scores_frame {T} (rows : list (string * T)) : Scores T :=
  mkScores ["Region"; "TOPSIS Score"] rows.

(** A reciprocal 2 x 2 matrix with negative entries. *)
Definition negative_matrix {T} `{Numeric T} : Matrix T :=
  mkMatrix ["Income"; "Jobs"] ["Income"; "Jobs"]
           [ [sub zero one; sub zero one]; [sub zero one; sub zero one] ].
End Scenario.

(** ** Notions the properties speak of *)

(** The leaf weights of a weight tree, in iteration order. *)
Definition leaves {T} (weights : dict (dict T)) : list (string * string * T) :=
  List.concat (map (fun cs => map (fun sw => (fst cs, fst sw, snd sw)) (snd cs))
                   weights).

(** Sums, products and extrema of lists of real numbers. *)
Fixpoint Rsum (l : list R) : R :=
  match l with
  | [] => 0%R
  | x :: l' => (x + Rsum l')%R
  end.

Fixpoint Rprod (l : list R) : R :=
  match l with
  | [] => 1%R
  | x :: l' => (x * Rprod l')%R
  end.

Definition Rmaxl (x : R) (l : list R) : R := fold_left Rmax l x.
Definition Rminl (x : R) (l : list R) : R := fold_left Rmin l x.

(** The frame of a pairwise comparison matrix over [n >= 1] distinct items
    whose cells are the strictly positive numbers [rows]. *)
Definition positive_matrix (df : Matrix xreal) (rows : list (list R)) : Prop :=
  NoDup (columns df)
  /\ columns df <> []
  /\ List.length (index df) = List.length (columns df)
  /\ List.length rows = List.length (index df)
  /\ values df = map (map Fin) rows
  /\ Forall (Forall (fun a => (0 < a)%R)) rows.

(** The weights of a sheet of [n] items in exact arithmetic: the geometric
    means of the rows, divided by their sum. *)
Definition sheet_weights (n : nat) (rows : list (list R)) : list R :=
  let e := (1 / IZR (Z.of_nat n))%R in
  let gs := map (fun r => Rpower (Rprod r) e) rows in
  map (fun g => (g / Rsum gs)%R) gs.

(** The keys a dictionary holds after the keys [ks] were set in turn. *)
Definition add_key (l : list string) (k : string) : list string :=
  if existsb (String.eqb k) l then l else l ++ [k].

Definition leaf_name {T} (leaf : string * string * T) : string :=
  (fst (fst leaf) ++ "_" ++ snd (fst leaf))%string.

(** The result keys the sensitivity loop sets, in order. *)
Definition result_keys {T} (weights : dict (dict T)) : list string :=
  List.concat
    (map (fun leaf => [result_key (fst (fst leaf)) (snd (fst leaf)) "plus";
                       result_key (fst (fst leaf)) (snd (fst leaf)) "minus"])
         (leaves weights)).

(** The invariant of a weight tree: distinct categories, distinct
    sub-categories within a category, weights in [[0, 1]] that sum to 1.0
    within 1e-9 in each category. *)
Definition weight_tree (weights : dict (dict xreal)) : Prop :=
  NoDup (dict_keys weights)
  /\ forall cat sub_dict, In (cat, sub_dict) weights ->
       NoDup (dict_keys sub_dict)
       /\ exists ws, dict_values sub_dict = map Fin ws
                     /\ Forall (fun w => (0 <= w <= 1)%R) ws
                     /\ (Rabs (Rsum ws - 1) <= 1 / 10 ^ 9)%R.

(** The characters of a string. *)
Fixpoint chars (s : string) : list ascii :=
  match s with
  | EmptyString => []
  | String c s' => c :: chars s'
  end.

(** What the loops of [min_max_normalize] make of a row [r] of the parsed
    frame [nd0]: the new value of its group, computed from the parsed values
    of the group. *)
Definition normalized_row {T} `{Numeric T} (nd0 : DataFrame T) (r : row T) : row T :=
  match filter (in_group (Category r) (Sub_category r)) nd0 with
  | [] => r
  | r0 :: _ =>
      set_Value r
        (new_value (map (@Value T)
                        (filter (in_group (Category r) (Sub_category r)) nd0))
                   (Cost_Benefit r0) (Value r))
  end.

(** The frame once the groups [done] were processed. *)
Definition norm_done {T} `{Numeric T} (done : list (string * string))
           (nd0 : DataFrame T) : DataFrame T :=
  map (fun r => if existsb (pair_eqb (Category r, Sub_category r)) done
                then normalized_row nd0 r else r)
      nd0.

Definition done_after (done : list (string * string)) (cat : string)
           (subs : list string) : list (string * string) :=
  fold_left (fun d s => (cat, s) :: d) subs done.

Definition subs_of {T} (nd : DataFrame T) (cat : string) : list string :=
  unique (map (@Sub_category T) (filter (fun r => String.eqb (Category r) cat) nd)).

Definition parsed {T} `{Numeric T} (to_numeric : string -> option T) (r : row string)
  : row T :=
  set_Value r match to_numeric (clean (Value r)) with
              | Some v => v
              | None => nan
              end.

(** A row after the groups [done] were processed. *)
Definition step_row {T} `{Numeric T} (done : list (string * string))
           (nd0 : DataFrame T) (r : row T) : row T :=
  if existsb (pair_eqb (Category r, Sub_category r)) done
  then normalized_row nd0 r else r.

(** The groups processed once the outer loop went through [cats]. *)
Definition outer_done {T} (nd0 : DataFrame T) (done : list (string * string))
           (cats : list string) : list (string * string) :=
  fold_left (fun d cat => done_after d cat (subs_of nd0 cat)) cats done.

(** The key columns of a row. *)
Definition row_keys {V} (r : row V) : string * string * string * string :=
  (Region r, Category r, Sub_category r, Cost_Benefit r).

(** *** TOPSIS in exact arithmetic

    The steps of [topsis] on a pivot table whose cell for the region [r] and
    the criterion [c] is the real number [G r c]. *)

Definition Rmax_list (l : list R) : R :=
  match l with
  | [] => 0%R
  | x :: xs => Rmaxl x xs
  end.

Definition Rmin_list (l : list R) : R :=
  match l with
  | [] => 0%R
  | x :: xs => Rminl x xs
  end.

Definition fin_val (x : xreal) : R :=
  match x with
  | Fin a => a
  | NaN => 0%R
  end.

(** The cell of a region and a criterion: the sum of the weighted values of
    its rows. *)
Definition cell_real (df : list (row xreal * xreal)) (region : string)
           (col : string * string) : R :=
  Rsum (map (fun x => fin_val (snd x)) (filter (in_cell region col) df)).

Definition Rideal (regions : list string) (G : string -> string * string -> R)
           (c : string * string) : R :=
  Rmax_list (map (fun r => G r c) regions).

Definition Ranti (regions : list string) (G : string -> string * string -> R)
           (c : string * string) : R :=
  Rmin_list (map (fun r => G r c) regions).

(** The Euclidean distance of the row of [r] to the reference row [ref]. *)
Definition Rdist (cols : list (string * string)) (G : string -> string * string -> R)
           (ref : string * string -> R) (r : string) : R :=
  R_sqrt.sqrt (Rsum (map (fun c => ((G r c - ref c) * (G r c - ref c))%R) cols)).

Definition Rdplus (regions : list string) (cols : list (string * string))
           (G : string -> string * string -> R) (r : string) : R :=
  Rdist cols G (Rideal regions G) r.

Definition Rdminus (regions : list string) (cols : list (string * string))
           (G : string -> string * string -> R) (r : string) : R :=
  Rdist cols G (Ranti regions G) r.

(** The closeness coefficient of [r]: NaN when both distances are zero. *)
Definition xclose (regions : list string) (cols : list (string * string))
           (G : string -> string * string -> R) (r : string) : xreal :=
  div (Fin (Rdminus regions cols G r))
      (add (Fin (Rdplus regions cols G r)) (Fin (Rdminus regions cols G r))).

(** The rescaled value of one score among [scores]. *)
Definition rescale_one {T} `{Numeric T} (scores : list T) (s : T) : T :=
  add (mul (div (sub s (nanmin scores)) (sub (nanmax scores) (nanmin scores)))
           (sub (of_Z 1) epsilon))
      epsilon.

(** The row [r] counts as a benefit criterion in [topsis]: there is no
    criteria-type column, or the column does not say ["cost"] for [r]. *)
Definition benefit_under {V} (criteria_type_col : option string) (r : row V) : Prop :=
  match criteria_type_col with
  | None => True
  | Some col =>
      col = ""%string
      \/ exists ctype, str_column col r = inr ctype
                       /\ String.eqb (lower ctype) "cost" = false
  end.

(** The weights of a tree are numbers and none is negative. *)
Definition nonneg_weights (weights : dict (dict xreal)) : Prop :=
  forall cat sub_dict sub_cat x,
    In (cat, sub_dict) weights -> In (sub_cat, x) sub_dict ->
    exists w, x = Fin w /\ (0 <= w)%R.

(** The row of [df] that [topsis] pivots for the row [r] of the data: its
    weighted value, turned into [1 - weighted] when the criteria-type column
    says ["cost"]. *)
Definition final_row {T} `{Numeric T} (weights : dict (dict T))
           (criteria_type_col : option string) (r : row T) : row T * T :=
  match criteria_type_col with
  | None => add_weighted weights r
  | Some col =>
      if String.eqb col "" then add_weighted weights r
      else match str_column col r with
           | inr ctype =>
               if String.eqb (lower ctype) "cost"
               then (r, sub (of_Z 1) (mul (Value r) (get_weight weights r)))
               else add_weighted weights r
           | inl _ => add_weighted weights r
           end
  end.

(** ** [mcdm/mcdm_io.py]: what [cat_config] computes between its reads and
    writes *)

(** [d.setdefault(k, default)]: the dictionary with [k] present, and the
    value under [k]. *)
Definition setdefault {A} (d : dict A) (k : string) (default : A) : dict A * A :=
  match dict_get d k with
  | Some v => (d, v)
  | None => (d ++ [(k, default)], default)
  end.

(** One turn of the loop over the rows:
    [categories.setdefault(reg, {}).setdefault(cat, []).append(sub)]. *)
Definition add_sub_category {V} (categories : dict (dict (list string)))
           (r : row V) : dict (dict (list string)) :=
  let (categories, by_cat) := setdefault categories (Region r) [] in
  let (by_cat, subs) := setdefault by_cat (Category r) [] in
  dict_set categories (Region r)
           (dict_set by_cat (Category r) (subs ++ [Sub_category r])).

Definition build_categories {V} (df_final : DataFrame V)
  : dict (dict (list string)) :=
  fold_left add_sub_category df_final [].

(** [categories[reg][cat]], when both keys are present. *)
Definition categories_get (categories : dict (dict (list string)))
           (reg cat : string) : option (list string) :=
  match dict_get categories reg with
  | Some by_cat => dict_get by_cat cat
  | None => None
  end.

(** A Python string is a sequence of code points: in UTF-8 the bytes 128
    to 191 continue the code point begun before them. *)
Definition is_continuation (c : ascii) : bool :=
  let n := nat_of_ascii c in (128 <=? n)%nat && (n <=? 191)%nat.

(** [len(s)]. *)
Fixpoint py_len (s : string) : nat :=
  match s with
  | EmptyString => O
  | String c s' => if is_continuation c then py_len s' else S (py_len s')
  end.

(** [s[:n]]. *)
Fixpoint py_take (n : nat) (s : string) : string :=
  match s with
  | EmptyString => EmptyString
  | String c s' =>
      if is_continuation c then String c (py_take n s')
      else match n with
           | O => EmptyString
           | S k => String c (py_take k s')
           end
  end.

Section CatConfig.
Context {T : Type} `{Numeric T}.

(** [np.eye(n)]. *)
Definition eye (n : nat) : list (list T) :=
  map (fun i => map (fun j => if (i =? j)%nat then one else zero) (seq 0 n))
      (seq 0 n).

Definition create_pairwise_matrix (items : list string) : Matrix T :=
  mkMatrix items items (eye (List.length items)).

(** The sheets [cat_config] writes, in order: ["General"] for the
    categories, then one sheet for each category that has more than one
    sub-category, named by the first 25 characters of the category. *)
Definition pairwise_sheets {V} (df_final : DataFrame V) : list (string * Matrix T) :=
  let all_cats := sorted_keys String.compare (map (@Category V) df_final) in
  ("General"%string, create_pairwise_matrix all_cats)
  :: flat_map (fun cat =>
                 let subcats := subs_of df_final cat in
                 if (1 <? List.length subcats)%nat
                 then [(py_take 25 cat, create_pairwise_matrix subcats)]
                 else [])
              all_cats.
End CatConfig.

(** The line [ahp_weights] prints for a sheet it finds not reciprocal. *)
Definition reciprocity_warning (sheet_name : string) : string :=
  ("⚠️ Warning: Matrix '" ++ sheet_name ++ "' may not be fully reciprocal.")%string.

(** The rows of a region and a category. *)
Definition row_in {V} (reg cat : string) (r : row V) : bool :=
  String.eqb (Region r) reg && String.eqb (Category r) cat.

(** Row [i] of the identity matrix of size [n], as real numbers. *)
Definition Reye_row (n i : nat) : list R :=
  map (fun j => if (i =? j)%nat then 1%R else 0%R) (seq 0 n).

(** The cells [a i j] of an [n] by [n] matrix, as [ahp_weights] receives
    them. *)
Definition cells_of (n : nat) (a : nat -> nat -> R) : list (list xreal) :=
  map (fun i => map (fun j => Fin (a i j)) (seq 0 n)) (seq 0 n).

(** What [np.allclose(arr, 1 / arr.T, atol=0.01)] asks of the cells. *)
Definition reciprocal_within (n : nat) (a : nat -> nat -> R) : Prop :=
  forall i j, (i < n)%nat -> (j < n)%nat ->
    (Rabs (a i j - 1 / a j i) <= 1 / 100 + 1 / 100000 * Rabs (1 / a j i))%R.

(** The pairwise matrix of a consistent judge with the priorities [ws]:
    item [i] against item [j] is [w_i / w_j]. *)
Definition consistent_rows (ws : list R) : list (list R) :=
  map (fun wi => map (fun wj => (wi / wj)%R) ws) ws.

(** The rows of the default CSV template of [cat_config], without the
    ["Unit"] column. *)
Module Template.
Local Open Scope string_scope.

Definition default_data : DataFrame string :=
  [ mkrow "A" "Infrastructure and Accessibility" "Highways" "5" "Cost";
    mkrow "A" "Infrastructure and Accessibility" "Railway" "10" "Cost";
    mkrow "A" "Infrastructure and Accessibility" "Seaport" "1" "Cost";
    mkrow "A" "Infrastructure and Accessibility" "Airport" "15" "Cost";
    mkrow "A" "Infrastructure and Accessibility" "Electricity" "10" "Benefit";
    mkrow "A" "Infrastructure and Accessibility" "Gas Supply" "500000" "Benefit";
    mkrow "A" "Infrastructure and Accessibility" "Optical internet" "1" "Benefit";
    mkrow "A" "Market Proximity and Trade" "Distance to Border Crossing Points" "15" "Cost";
    mkrow "A" "Market Proximity and Trade" "Distance to Main Export Markets" "2" "Cost";
    mkrow "A" "Labor Market" "Average Salary" "600" "Benefit";
    mkrow "A" "Labor Market" "Workforce Density" "50" "Benefit";
    mkrow "A" "Labor Market" "Education Level (secondary+tertiary)" "55" "Benefit";
    mkrow "A" "Labor Market" "Proximity to Vocational/Universities" "15" "Cost";
    mkrow "A" "Land and Property" "Industrial Land Area & Price" "20" "Benefit";
    mkrow "A" "Land and Property" "Existing Industrial Parks" "1" "Benefit";
    mkrow "A" "Land and Property" "Earthquake/Flood/Land Risk Index" "3" "Cost";
    mkrow "A" "Economic & Institutional" "Local Government Support" "7" "Benefit";
    mkrow "A" "Economic & Institutional" "Tax/Custom Incentives" "6" "Benefit";
    mkrow "A" "Economic & Institutional" "Business Establishment Time/Cost" "30" "Cost";
    mkrow "A" "Economic & Institutional" "Corruption/Perception Index" "5" "Cost";
    mkrow "A" "Socio-Economic Effects" "Unemployment Level" "7" "Cost";
    mkrow "A" "Socio-Economic Effects" "Population Density" "120" "Benefit" ].

(** A sheet of the workbook as a user may have filled it in: highways judged
    twice as important as railways. *)
Definition edited_sheets : dict (Matrix xreal) :=
  [ ("Infrastructure and Access",
     mkMatrix ["Highways"; "Railway"] ["Highways"; "Railway"]
              (map (map Fin) Scenario.saaty_rows)) ].
End Template.

(** The cells of the matrix [Scenario.saaty_rows], by position. *)
Definition saaty_cell (i j : nat) : R := nth j (nth i Scenario.saaty_rows []) 1%R.

(** *** The normaliser in exact arithmetic *)

(** The rows of the group of [r]: those with its category and
    sub-category. *)
Definition same_group {V W} (r : row V) (r' : row W) : bool :=
  String.eqb (Category r') (Category r)
  && String.eqb (Sub_category r') (Sub_category r).

(** The orientation [min_max_normalize] reads for the group of [r]: that of
    the first row of the group. *)
Definition group_is_cost {V} (data : DataFrame V) (r : row V) : bool :=
  String.eqb (lower (Cost_Benefit (hd r (filter (same_group r) data)))) "cost".

(** The value of the row [r] after normalisation, when [x] gives the parsed
    values of the rows. *)
Definition normalized_value {V} (data : DataFrame V) (x : row V -> R)
           (r : row V) : R :=
  let g := map x (filter (same_group r) data) in
  if Req_dec_T (Rmax_list g) (Rmin_list g) then 1%R
  else if group_is_cost data r
       then ((Rmax_list g - x r) / (Rmax_list g - Rmin_list g))%R
       else ((x r - Rmin_list g) / (Rmax_list g - Rmin_list g))%R.

(** The parsed value of a row, as a real number. *)
Definition parsed_value (to_numeric : string -> option xreal) (r : row string) : R :=
  fin_val match to_numeric (clean (Value r)) with
          | Some v => v
          | None => NaN
          end.

(** [df[criteria_type_col].str] can be read on every row: the column is one
    of the string columns of the data (or the argument is empty or absent,
    and the column is not read). *)
Definition readable_column {V} (criteria_type_col : option string)
           (norm_data : DataFrame V) : Prop :=
  match criteria_type_col with
  | None => True
  | Some col => String.eqb col "" = true
                \/ forall r, In r norm_data -> exists s, str_column col r = inr s
  end.


(** *** The scenarios of the sensitivity analysis *)

(** The weight a leaf gets in its plus and in its minus scenario. *)
Definition plus_weight {T} `{Numeric T} (delta orig_weight : scalar T) : scalar T :=
  scalar_mul orig_weight (scalar_add (PyFloat (of_Z 1)) delta).

Definition minus_weight {T} `{Numeric T} (delta orig_weight : scalar T) : scalar T :=
  scalar_mul orig_weight (scalar_sub (PyFloat (of_Z 1)) delta).

(** A Python float equal to zero: the divisor that raises. *)
Definition python_zero {T} `{Numeric T} (s : scalar T) : bool :=
  negb (is_numpy s) && eqb (scalar_value s) zero.

(** The weights of [category], once [sub_category] has the weight
    [new_weight], sum to a Python float equal to zero. *)
Definition zero_sum {T} `{Numeric T} (weights : dict (dict (scalar T)))
           (category sub_category : string) (new_weight : scalar T) : bool :=
  match dict_get weights category with
  | Some sub_dict =>
      python_zero (scalar_sum (dict_values (dict_set sub_dict sub_category new_weight)))
  | None => false
  end.

(** One of the two scenarios of a leaf divides by such a sum. *)
Definition leaf_divides_by_zero {T} `{Numeric T} (weights : dict (dict (scalar T)))
           (delta : scalar T) (leaf : string * string * scalar T) : bool :=
  zero_sum weights (fst (fst leaf)) (snd (fst leaf)) (plus_weight delta (snd leaf))
  || zero_sum weights (fst (fst leaf)) (snd (fst leaf)) (minus_weight delta (snd leaf)).

Definition divides_by_zero {T} `{Numeric T} (weights : dict (dict (scalar T)))
           (delta : scalar T) : bool :=
  existsb (leaf_divides_by_zero weights delta) (leaves weights).

(** The scores of one scenario: the weight of a leaf replaced, the weights
    of its category divided by their sum. *)
Definition scenario {T} `{Numeric T} (norm_data : DataFrame T)
           (weights : dict (dict (scalar T))) (category sub_category : string)
           (new_weight : scalar T) : result (Scores T) :=
  weights' <- perturb weights category sub_category new_weight ;;
  topsis norm_data (tree_values weights') None.

(** The loop body of [sensitivity_analysis] at a leaf of the weight tree. *)
Definition leaf_step {T} `{Numeric T} (norm_data : DataFrame T)
           (weights : dict (dict (scalar T))) (delta : scalar T)
           (results : dict (Scores T))
           (leaf : string * string * scalar T) : result (dict (Scores T)) :=
  sensitivity_step norm_data weights delta (fst (fst leaf)) results
                   (snd (fst leaf), snd leaf).

(** The two result keys of a leaf. *)
Definition leaf_keys {T} (leaf : string * string * T) : list string :=
  [result_key (fst (fst leaf)) (snd (fst leaf)) "plus";
   result_key (fst (fst leaf)) (snd (fst leaf)) "minus"].


(** Two regions of which the second has no observation of the jobs. *)
Definition partial_norm : DataFrame xreal :=
  [ mkrow "Region1" "Economy" "Income" (Fin 1) "Benefit";
    mkrow "Region1" "Economy" "Jobs" (Fin 1) "Benefit";
    mkrow "Region2" "Economy" "Income" (Fin 0) "Benefit" ]%string.

(** The row [r] counts as a cost criterion in [topsis]: the criteria-type
    column is given and says ["cost"] for [r], in any capitalisation. *)
Definition cost_under {V} (criteria_type_col : option string) (r : row V) : Prop :=
  exists col ctype,
    criteria_type_col = Some col
    /\ String.eqb col "" = false
    /\ str_column col r = inr ctype
    /\ String.eqb (lower ctype) "cost" = true.

(** * Properties *)

(** ** The code run on binary64 inputs *)

Module Binary64.
Import Scenario.
Local Open Scope string_scope.

(** C1 (the code at the failing input).  Two regions that are each best on
  one of two equally weighted criteria have the same raw closeness
  coefficient, 0.5; the rescaling step then divides 0 by 0 and [topsis]
  returns NaN, not 1.0, as the score of both regions. *)
Theorem topsis_equal_closeness_is_nan :
  exists s1 s2,
    closeness (pivot_table (map (add_weighted (T:=float) crossed_weights) crossed_norm))
    = [decimal 5 1; decimal 5 1]
    /\ eqb (nanmax [decimal 5 1; decimal 5 1]) (nanmin [decimal 5 1; decimal 5 1 : float])
       = true
    /\ topsis (T:=float) crossed_norm crossed_weights None
       = inr (scores_frame [("Region1", s1); ("Region2", s2)])
    /\ isnan s1 = true /\ isnan s2 = true
    /\ eqb s1 (of_Z 1) = false /\ eqb s2 (of_Z 1) = false.
Proof. exists nan, nan. repeat split; vm_compute; reflexivity. Qed.

(** C2 (counterexample).  The entries of [steep_matrix] are strictly
  positive and the matrix is exactly reciprocal, so that nothing is
  printed.  The products of its rows are +inf, 1 and 0: the first overflows
  binary64 and the last underflows.  Their powers 1/3 are +inf, 1 and 0,
  the sum of these is +inf, and [ahp_weights] returns the weights NaN, 0
  and 0, which do not sum to 1.0. *)
Lemma ahp_weights_overflow :
  forallb (forallb (fun a => ltb zero a && isfinite a))
          (values (steep_matrix (T:=float))) = true
  /\ values (steep_matrix (T:=float))
     = map (map (div one)) (transpose 3 (values steep_matrix))
  /\ map np_prod (values (steep_matrix (T:=float))) = [infinity; one; zero]
  /\ exists w,
       ahp_weights [("Economy", steep_matrix (T:=float))]
       = ([], inr [("Economy", [("Income", w); ("Jobs", zero); ("Roads", zero)])])
       /\ isnan w = true
       /\ leb zero w = false
       /\ isnan (py_sum [w; zero; zero]) = true.
Proof.
  split; [vm_compute; reflexivity|]. split; [vm_compute; reflexivity|].
  split; [vm_compute; reflexivity|].
  exists nan. repeat split; vm_compute; reflexivity.
Qed.


(** C9 (counterexample).  Region3 has the normalized value 0.5 for the
  benefit criterion Jobs, whose weight is 1e-8 beside 0.99999999 for Income.
  Raised to 0.7, with every other value and the weights as they were, it
  lowers the final score of Region3 from 0.67 to the next binary64 number
  below, 0.6699999999999999, with and without the criteria-type column. *)
Lemma topsis_score_decreases :
  exists s s',
    topsis (T:=float) (tilted_norm (decimal 5 1)) tilted_weights None
    = inr (scores_frame [("Region1", decimal 1 2); ("Region2", of_Z 1);
                         ("Region3", s)])
    /\ topsis (T:=float) (tilted_norm (decimal 7 1)) tilted_weights None
       = inr (scores_frame [("Region1", decimal 1 2); ("Region2", of_Z 1);
                            ("Region3", s')])
    /\ topsis (T:=float) (tilted_norm (decimal 5 1)) tilted_weights
              (Some "Cost/Benefit")
       = topsis (tilted_norm (decimal 5 1)) tilted_weights None
    /\ topsis (T:=float) (tilted_norm (decimal 7 1)) tilted_weights
              (Some "Cost/Benefit")
       = topsis (tilted_norm (decimal 7 1)) tilted_weights None
    /\ s = decimal 67 2
    /\ ltb s' s = true
    /\ ltb (decimal 5 1) (decimal 7 1 : float) = true
    /\ py_sum [decimal 99999999 8; decimal 1 8 : float] = of_Z 1.
Proof. do 2 eexists. repeat split; vm_compute; reflexivity. Qed.

(** C5 (counterexample).  With the criterion read as a benefit, [topsis]
  lists Region1 (score 0.01) before Region2 (score 1.0): the rows follow the
  region labels, not the descending scores, and the frame has no rank
  column. *)
Lemma topsis_rows_not_by_descending_score :
  exists s1 s2,
    topsis (T:=float) ascending_norm distance_weights None
    = inr (scores_frame [("Region1", s1); ("Region2", s2)])
    /\ ltb s1 s2 = true
    /\ ~ In "Rank" (score_columns (scores_frame [("Region1", s1); ("Region2", s2)])).
Proof.
  exists (decimal 1 2), (of_Z 1). split; [vm_compute; reflexivity|].
  split; [vm_compute; reflexivity|].
  simpl. intros [E|[E|[]]]; discriminate E.
Qed.

(** C6 (counterexample).  On the literal scenario the frame [topsis] returns
  has the two columns ["Region"] and ["TOPSIS Score"]: it yields no rank
  for Region1 or Region2. *)
Lemma distance_scenario_has_no_rank :
  exists out,
    topsis (T:=float) distance_norm distance_weights None = inr out
    /\ score_columns out = ["Region"; "TOPSIS Score"]
    /\ ~ In "Rank" (score_columns out).
Proof.
  eexists. split; [vm_compute; reflexivity|]. split; [reflexivity|].
  simpl. intros [E|[E|[]]]; discriminate E.
Qed.

(** C6 (amended).  On the literal scenario the normaliser yields 1.0 for
  Region1 and 0.0 for Region2; with the weight 1.0, [topsis] yields the
  score 1.0 for Region1 and 0.01 for Region2, and no rank; the rank step of
  the static visualisation gives these scores the ranks 1 and 2. *)
Theorem distance_scenario :
  min_max_normalize (T:=float) to_numeric_decimal distance_data = inr distance_norm
  /\ topsis (T:=float) distance_norm distance_weights None
     = inr (scores_frame [("Region1", of_Z 1); ("Region2", decimal 1 2)])
  /\ rank_scores (T:=float) [of_Z 1; decimal 1 2] = [Some 1%nat; Some 2%nat].
Proof. repeat split; vm_compute; reflexivity. Qed.

(** C7 (the code at the failing input).  The leaves (A, B_C) and (A_B, C)
  of a weight tree share the result keys ["A_B_C_plus"] and
  ["A_B_C_minus"]: the scores of the second leaf replace those of the first
  and, for these two leaf weights and delta = 0.1, the result holds 2
  entries, not 4, whether the weights are numpy floats or Python floats. *)
Theorem sensitivity_keys_collide :
  exists base results,
    sensitivity_analysis (T:=float) distance_norm (numpy_tree colliding_weights)
                         (PyFloat (decimal 1 1))
    = inr (base, results)
    /\ sensitivity_analysis (T:=float) distance_norm (python_tree colliding_weights)
                            (PyFloat (decimal 1 1))
       = inr (base, results)
    /\ List.length (leaves (numpy_tree (colliding_weights (T:=float)))) = 2%nat
    /\ dict_keys results = ["A_B_C_plus"; "A_B_C_minus"]
    /\ List.length results = 2%nat.
Proof. do 2 eexists. repeat split; vm_compute; reflexivity. Qed.


End Binary64.

(** ** Loops and dictionaries *)

Lemma dict_get_In {V} (d : dict V) (k : string) (v : V) :
  In (k, v) d -> exists v', dict_get d k = Some v'.
Proof.
  induction d as [|[k' v'] d IH]; simpl; [tauto|].
  intros [E|Hin].
  - inversion E; subst. rewrite String.eqb_refl. now exists v.
  - destruct (String.eqb k' k); [now exists v'|now apply IH].
Qed.

Lemma dict_get_NoDup {V} (d : dict V) (k : string) (v : V) :
  NoDup (dict_keys d) -> In (k, v) d -> dict_get d k = Some v.
Proof.
  induction d as [|[k' v'] d IH]; simpl; [tauto|].
  intros Hnd [E|Hin]; inversion Hnd as [|? ? Hnotin Hnd']; subst.
  - inversion E; subst. now rewrite String.eqb_refl.
  - destruct (String.eqb_spec k' k) as [->|Hne].
    + exfalso. apply Hnotin. unfold dict_keys.
      change k with (fst (k, v)). now apply in_map.
    + now apply IH.
Qed.

Lemma dict_get_set_same {V} (d : dict V) (k : string) (v : V) :
  dict_get (dict_set d k v) k = Some v.
Proof.
  induction d as [|[k' v'] d IH]; simpl.
  - now rewrite String.eqb_refl.
  - destruct (String.eqb_spec k' k) as [->|Hne]; simpl.
    + now rewrite String.eqb_refl.
    + destruct (String.eqb_spec k' k); [contradiction|assumption].
Qed.

Lemma dict_get_set_other {V} (d : dict V) (k k0 : string) (v : V) :
  k <> k0 -> dict_get (dict_set d k v) k0 = dict_get d k0.
Proof.
  intros Hne. induction d as [|[k' v'] d IH]; simpl.
  - destruct (String.eqb_spec k k0); [contradiction|reflexivity].
  - destruct (String.eqb_spec k' k) as [->|Hne']; simpl.
    + destruct (String.eqb_spec k k0); [contradiction|reflexivity].
    + destruct (String.eqb k' k0); [reflexivity|assumption].
Qed.

(** ** [ahp_weights] validates the shape of a frame and nothing else *)

Section AhpReturns.
Context {T : Type} `{Numeric T} `{Power T}.

Lemma ahp_sheet_returns (sheet_name : string) (df : Matrix T) :
  List.length (index df) = List.length (columns df) ->
  index df <> [] ->
  exists printed w, ahp_sheet sheet_name df = (printed, inr w).
Proof.
  intros Hsq Hne. unfold ahp_sheet. rewrite Hsq, Nat.eqb_refl. simpl negb.
  cbv iota. rewrite <- Hsq.
  destruct (index df) as [|i idx] eqn:Eidx; [contradiction|].
  simpl List.length. eauto.
Qed.

Lemma ahp_sheet_not_square (sheet_name : string) (df : Matrix T) :
  List.length (index df) <> List.length (columns df) ->
  exists msg, ahp_sheet sheet_name df = ([], inl (ValueError msg)).
Proof.
  intros Hsq. unfold ahp_sheet.
  destruct (Nat.eqb_spec (List.length (index df)) (List.length (columns df)));
    [contradiction|].
  simpl. eauto.
Qed.

Lemma ahp_loop_returns (sheets : dict (Matrix T)) :
  (forall name df, In (name, df) sheets ->
                   List.length (index df) = List.length (columns df)
                   /\ index df <> []) ->
  forall acc, exists printed fw, ahp_loop sheets acc = (printed, inr fw).
Proof.
  induction sheets as [|[name df] sheets IH]; intros Hall acc; simpl.
  - eauto.
  - destruct (Hall name df (or_introl eq_refl)) as [Hsq Hne].
    destruct (ahp_sheet_returns name df Hsq Hne) as [printed [w E]]. rewrite E.
    destruct (IH (fun n d Hin => Hall n d (or_intror Hin))
                 (dict_set acc name w)) as [printed' [fw E']].
    rewrite E'. eauto.
Qed.
Lemma ahp_loop_raises (sheets : dict (Matrix T)) :
  (forall name df, In (name, df) sheets -> index df <> []) ->
  (exists name df, In (name, df) sheets
                   /\ List.length (index df) <> List.length (columns df)) ->
  forall acc, exists printed msg, ahp_loop sheets acc = (printed, inl (ValueError msg)).
Proof.
  induction sheets as [|[name df] sheets IH]; intros Hne [n [d [Hin Hns]]] acc.
  - contradiction.
  - simpl.
    destruct (Nat.eq_dec (List.length (index df)) (List.length (columns df)))
      as [Hsq|Hsq].
    + destruct (ahp_sheet_returns name df Hsq (Hne name df (or_introl eq_refl)))
        as [printed [w E]].
      rewrite E.
      destruct Hin as [Ein|Hin]; [inversion Ein; subst; contradiction|].
      destruct (IH (fun n' d' H' => Hne n' d' (or_intror H'))
                   (ex_intro _ n (ex_intro _ d (conj Hin Hns)))
                   (dict_set acc name w)) as [printed' [msg E']].
      rewrite E'. eauto.
    + destruct (ahp_sheet_not_square name df Hsq) as [msg E]. rewrite E. eauto.
Qed.
End AhpReturns.

(** ** Exact arithmetic *)

Section Exact.
Local Open Scope R_scope.

Lemma add_Fin a b : add (Fin a) (Fin b) = Fin (a + b).
Proof. reflexivity. Qed.

Lemma sub_Fin a b : sub (Fin a) (Fin b) = Fin (a - b).
Proof. reflexivity. Qed.

Lemma mul_Fin a b : mul (Fin a) (Fin b) = Fin (a * b).
Proof. reflexivity. Qed.

Lemma div_Fin a b : b <> 0 -> div (Fin a) (Fin b) = Fin (a / b).
Proof. intros Hb. simpl. destruct (Req_dec_T b 0); [contradiction|reflexivity]. Qed.

Lemma div_Fin_0 a : div (Fin a) (Fin 0) = NaN.
Proof. simpl. destruct (Req_dec_T 0 0); [reflexivity|contradiction]. Qed.

Lemma sqrt_Fin a : 0 <= a -> sqrt (Fin a) = Fin (R_sqrt.sqrt a).
Proof. intros Ha. simpl. destruct (Rlt_dec a 0); [lra|reflexivity]. Qed.

Lemma eqb_Fin a b : eqb (Fin a) (Fin b) = true <-> a = b.
Proof. simpl. destruct (Req_dec_T a b); split; congruence. Qed.

Lemma eqb_Fin_false a b : eqb (Fin a) (Fin b) = false <-> a <> b.
Proof. simpl. destruct (Req_dec_T a b); split; congruence. Qed.

Lemma notnan_Fin a : notnan (Fin a) = true.
Proof. unfold notnan. now apply eqb_Fin. Qed.

Lemma zero_Fin : zero = Fin 0.
Proof. reflexivity. Qed.

Lemma one_Fin : one = Fin 1.
Proof. reflexivity. Qed.

Lemma pow_Fin a b : 0 < a -> pow (Fin a) (Fin b) = Fin (Rpower a b).
Proof. intros Ha. simpl. destruct (Rlt_dec 0 a); [reflexivity|contradiction]. Qed.

Lemma filter_notnan_Fin (l : list R) : filter notnan (map Fin l) = map Fin l.
Proof.
  induction l as [|x l IH]; [reflexivity|].
  cbn [map filter]. now rewrite notnan_Fin, IH.
Qed.

Lemma fold_add_Fin (l : list R) (a : R) :
  fold_left add (map Fin l) (Fin a) = Fin (a + Rsum l).
Proof.
  revert a. induction l as [|x l IH]; intros a; cbn [map fold_left Rsum].
  - f_equal. lra.
  - rewrite add_Fin, IH. f_equal. lra.
Qed.

Lemma py_sum_Fin (l : list R) : py_sum (map Fin l) = Fin (Rsum l).
Proof. unfold py_sum. rewrite zero_Fin, fold_add_Fin. f_equal. lra. Qed.

Lemma nansum_Fin (l : list R) : nansum (map Fin l) = Fin (Rsum l).
Proof. unfold nansum. rewrite filter_notnan_Fin. apply py_sum_Fin. Qed.

Lemma fold_mul_Fin (l : list R) (a : R) :
  fold_left mul (map Fin l) (Fin a) = Fin (a * Rprod l).
Proof.
  revert a. induction l as [|x l IH]; intros a; cbn [map fold_left Rprod].
  - f_equal. lra.
  - rewrite mul_Fin, IH. f_equal. lra.
Qed.

Lemma np_prod_Fin (l : list R) : np_prod (map Fin l) = Fin (Rprod l).
Proof. unfold np_prod. rewrite one_Fin, fold_mul_Fin. f_equal. lra. Qed.

Lemma fold_max_Fin (l : list R) (a : R) :
  fold_left (fun x y => if ltb x y then y else x) (map Fin l) (Fin a)
  = Fin (fold_left Rmax l a).
Proof.
  revert a. induction l as [|x l IH]; intros a; cbn [map fold_left]; [reflexivity|].
  replace (if ltb (Fin a) (Fin x) then Fin x else Fin a) with (Fin (Rmax a x)).
  - apply IH.
  - simpl. unfold Rmax. destruct (Rlt_dec a x), (Rle_dec a x); f_equal; lra.
Qed.

Lemma fold_min_Fin (l : list R) (a : R) :
  fold_left (fun x y => if ltb y x then y else x) (map Fin l) (Fin a)
  = Fin (fold_left Rmin l a).
Proof.
  revert a. induction l as [|x l IH]; intros a; cbn [map fold_left]; [reflexivity|].
  replace (if ltb (Fin x) (Fin a) then Fin x else Fin a) with (Fin (Rmin a x)).
  - apply IH.
  - simpl. unfold Rmin. destruct (Rlt_dec x a), (Rle_dec a x); f_equal; lra.
Qed.

Lemma nanmax_Fin (x : R) (l : list R) :
  nanmax (map Fin (x :: l)) = Fin (Rmaxl x l).
Proof.
  unfold nanmax. rewrite filter_notnan_Fin. cbn [map]. apply fold_max_Fin.
Qed.

Lemma nanmin_Fin (x : R) (l : list R) :
  nanmin (map Fin (x :: l)) = Fin (Rminl x l).
Proof.
  unfold nanmin. rewrite filter_notnan_Fin. cbn [map]. apply fold_min_Fin.
Qed.

(** The maximum bounds the list and is one of its elements. *)
Lemma Rmaxl_ge (l : list R) (x : R) :
  x <= Rmaxl x l /\ forall y, In y l -> y <= Rmaxl x l.
Proof.
  unfold Rmaxl. revert x. induction l as [|z l IH]; intros x; cbn [fold_left].
  - split; [lra|intros y []].
  - destruct (IH (Rmax x z)) as [H1 H2]. split.
    + pose proof (Rmax_l x z). lra.
    + intros y [->|Hy]; [|now apply H2]. pose proof (Rmax_r x y). lra.
Qed.

Lemma Rmaxl_In (l : list R) (x : R) : In (Rmaxl x l) (x :: l).
Proof.
  unfold Rmaxl. revert x. induction l as [|z l IH]; intros x; cbn [fold_left].
  - now left.
  - destruct (IH (Rmax x z)) as [E|Hin].
    + unfold Rmax in E at 1. destruct (Rle_dec x z).
      * right. left. exact E.
      * left. exact E.
    + right. right. exact Hin.
Qed.

Lemma Rminl_le (l : list R) (x : R) :
  Rminl x l <= x /\ forall y, In y l -> Rminl x l <= y.
Proof.
  unfold Rminl. revert x. induction l as [|z l IH]; intros x; cbn [fold_left].
  - split; [lra|intros y []].
  - destruct (IH (Rmin x z)) as [H1 H2]. split.
    + pose proof (Rmin_l x z). lra.
    + intros y [->|Hy]; [|now apply H2]. pose proof (Rmin_r x y). lra.
Qed.

Lemma Rminl_In (l : list R) (x : R) : In (Rminl x l) (x :: l).
Proof.
  unfold Rminl. revert x. induction l as [|z l IH]; intros x; cbn [fold_left].
  - now left.
  - destruct (IH (Rmin x z)) as [E|Hin].
    + unfold Rmin in E at 1. destruct (Rle_dec x z).
      * left. exact E.
      * right. left. exact E.
    + right. right. exact Hin.
Qed.
End Exact.

(** ** [ahp_weights] in exact arithmetic *)

Section AhpExact.
Local Open Scope R_scope.

Lemma list_eqb_eq (a b : list string) : list_eqb a b = true -> a = b.
Proof.
  unfold list_eqb. rewrite andb_true_iff, Nat.eqb_eq.
  revert b. induction a as [|x a IH]; intros [|y b] [Hlen Hall]; try discriminate.
  - reflexivity.
  - simpl in Hall. rewrite andb_true_iff, String.eqb_eq in Hall.
    destruct Hall as [-> Hall]. f_equal. apply IH. split; [now inversion Hlen|exact Hall].
Qed.

Lemma dict_zip_fold {V} (ks : list string) (vs : list V) (acc : dict V) :
  NoDup ks -> (forall k, In k ks -> ~ In k (dict_keys acc)) ->
  fold_left (fun d kv => dict_set d (fst kv) (snd kv)) (combine ks vs) acc
  = acc ++ combine ks vs.
Proof.
  revert vs acc. induction ks as [|k ks IH]; intros vs acc Hnd Hfresh.
  - simpl. now rewrite app_nil_r.
  - destruct vs as [|v vs]; [simpl; now rewrite app_nil_r|].
    inversion Hnd as [|? ? Hk Hnd']; subst. cbn [combine fold_left fst snd].
    assert (Hset : dict_set acc k v = acc ++ [(k, v)]).
    { clear - Hfresh. specialize (Hfresh k (or_introl eq_refl)).
      induction acc as [|[k' v'] acc IHa]; [reflexivity|].
      simpl. destruct (String.eqb_spec k' k) as [->|Hne].
      - exfalso. apply Hfresh. now left.
      - f_equal. apply IHa. intros Hin. apply Hfresh. now right. }
    rewrite Hset, IH; [now rewrite <- app_assoc| assumption |].
    intros k0 Hk0. unfold dict_keys. rewrite map_app, in_app_iff. simpl.
    intros [Hin|[E|[]]].
    + apply (Hfresh k0 (or_intror Hk0) Hin).
    + subst. contradiction.
Qed.

Lemma dict_zip_NoDup {V} (ks : list string) (vs : list V) :
  NoDup ks -> dict_zip ks vs = combine ks vs.
Proof.
  intros Hnd. unfold dict_zip. rewrite dict_zip_fold; [reflexivity|assumption|].
  intros k _ [].
Qed.

Lemma Rsum_pos (l : list R) : Forall (fun g => 0 < g) l -> l <> [] -> 0 < Rsum l.
Proof.
  intros Hall Hne. destruct l as [|x l]; [contradiction|].
  inversion Hall as [|? ? Hx Hl]; subst. clear Hall Hne. simpl.
  assert (0 <= Rsum l); [|lra].
  induction Hl as [|y l Hy Hl IH]; simpl; lra.
Qed.

Lemma Rsum_map_div (l : list R) (s : R) :
  Rsum (map (fun g => g / s) l) = Rsum l / s.
Proof. induction l as [|x l IH]; simpl; [lra|rewrite IH; lra]. Qed.

Lemma Rprod_pos (r : list R) : Forall (fun a => 0 < a) r -> 0 < Rprod r.
Proof.
  induction 1 as [|a r Ha Hr IH]; simpl; [lra|].
  now apply Rmult_lt_0_compat.
Qed.

Lemma ahp_sheet_exact (sheet_name : string) (df : Matrix xreal)
      (rows : list (list R)) :
  List.length (index df) = List.length (columns df) ->
  rows <> [] ->
  List.length rows = List.length (index df) ->
  values df = map (map Fin) rows ->
  Forall (fun r => 0 < Rprod r) rows ->
  snd (ahp_sheet sheet_name df)
  = inr (dict_zip (columns df)
                  (map Fin (sheet_weights (List.length (index df)) rows))).
Proof.
  intros Hsq Hne Hlen Hval Hpos. unfold ahp_sheet.
  rewrite Hsq, Nat.eqb_refl. cbn [negb]. cbv iota. rewrite <- Hsq.
  assert (Elab : (if negb (list_eqb (index df) (columns df))
                  then columns df else index df) = columns df).
  { destruct (list_eqb (index df) (columns df)) eqn:E; [|reflexivity].
    simpl. now apply list_eqb_eq. }
  rewrite Elab.
  destruct (List.length (index df)) as [|k] eqn:En.
  { destruct rows; [contradiction|discriminate]. }
  cbn [snd]. unfold ret. do 2 f_equal.
  assert (HSk : IZR (Z.of_nat (S k)) <> 0).
  { apply not_0_IZR. lia. }
  change (of_Z 1) with (Fin 1). change (of_Z (Z.of_nat (S k))) with (Fin (IZR (Z.of_nat (S k)))).
  rewrite (div_Fin 1 HSk). rewrite Hval.
  unfold sheet_weights. cbv zeta.
  set (e := 1 / IZR (Z.of_nat (S k))).
  assert (Eg : map (fun r => pow (np_prod r) (Fin e)) (map (map Fin) rows)
               = map Fin (map (fun r => Rpower (Rprod r) e) rows)).
  { rewrite !map_map. apply map_ext_in. intros r Hr.
    rewrite np_prod_Fin. apply pow_Fin.
    rewrite Forall_forall in Hpos. now apply Hpos. }
  rewrite Eg. set (gs := map (fun r => Rpower (Rprod r) e) rows).
  rewrite py_sum_Fin, !map_map. apply map_ext_in. intros g Hg.
  apply div_Fin. apply Rgt_not_eq. apply Rsum_pos.
  - apply Forall_forall. intros x Hx. unfold gs in Hx. apply in_map_iff in Hx.
    destruct Hx as [r [<- _]]. unfold Rpower. apply exp_pos.
  - unfold gs. destruct rows; [contradiction|discriminate].
Qed.
End AhpExact.

Section AhpClaims.
Local Open Scope R_scope.

Lemma sheet_weights_pos (n : nat) (rows : list (list R)) :
  rows <> [] -> Forall (fun w => 0 < w) (sheet_weights n rows).
Proof.
  intros Hne. unfold sheet_weights. cbv zeta.
  set (gs := map _ rows).
  assert (Hgs : Forall (fun g => 0 < g) gs).
  { apply Forall_forall. intros g Hg. apply in_map_iff in Hg.
    destruct Hg as [r [<- _]]. apply exp_pos. }
  assert (Hs : 0 < Rsum gs).
  { apply Rsum_pos; [assumption|]. unfold gs. destruct rows; [contradiction|discriminate]. }
  apply Forall_forall. intros w Hw. apply in_map_iff in Hw.
  destruct Hw as [g [<- Hg]]. rewrite Forall_forall in Hgs.
  apply Rdiv_lt_0_compat; auto.
Qed.

Lemma sheet_weights_sum (n : nat) (rows : list (list R)) :
  rows <> [] -> Rsum (sheet_weights n rows) = 1.
Proof.
  intros Hne. unfold sheet_weights. cbv zeta.
  set (gs := map _ rows). rewrite Rsum_map_div.
  assert (Hs : 0 < Rsum gs).
  { apply Rsum_pos.
    - apply Forall_forall. intros g Hg. apply in_map_iff in Hg.
      destruct Hg as [r [<- _]]. apply exp_pos.
    - unfold gs. destruct rows; [contradiction|discriminate]. }
  field. lra.
Qed.

Lemma sheet_weights_length (n : nat) (rows : list (list R)) :
  List.length (sheet_weights n rows) = List.length rows.
Proof. unfold sheet_weights. now rewrite !length_map. Qed.

Lemma sheet_weights_single (n : nat) (r : list R) : sheet_weights n [r] = [1].
Proof.
  unfold sheet_weights. cbn [map Rsum]. f_equal.
  assert (0 < Rpower (Rprod r) (1 / IZR (Z.of_nat n))) by apply exp_pos.
  field. lra.
Qed.

Lemma ahp_loop_get {T} `{Numeric T} `{Power T} (sheets : dict (Matrix T)) :
  NoDup (dict_keys sheets) ->
  forall acc printed fw,
    ahp_loop sheets acc = (printed, inr fw) ->
    (forall name df, In (name, df) sheets ->
       exists w, snd (ahp_sheet name df) = inr w /\ dict_get fw name = Some w)
    /\ (forall name, ~ In name (dict_keys sheets) ->
                     dict_get fw name = dict_get acc name).
Proof.
  induction sheets as [|[name0 df0] sheets IH]; intros Hnd acc printed fw E.
  - simpl in E. inversion E; subst. split; [intros ? ? []|reflexivity].
  - inversion Hnd as [|? ? Hfresh Hnd']; subst. simpl in E.
    destruct (ahp_sheet name0 df0) as [p0 [e|w0]] eqn:E0; [discriminate|].
    destruct (ahp_loop sheets (dict_set acc name0 w0)) as [p1 r1] eqn:E1.
    inversion E; subst. destruct (IH Hnd' _ _ _ E1) as [IH1 IH2]. split.
    + intros name df [Ein|Hin].
      * inversion Ein; subst. exists w0. rewrite E0. split; [reflexivity|].
        rewrite (IH2 name Hfresh). apply dict_get_set_same.
      * now apply IH1.
    + intros name Hnotin. rewrite IH2.
      * apply dict_get_set_other. intros ->. apply Hnotin. now left.
      * intros Hin. apply Hnotin. now right.
Qed.

(** C2 (amended).  In exact arithmetic, where no product overflows or
  underflows: for named pairwise comparison matrices with strictly positive
  entries (reciprocal or not), [ahp_weights] returns for each matrix one
  weight per item; the weights are non-negative and their sum is 1.0 within
  1e-9 (it is 1 exactly); a single-item matrix gets the weight 1.0. *)
Theorem ahp_weights_normalised (weights_dict : dict (Matrix xreal)) :
  NoDup (dict_keys weights_dict) ->
  (forall name df, In (name, df) weights_dict -> exists rows, positive_matrix df rows) ->
  exists printed final_weights,
    ahp_weights weights_dict = (printed, inr final_weights)
    /\ forall name df, In (name, df) weights_dict ->
         exists ws,
           dict_get final_weights name = Some (combine (columns df) (map Fin ws))
           /\ List.length ws = List.length (columns df)
           /\ Forall (fun w => 0 <= w) ws
           /\ py_sum (map Fin ws) = Fin (Rsum ws)
           /\ Rabs (Rsum ws - 1) <= 1 / 10 ^ 9
           /\ (List.length (columns df) = 1%nat -> ws = [1]).
Proof.
  intros Hnd Hpos.
  destruct (@ahp_loop_returns xreal _ _ weights_dict) with (acc := @nil (string * dict xreal))
    as [printed [fw E]].
  { intros name df Hin. destruct (Hpos name df Hin) as [rows [_ [Hc [Hsq _]]]].
    split; [exact Hsq|]. intros Hi. rewrite Hi in Hsq. destruct (columns df); [contradiction|discriminate]. }
  exists printed, fw. split; [exact E|].
  intros name df Hin.
  pose proof (ahp_loop_get weights_dict Hnd) as G.
  destruct (G _ _ _ E) as [Hget _]. clear G.
  destruct (Hget name df Hin) as [w [Ew Eget]].
  destruct (Hpos name df Hin) as [rows [HndC [HneC [Hsq [Hlen [Hval Hall]]]]]].
  assert (Hrows : rows <> []).
  { intros ->. simpl in Hlen. rewrite <- Hlen in Hsq. destruct (columns df); [contradiction|discriminate]. }
  rewrite (@ahp_sheet_exact name df rows Hsq Hrows Hlen Hval) in Ew.
  2:{ apply Forall_forall. intros r Hr. apply Rprod_pos.
      rewrite Forall_forall in Hall. now apply Hall. }
  inversion Ew; subst w. clear Ew.
  exists (sheet_weights (List.length (index df)) rows).
  rewrite dict_zip_NoDup in Eget by assumption.
  split; [exact Eget|]. split.
  { rewrite sheet_weights_length. congruence. }
  split.
  { eapply Forall_impl; [|apply sheet_weights_pos; assumption]. simpl. intros; lra. }
  split; [apply py_sum_Fin|]. split.
  { rewrite sheet_weights_sum by assumption. rewrite Rminus_diag, Rabs_R0.
    apply Rlt_le. apply Rdiv_lt_0_compat; [lra|]. apply pow_lt. lra. }
  intros H1. destruct rows as [|r [|r' rows]]; [contradiction| |].
  - apply sheet_weights_single.
  - simpl in Hlen. rewrite Hsq, H1 in Hlen. discriminate.
Qed.

Import Scenario.

Lemma saaty_matrix_positive : positive_matrix saaty_matrix saaty_rows.
Proof.
  unfold positive_matrix, saaty_matrix, saaty_rows. simpl.
  split.
  { repeat constructor; simpl; intros H; repeat destruct H as [H|H]; try discriminate H; exact H. }
  split; [discriminate|]. split; [reflexivity|]. split; [reflexivity|].
  split; [reflexivity|].
  repeat constructor; lra.
Qed.

Lemma ahp_weights_normalised_witness :
  exists printed final_weights,
    ahp_weights [("Economy"%string, saaty_matrix)] = (printed, inr final_weights)
    /\ forall name df, In (name, df) [("Economy"%string, saaty_matrix)] ->
         exists ws,
           dict_get final_weights name = Some (combine (columns df) (map Fin ws))
           /\ List.length ws = List.length (columns df)
           /\ Forall (fun w => 0 <= w) ws
           /\ py_sum (map Fin ws) = Fin (Rsum ws)
           /\ Rabs (Rsum ws - 1) <= 1 / 10 ^ 9
           /\ (List.length (columns df) = 1%nat -> ws = [1]).
Proof.
  apply ahp_weights_normalised.
  - repeat constructor. simpl. tauto.
  - intros name df [E|[]]. inversion E; subst. exists saaty_rows.
    apply saaty_matrix_positive.
Defined.
End AhpClaims.

Section AhpDomain.
Import Scenario.
Local Open Scope R_scope.

Lemma Rpower_base_1 (y : R) : Rpower 1 y = 1.
Proof. unfold Rpower. rewrite ln_1, Rmult_0_r. apply exp_0. Qed.

(** C3 (counterexample).  Every entry of the matrix is -1, yet [ahp_weights]
  raises nothing: the row products are 1 and it returns the weights 1/2 and
  1/2. *)
Lemma ahp_weights_accepts_negative_entries :
  values (negative_matrix (T:=xreal)) = map (map Fin) [[0 - 1; 0 - 1]; [0 - 1; 0 - 1]]
  /\ snd (ahp_weights [("Economy"%string, negative_matrix (T:=xreal))])
     = inr [("Economy"%string,
             [("Income"%string, Fin (1 / 2)); ("Jobs"%string, Fin (1 / 2))])].
Proof.
  split; [reflexivity|].
  pose proof (@ahp_sheet_exact "Economy" negative_matrix
                [[0 - 1; 0 - 1]; [0 - 1; 0 - 1]] eq_refl) as E.
  assert (Hp : Rprod [0 - 1; 0 - 1] = 1) by (simpl; lra).
  specialize (E ltac:(discriminate) eq_refl eq_refl).
  assert (Hpos : Forall (fun r => 0 < Rprod r) [[0 - 1; 0 - 1]; [0 - 1; 0 - 1]])
    by (repeat constructor; rewrite Hp; lra).
  specialize (E Hpos). clear Hpos.
  unfold ahp_weights, ahp_loop.
  destruct (ahp_sheet "Economy" negative_matrix) as [p [e|w]] eqn:E0;
    simpl in E |- *; [discriminate|].
  inversion E; subst w. unfold ret. do 2 f_equal.
  assert (Hp' : (0 - 1) * ((0 - 1) * 1) = 1) by lra.
  rewrite !Hp', !Rpower_base_1. rewrite dict_zip_NoDup.
  - cbn [combine]. replace (1 / (1 + (1 + 0))) with (1 / 2) by lra. reflexivity.
  - repeat constructor; simpl; intros H; repeat destruct H as [H|H]; try discriminate H; exact H.
Qed.

End AhpDomain.

(** C3 (amended).  [ahp_weights] checks the shape of each frame and not the
    sign of its entries.  Over non-empty frames: when every frame is square
    it returns a weight mapping, whatever the entries are; when some frame is
    not square it raises a [ValueError]. *)
Theorem ahp_weights_checks_shape_only {T : Type} `{Numeric T} `{Power T}
        (weights_dict : dict (Matrix T)) :
  (forall name df, In (name, df) weights_dict -> index df <> []) ->
  ((forall name df, In (name, df) weights_dict ->
                    List.length (index df) = List.length (columns df)) ->
   exists printed final_weights,
     ahp_weights weights_dict = (printed, inr final_weights))
  /\ ((exists name df, In (name, df) weights_dict
                       /\ List.length (index df) <> List.length (columns df)) ->
      exists printed msg,
        ahp_weights weights_dict = (printed, inl (ValueError msg))).
Proof.
  intros Hne. split.
  - intros Hsq. apply ahp_loop_returns. intros name df Hin.
    split; [exact (Hsq name df Hin)|exact (Hne name df Hin)].
  - intros Hns. now apply ahp_loop_raises.
Qed.

Lemma ahp_weights_checks_shape_only_witness :
  (forall name df, In (name, df) [("Economy"%string, Scenario.negative_matrix (T:=xreal))] ->
                   index df <> [])
  /\ exists printed final_weights,
       ahp_weights [("Economy"%string, Scenario.negative_matrix (T:=xreal))]
       = (printed, inr final_weights).
Proof.
  assert (Hne : forall name df,
             In (name, df) [("Economy"%string, Scenario.negative_matrix (T:=xreal))] ->
             index df <> []).
  { intros name df [E|[]]. inversion E; subst. discriminate. }
  split; [exact Hne|].
  destruct (ahp_weights_checks_shape_only
              [("Economy"%string, Scenario.negative_matrix (T:=xreal))] Hne)
    as [Hret _].
  apply Hret. intros name df [E|[]]. inversion E; subst. reflexivity.
Defined.

(** ** [sensitivity_analysis]: the scores and the keys of a scenario *)

Section SensitivityLoop.
Context {T : Type} `{Numeric T}.

Lemma topsis_None (norm_data : DataFrame T) (weights : dict (dict T)) :
  topsis norm_data weights None
  = inr (mkScores ["Region"; "TOPSIS Score"]%string
           (combine (pivot_index (pivot_table (map (add_weighted weights) norm_data)))
                    (rescale (closeness
                                (pivot_table (map (add_weighted weights) norm_data)))))).
Proof. reflexivity. Qed.

Lemma dict_keys_set {V} (d : dict V) (k : string) (v : V) :
  dict_keys (dict_set d k v) = add_key (dict_keys d) k.
Proof.
  unfold add_key. induction d as [|[k' v'] d IH]; [reflexivity|].
  simpl. rewrite (String.eqb_sym k k').
  destruct (String.eqb k' k); simpl; [reflexivity|].
  rewrite IH. now destruct (existsb (String.eqb k) (dict_keys d)).
Qed.
End SensitivityLoop.

(** ** The result keys *)

Section Keys.
Lemma existsb_eqb_In (k : string) (l : list string) :
  existsb (String.eqb k) l = true <-> In k l.
Proof.
  rewrite existsb_exists. split.
  - intros [x [Hx E]]. apply String.eqb_eq in E. now subst.
  - intros Hin. exists k. split; [assumption|apply String.eqb_refl].
Qed.

Lemma add_key_length (ks acc : list string) :
  (List.length (fold_left add_key ks acc) <= List.length acc + List.length ks)%nat.
Proof.
  revert acc. induction ks as [|k ks IH]; intros acc; cbn [fold_left List.length].
  - lia.
  - specialize (IH (add_key acc k)). unfold add_key in *.
    destruct (existsb (String.eqb k) acc); [lia|].
    rewrite length_app in IH. simpl in IH. lia.
Qed.

Lemma add_key_NoDup (ks acc : list string) :
  NoDup (acc ++ ks) -> fold_left add_key ks acc = acc ++ ks.
Proof.
  revert acc. induction ks as [|k ks IH]; intros acc Hnd; cbn [fold_left].
  - now rewrite app_nil_r.
  - assert (Hk : ~ In k acc).
    { apply NoDup_remove_2 in Hnd. intros Hin. apply Hnd.
      apply in_or_app. now left. }
    unfold add_key at 2.
    destruct (existsb (String.eqb k) acc) eqn:E.
    + apply existsb_eqb_In in E. contradiction.
    + rewrite IH; rewrite <- app_assoc; [reflexivity|exact Hnd].
Qed.

Lemma chars_append (s t : string) : chars (s ++ t) = chars s ++ chars t.
Proof. induction s as [|c s IH]; simpl; [reflexivity|now rewrite IH]. Qed.

Lemma chars_inj (s t : string) : chars s = chars t -> s = t.
Proof.
  revert t. induction s as [|c s IH]; intros [|d t] E; try discriminate; [reflexivity|].
  inversion E; subst. f_equal. now apply IH.
Qed.

Lemma append_assoc (s t u : string) : ((s ++ t) ++ u = s ++ (t ++ u))%string.
Proof. induction s as [|c s IH]; simpl; [reflexivity|now rewrite IH]. Qed.

Lemma append_inv_tail (s1 s2 t : string) :
  (s1 ++ t = s2 ++ t)%string -> s1 = s2.
Proof.
  intros E. apply chars_inj. apply (f_equal chars) in E.
  rewrite !chars_append in E. now apply app_inv_tail in E.
Qed.

Lemma plus_minus_differ (s1 s2 : string) :
  (s1 ++ "_plus" <> s2 ++ "_minus")%string.
Proof.
  intros E. apply (f_equal chars) in E. rewrite !chars_append in E.
  apply (f_equal (@rev ascii)) in E. rewrite !rev_app_distr in E.
  simpl in E. discriminate E.
Qed.

Lemma result_key_leaf_name {T} (leaf : string * string * T) (dir : string) :
  result_key (fst (fst leaf)) (snd (fst leaf)) dir
  = (leaf_name leaf ++ ("_" ++ dir))%string.
Proof. unfold result_key, leaf_name. now rewrite append_assoc. Qed.

Lemma result_keys_NoDup {T} (weights : dict (dict T)) :
  NoDup (map (@leaf_name T) (leaves weights)) -> NoDup (result_keys weights).
Proof.
  unfold result_keys. induction (leaves weights) as [|leaf ls IH]; intros Hnd.
  - constructor.
  - cbn [map List.concat app]. inversion Hnd as [|? ? Hfresh Hnd']; subst.
    rewrite !result_key_leaf_name.
    assert (Hrest : forall dir k,
               In k (List.concat
                       (map (fun leaf0 : string * string * T =>
                               [result_key (fst (fst leaf0)) (snd (fst leaf0)) "plus";
                                result_key (fst (fst leaf0)) (snd (fst leaf0)) "minus"])
                            ls)) ->
               (dir = "plus" \/ dir = "minus")%string ->
               k <> (leaf_name leaf ++ ("_" ++ dir))%string).
    { intros dir k Hk Hdir E. apply in_concat in Hk. destruct Hk as [ks [Hks Hk]].
      apply in_map_iff in Hks. destruct Hks as [leaf' [<- Hleaf']].
      rewrite !result_key_leaf_name in Hk.
      assert (Hne : leaf_name leaf' <> leaf_name leaf).
      { intros En. apply Hfresh. rewrite <- En. now apply in_map. }
      destruct Hk as [Hk|[Hk|[]]], Hdir as [-> | ->]; subst k.
      - apply append_inv_tail in E. contradiction.
      - now apply plus_minus_differ in E.
      - symmetry in E. now apply plus_minus_differ in E.
      - apply append_inv_tail in E. contradiction. }
    constructor.
    + intros [E|Hin].
      * symmetry in E. now apply plus_minus_differ in E.
      * apply (Hrest "plus"%string _ Hin); [now left|reflexivity].
    + constructor; [|now apply IH].
      intros Hin. apply (Hrest "minus"%string _ Hin); [now right|reflexivity].
Qed.

Lemma result_keys_length {T} (weights : dict (dict T)) :
  List.length (result_keys weights) = (2 * List.length (leaves weights))%nat.
Proof.
  unfold result_keys. induction (leaves weights) as [|leaf ls IH]; [reflexivity|].
  cbn [map List.concat app List.length]. rewrite IH. lia.
Qed.
End Keys.

(** ** The weights of a category in exact arithmetic *)

Section PerturbExact.
Local Open Scope R_scope.

Lemma dict_set_values_exact (sd : dict xreal) (ws : list R) (k : string) (w x : R) :
  dict_values sd = map Fin ws ->
  dict_get sd k = Some (Fin w) ->
  exists ws',
    dict_values (dict_set sd k (Fin x)) = map Fin ws'
    /\ Rsum ws' = Rsum ws - w + x
    /\ dict_keys (dict_set sd k (Fin x)) = dict_keys sd.
Proof.
  revert ws. induction sd as [|[k' v'] sd IH]; intros ws Hv Hg; [discriminate|].
  destruct ws as [|w0 ws]; [discriminate|].
  simpl in Hv. inversion Hv as [[Ev Hv']]. subst v'.
  simpl in Hg |- *. destruct (String.eqb k' k).
  - inversion Hg; subst w0. exists (x :: ws). simpl. rewrite Hv'.
    repeat split. lra.
  - destruct (IH ws Hv' Hg) as [ws' [E1 [E2 E3]]].
    exists (w0 :: ws'). simpl. unfold dict_values, dict_keys in *.
    rewrite E1, E3. repeat split. lra.
Qed.

Lemma map_div_values (sd : dict xreal) (ws : list R) (total : R) :
  dict_values sd = map Fin ws -> total <> 0 ->
  dict_values (map (fun kv => (fst kv, div (snd kv) (Fin total))) sd)
  = map Fin (map (fun w => w / total) ws).
Proof.
  revert ws. induction sd as [|[k v] sd IH]; intros [|w ws] Hv Ht; try discriminate.
  - reflexivity.
  - simpl in Hv. inversion Hv as [[Ev Hv']]. subst v. simpl.
    destruct (Req_dec_T total 0); [contradiction|].
    f_equal. now apply IH.
Qed.

Lemma leaves_In {T} (weights : dict (dict T)) (cat sub_cat : string) (w : T) :
  In (cat, sub_cat, w) (leaves weights) <->
  exists sd, In (cat, sd) weights /\ In (sub_cat, w) sd.
Proof.
  unfold leaves. rewrite in_concat. split.
  - intros [l [Hl Hin]]. apply in_map_iff in Hl. destruct Hl as [[c sd] [<- Hc]].
    apply in_map_iff in Hin. destruct Hin as [[s v] [E Hs]].
    simpl in E. inversion E; subst. now exists sd.
  - intros [sd [Hc Hs]].
    exists (map (fun sw => (cat, fst sw, snd sw)) sd). split.
    + apply in_map_iff. now exists (cat, sd).
    + apply in_map_iff. now exists (sub_cat, w).
Qed.

End PerturbExact.

(** ** The axes of the pivot table *)

Section SortedKeysFacts.
Variable K : Type.
Variable cmp : K -> K -> comparison.
Hypothesis cmp_eq : forall a b, cmp a b = Eq -> a = b.
Hypothesis cmp_antisym : forall a b, cmp a b = CompOpp (cmp b a).
Hypothesis cmp_trans : forall a b c, cmp a b = Lt -> cmp b c = Lt -> cmp a c = Lt.

Lemma insert_key_In (k y : K) (l : list K) :
  In y (insert_key cmp k l) <-> y = k \/ In y l.
Proof.
  induction l as [|x l IH]; simpl.
  - intuition.
  - destruct (cmp k x) eqn:E; simpl.
    + apply cmp_eq in E. subst. intuition.
    + intuition.
    + rewrite IH. intuition.
Qed.

Lemma sorted_keys_In (y : K) (l : list K) : In y (sorted_keys cmp l) <-> In y l.
Proof.
  induction l as [|x l IH]; simpl; [tauto|].
  rewrite insert_key_In, IH. intuition.
Qed.

Lemma insert_key_sorted (k : K) (l : list K) :
  StronglySorted (fun a b => cmp a b = Lt) l ->
  StronglySorted (fun a b => cmp a b = Lt) (insert_key cmp k l).
Proof.
  induction 1 as [|x l Hs IH Hx]; simpl.
  - repeat constructor.
  - destruct (cmp k x) eqn:E.
    + now constructor.
    + constructor; [now constructor|]. constructor; [exact E|].
      rewrite Forall_forall in Hx |- *. intros y Hy. eapply cmp_trans; eauto.
    + constructor; [exact IH|]. rewrite Forall_forall in Hx |- *.
      intros y Hy. apply insert_key_In in Hy. destruct Hy as [->|Hy]; [|auto].
      rewrite cmp_antisym, E. reflexivity.
Qed.

Lemma sorted_keys_sorted (l : list K) :
  StronglySorted (fun a b => cmp a b = Lt) (sorted_keys cmp l).
Proof.
  induction l as [|x l IH]; simpl; [constructor|now apply insert_key_sorted].
Qed.
End SortedKeysFacts.

Lemma ascii_compare_trans (a b c : ascii) :
  Ascii.compare a b = Lt -> Ascii.compare b c = Lt -> Ascii.compare a c = Lt.
Proof.
  unfold Ascii.compare. rewrite !N.compare_lt_iff. apply N.lt_trans.
Qed.

Lemma string_compare_trans (a b c : string) :
  String.compare a b = Lt -> String.compare b c = Lt -> String.compare a c = Lt.
Proof.
  revert b c. induction a as [|x a IH]; intros [|y b] [|z c]; simpl; try congruence.
  destruct (Ascii.compare x y) eqn:Exy; try discriminate;
    destruct (Ascii.compare y z) eqn:Eyz; try discriminate; intros Hab Hbc.
  - apply Ascii.compare_eq_iff in Exy, Eyz. subst.
    assert (E : Ascii.compare z z = Eq).
    { unfold Ascii.compare. apply N.compare_refl. }
    rewrite E. eauto.
  - apply Ascii.compare_eq_iff in Exy. subst. now rewrite Eyz.
  - apply Ascii.compare_eq_iff in Eyz. subst. now rewrite Exy.
  - now rewrite (ascii_compare_trans _ _ _ Exy Eyz).
Qed.

Lemma pair_compare_eq (p q : string * string) : pair_compare p q = Eq -> p = q.
Proof.
  destruct p as [a b], q as [c d]. unfold pair_compare. simpl.
  destruct (String.compare a c) eqn:E; try discriminate.
  intros E'. apply String.compare_eq_iff in E, E'. now subst.
Qed.

Lemma pair_eqb_eq (p q : string * string) : pair_eqb p q = true <-> p = q.
Proof.
  destruct p as [a b], q as [c d]. unfold pair_eqb. simpl.
  rewrite andb_true_iff, !String.eqb_eq. split.
  - now intros [-> ->].
  - intros E. now inversion E.
Qed.

(** ** The frame [topsis] returns *)

Section TopsisFrame.
Context {T : Type} `{Numeric T}.

Lemma pivot_cells_length (df : list weighted_row) :
  List.length (pivot_cells (pivot_table df)) = List.length (pivot_index (pivot_table df)).
Proof. unfold pivot_table. simpl. apply length_map. Qed.

Lemma closeness_length (p : Pivot T) :
  List.length (closeness p) = List.length (pivot_cells p).
Proof. unfold closeness. apply length_map. Qed.

Lemma rescale_length (scores : list T) :
  List.length (rescale scores) = List.length scores.
Proof. unfold rescale. now rewrite !length_map. Qed.

Lemma map_fst_combine {A B} (l : list A) (l' : list B) :
  List.length l = List.length l' -> map fst (combine l l') = l.
Proof.
  revert l'. induction l as [|x l IH]; intros [|y l'] E; try discriminate; [reflexivity|].
  simpl. f_equal. apply IH. now inversion E.
Qed.

End TopsisFrame.

(** C5 (amended).  [topsis] returns a frame of the two columns ["Region"] and
    ["TOPSIS Score"], with one row per distinct region of the data, in
    strictly ascending order of the region labels; it carries no rank and its
    rows are not ordered by score. *)
Theorem topsis_rows_by_region {T : Type} `{Numeric T} (norm_data : DataFrame T)
        (weights : dict (dict T)) :
  exists rows,
    topsis norm_data weights None
    = inr (mkScores ["Region"; "TOPSIS Score"]%string rows)
    /\ ~ In "Rank"%string ["Region"; "TOPSIS Score"]%string
    /\ StronglySorted (fun a b => String.compare a b = Lt) (map fst rows)
    /\ (forall region, In region (map fst rows)
                       <-> In region (map (@Region T) norm_data)).
Proof.
  rewrite topsis_None. eexists. split; [reflexivity|].
  split.
  { simpl. intros [E|[E|[]]]; discriminate E. }
  rewrite map_fst_combine.
  2:{ now rewrite rescale_length, closeness_length, pivot_cells_length. }
  unfold pivot_table. cbn [pivot_index]. rewrite map_map. split.
  - apply sorted_keys_sorted.
    + apply String.compare_eq_iff.
    + apply String.compare_antisym.
    + apply string_compare_trans.
  - intros region.
    apply (sorted_keys_In String.compare String.compare_eq_iff region
                          (map (@Region T) norm_data)).
Qed.

(** ** The loops of [min_max_normalize] *)

Section NormaliseLoops.
Context {T : Type} `{Numeric T}.

Lemma unique_In (x : string) (l : list string) : In x (unique l) <-> In x l.
Proof.
  induction l as [|y l IH]; simpl; [tauto|].
  rewrite filter_In, IH, negb_true_iff, String.eqb_neq.
  destruct (String.eqb_spec x y) as [->|Hne]; intuition.
Qed.

Lemma unique_NoDup (l : list string) : NoDup (unique l).
Proof.
  induction l as [|y l IH]; simpl; constructor.
  - rewrite filter_In, negb_true_iff, String.eqb_neq. tauto.
  - now apply NoDup_filter.
Qed.

Lemma memb_In (p : string * string) (done : list (string * string)) :
  existsb (pair_eqb p) done = true <-> In p done.
Proof.
  rewrite existsb_exists. split.
  - intros [q [Hq E]]. apply pair_eqb_eq in E. now subst.
  - intros Hin. exists p. split; [assumption|now apply pair_eqb_eq].
Qed.

Lemma memb_not_In (p : string * string) (done : list (string * string)) :
  existsb (pair_eqb p) done = false <-> ~ In p done.
Proof. rewrite <- memb_In. now destruct (existsb (pair_eqb p) done). Qed.

Lemma in_group_key (cat sub_cat : string) (r : row T) :
  in_group cat sub_cat r = true <-> (Category r, Sub_category r) = (cat, sub_cat).
Proof.
  unfold in_group. rewrite andb_true_iff, !String.eqb_eq. split.
  - now intros [-> ->].
  - intros E. now inversion E.
Qed.

Lemma in_group_pair_eqb (cat sub_cat : string) (r : row T) :
  pair_eqb (Category r, Sub_category r) (cat, sub_cat) = in_group cat sub_cat r.
Proof. reflexivity. Qed.

Lemma normalized_row_keys (nd0 : DataFrame T) (r : row T) :
  Region (normalized_row nd0 r) = Region r
  /\ Category (normalized_row nd0 r) = Category r
  /\ Sub_category (normalized_row nd0 r) = Sub_category r
  /\ Cost_Benefit (normalized_row nd0 r) = Cost_Benefit r.
Proof.
  unfold normalized_row.
  destruct (filter (in_group (Category r) (Sub_category r)) nd0); simpl; auto.
Qed.

Lemma step_row_keys (done : list (string * string)) (nd0 : DataFrame T) (r : row T) :
  Region (step_row done nd0 r) = Region r
  /\ Category (step_row done nd0 r) = Category r
  /\ Sub_category (step_row done nd0 r) = Sub_category r
  /\ Cost_Benefit (step_row done nd0 r) = Cost_Benefit r.
Proof.
  unfold step_row. destruct (existsb _ done); [apply normalized_row_keys|auto].
Qed.

Lemma filter_map_commute {A} (f : A -> bool) (g : A -> A) (l : list A) :
  (forall x, f (g x) = f x) -> filter f (map g l) = map g (filter f l).
Proof.
  intros Hfg. induction l as [|x l IH]; simpl; [reflexivity|].
  rewrite Hfg. destruct (f x); simpl; now rewrite IH.
Qed.

Lemma group_of_done (done : list (string * string)) (nd0 : DataFrame T)
      (cat sub_cat : string) :
  ~ In (cat, sub_cat) done ->
  filter (in_group cat sub_cat) (norm_done done nd0)
  = filter (in_group cat sub_cat) nd0.
Proof.
  intros Hfresh. unfold norm_done. fold (step_row done nd0).
  rewrite filter_map_commute.
  - rewrite <- (map_id (filter (in_group cat sub_cat) nd0)) at 2.
    apply map_ext_in. intros r Hr. apply filter_In in Hr. destruct Hr as [_ Hr].
    apply in_group_key in Hr. unfold step_row. rewrite Hr.
    apply memb_not_In in Hfresh. now rewrite Hfresh.
  - intros r. unfold in_group.
    destruct (step_row_keys done nd0 r) as [_ [-> [-> _]]]. reflexivity.
Qed.

Lemma normalize_group_done (done : list (string * string)) (nd0 : DataFrame T)
      (cat sub_cat : string) :
  ~ In (cat, sub_cat) done ->
  filter (in_group cat sub_cat) nd0 <> [] ->
  normalize_group (norm_done done nd0) cat sub_cat
  = inr (norm_done ((cat, sub_cat) :: done) nd0).
Proof.
  intros Hfresh Hne. unfold normalize_group. rewrite (@group_of_done done nd0 cat sub_cat Hfresh).
  destruct (filter (in_group cat sub_cat) nd0) as [|r0 g] eqn:Eg; [contradiction|].
  unfold ret. f_equal. unfold norm_done. rewrite map_map. apply map_ext_in.
  intros r Hr. fold (step_row done nd0 r).
  assert (Hmask : in_group cat sub_cat (step_row done nd0 r) = in_group cat sub_cat r).
  { unfold in_group. destruct (step_row_keys done nd0 r) as [_ [-> [-> _]]].
    reflexivity. }
  rewrite Hmask. cbn [existsb]. rewrite in_group_pair_eqb.
  destruct (in_group cat sub_cat r) eqn:Em; cbn [orb]; [|reflexivity].
  apply in_group_key in Em. unfold step_row. rewrite Em.
  apply memb_not_In in Hfresh. rewrite Hfresh.
  unfold normalized_row. inversion Em as [[Ec Es]]. rewrite Ec, Es, Eg. reflexivity.
Qed.

Lemma done_after_In (done : list (string * string)) (cat : string) (subs : list string)
      (p : string * string) :
  In p (done_after done cat subs) <-> In p done \/ (fst p = cat /\ In (snd p) subs).
Proof.
  unfold done_after. revert done. induction subs as [|s subs IH]; intros done; simpl.
  - tauto.
  - rewrite IH. simpl. destruct p as [c s']. simpl. split.
    + intros [[E|Hd]|[Ec Hs]]; [inversion E; subst| |]; tauto.
    + intros [Hd|[Ec [Es|Hs]]]; subst; tauto.
Qed.

Lemma inner_loop_done (nd0 : DataFrame T) (cat : string) (subs : list string) :
  NoDup subs ->
  (forall s, In s subs -> filter (in_group cat s) nd0 <> []) ->
  forall done,
    (forall s, In s subs -> ~ In (cat, s) done) ->
    for_each subs (fun nd' sub_cat => normalize_group nd' cat sub_cat)
             (norm_done done nd0)
    = inr (norm_done (done_after done cat subs) nd0).
Proof.
  induction subs as [|s subs IH]; intros Hnd Hne done Hfresh; [reflexivity|].
  inversion Hnd as [|? ? Hs Hnd']; subst. cbn [for_each].
  rewrite normalize_group_done; [|apply Hfresh; now left|apply Hne; now left].
  cbn [bind]. unfold done_after. cbn [fold_left]. apply IH.
  - exact Hnd'.
  - intros s' Hs'. apply Hne. now right.
  - intros s' Hs' [E|Hin].
    + inversion E; subst. contradiction.
    + apply (Hfresh s' (or_intror Hs') Hin).
Qed.

Lemma subs_of_done (done : list (string * string)) (nd0 : DataFrame T) (cat : string) :
  subs_of (norm_done done nd0) cat = subs_of nd0 cat.
Proof.
  unfold subs_of, norm_done. fold (step_row done nd0). f_equal.
  rewrite filter_map_commute, map_map.
  - apply map_ext. intros r. now destruct (step_row_keys done nd0 r) as [_ [_ [-> _]]].
  - intros r. now destruct (step_row_keys done nd0 r) as [_ [-> _]].
Qed.

Lemma subs_of_In (nd : DataFrame T) (cat s : string) :
  In s (subs_of nd cat) <-> exists r, In r nd /\ Category r = cat /\ Sub_category r = s.
Proof.
  unfold subs_of. rewrite unique_In, in_map_iff. split.
  - intros [r [Es Hr]]. apply filter_In in Hr. destruct Hr as [Hr Ec].
    apply String.eqb_eq in Ec. eauto.
  - intros [r [Hr [Ec Es]]]. exists r. split; [assumption|].
    apply filter_In. split; [assumption|now apply String.eqb_eq].
Qed.

Lemma subs_of_group (nd : DataFrame T) (cat s : string) :
  In s (subs_of nd cat) -> filter (in_group cat s) nd <> [].
Proof.
  intros Hs. apply subs_of_In in Hs. destruct Hs as [r [Hr [Ec Es]]].
  assert (Hin : In r (filter (in_group cat s) nd)).
  { apply filter_In. split; [assumption|]. apply in_group_key. now subst. }
  intros E. now rewrite E in Hin.
Qed.

Lemma outer_done_In (nd0 : DataFrame T) (cats : list string)
      (done : list (string * string)) (p : string * string) :
  In p (outer_done nd0 done cats)
  <-> In p done \/ (In (fst p) cats /\ In (snd p) (subs_of nd0 (fst p))).
Proof.
  unfold outer_done. revert done. induction cats as [|c cats IH]; intros done; simpl.
  - tauto.
  - rewrite IH, done_after_In. split.
    + intros [[Hd|[Ec Hs]]|[Hc Hs]]; subst; tauto.
    + intros [Hd|[[Ec|Hc] Hs]]; subst; tauto.
Qed.

Lemma outer_loop_done (nd0 : DataFrame T) (cats : list string) :
  NoDup cats ->
  forall done,
    (forall p, In p done -> ~ In (fst p) cats) ->
    for_each cats
      (fun nd cat =>
         for_each (unique (map (@Sub_category T)
                               (filter (fun r => String.eqb (Category r) cat) nd)))
                  (fun nd' sub_cat => normalize_group nd' cat sub_cat) nd)
      (norm_done done nd0)
    = inr (norm_done (outer_done nd0 done cats) nd0).
Proof.
  induction cats as [|c cats IH]; intros Hnd done Hfresh; [reflexivity|].
  inversion Hnd as [|? ? Hc Hnd']; subst. cbn [for_each].
  fold (subs_of (norm_done done nd0) c). rewrite subs_of_done.
  rewrite inner_loop_done.
  - cbn [bind]. unfold outer_done. cbn [fold_left]. apply IH; [exact Hnd'|].
    intros p Hp Hin. apply done_after_In in Hp. destruct Hp as [Hp|[Ec _]].
    + apply (Hfresh p Hp). now right.
    + subst. contradiction.
  - apply unique_NoDup.
  - intros s Hs. now apply subs_of_group.
  - intros s Hs Hin. apply (Hfresh _ Hin). now left.
Qed.

Lemma parse_values_parsed (to_numeric : string -> option T) (data : DataFrame string) :
  (forall r, In r data -> exists v, to_numeric (clean (Value r)) = Some v) ->
  parse_values to_numeric data = inr (map (parsed to_numeric) data).
Proof.
  induction data as [|r data IH]; intros Hall; [reflexivity|].
  cbn [parse_values map]. destruct (Hall r (or_introl eq_refl)) as [v Ev].
  unfold parsed at 1. rewrite Ev.
  rewrite IH by (intros r' Hr'; apply Hall; now right). reflexivity.
Qed.

(** In a [float64] column the loops give every row the new value of its
    group. *)
Lemma min_max_normalize_rows (to_numeric : string -> option T) (data : DataFrame string) :
  column_dtype data = None ->
  (forall r, In r data -> exists v, to_numeric (clean (Value r)) = Some v) ->
  min_max_normalize to_numeric data
  = inr (map (normalized_row (map (parsed to_numeric) data))
             (map (parsed to_numeric) data)).
Proof.
  intros Hfloat Hall. unfold min_max_normalize.
  rewrite (@parse_values_parsed to_numeric data Hall), Hfloat.
  cbn [bind]. unfold normalize_loops. set (nd0 := map (parsed to_numeric) data).
  assert (E0 : nd0 = norm_done [] nd0).
  { unfold norm_done. cbn [existsb]. now rewrite map_id. }
  rewrite E0 at 2. rewrite outer_loop_done.
  - f_equal. unfold norm_done. apply map_ext_in. intros r Hr.
    assert (Hin : In (Category r, Sub_category r)
                     (outer_done nd0 [] (unique (map (@Category T) nd0)))).
    { apply outer_done_In. right. cbn [fst snd]. split.
      - apply unique_In. now apply in_map.
      - apply subs_of_In. now exists r. }
    apply memb_In in Hin. now rewrite Hin.
  - apply unique_NoDup.
  - intros p [].
Qed.
End NormaliseLoops.

(** ** [min_max_normalize] in exact arithmetic *)

Section NormaliseExact.
Local Open Scope R_scope.





End NormaliseExact.


(** ** [topsis] in exact arithmetic *)

Section TopsisExact.
Local Open Scope R_scope.

Lemma combine_map_same {A B C} (f : A -> B) (g : A -> C) (l : list A) :
  combine (map f l) (map g l) = map (fun a => (f a, g a)) l.
Proof. induction l as [|a l IH]; simpl; [reflexivity|now rewrite IH]. Qed.

Lemma map_seq_nth {A B} (f : A -> B) (l : list A) (d : A) :
  map (fun j => f (nth j l d)) (seq 0 (List.length l)) = map f l.
Proof.
  induction l as [|a l IH]; [reflexivity|].
  cbn [List.length seq map nth]. f_equal.
  rewrite <- seq_shift, map_map. exact IH.
Qed.

Lemma Rsum_nonneg (l : list R) : Forall (fun a => 0 <= a) l -> 0 <= Rsum l.
Proof. induction 1 as [|a l Ha Hl IH]; simpl; lra. Qed.

Lemma Rsum_le {A} (f g : A -> R) (l : list A) :
  (forall a, In a l -> f a <= g a) -> Rsum (map f l) <= Rsum (map g l).
Proof.
  induction l as [|a l IH]; intros Hfg; simpl; [lra|].
  pose proof (Hfg a (or_introl eq_refl)).
  pose proof (IH (fun b Hb => Hfg b (or_intror Hb))). lra.
Qed.

Lemma Rsum_squares_nonneg {A} (f : A -> R) (l : list A) :
  0 <= Rsum (map (fun a => f a * f a) l).
Proof.
  apply Rsum_nonneg. apply Forall_forall. intros x Hx.
  apply in_map_iff in Hx. destruct Hx as [a [<- _]]. nra.
Qed.

Lemma Rsum_squares_zero {A} (f : A -> R) (l : list A) :
  Rsum (map (fun a => f a * f a) l) = 0 -> forall a, In a l -> f a = 0.
Proof.
  induction l as [|b l IH]; intros Hz a Ha; [contradiction|].
  simpl in Hz. pose proof (Rsum_squares_nonneg f l) as Hl.
  assert (Hb : 0 <= f b * f b) by nra.
  destruct Ha as [<-|Ha].
  - nra.
  - apply IH; [lra|assumption].
Qed.

Lemma all_weighted_Fin (df : list (row xreal * xreal)) :
  (forall x, In x df -> exists a, snd x = Fin a) ->
  map snd df = map Fin (map (fun x => fin_val (snd x)) df).
Proof.
  intros Hall. rewrite map_map. apply map_ext_in. intros x Hx.
  destruct (Hall x Hx) as [a ->]. reflexivity.
Qed.

Lemma pivot_cell_exact (df : list (row xreal * xreal)) (region : string)
      (col : string * string) :
  (forall x, In x df -> exists a, snd x = Fin a) ->
  pivot_cell df region col = Fin (cell_real df region col).
Proof.
  intros Hall. unfold pivot_cell, cell_real.
  destruct (filter (in_cell region col) df) as [|x g] eqn:Eg; [reflexivity|].
  rewrite all_weighted_Fin; [apply nansum_Fin|].
  intros y Hy. apply Hall. rewrite <- Eg in Hy. apply filter_In in Hy. tauto.
Qed.

Lemma pivot_cells_exact (df : list (row xreal * xreal)) :
  (forall x, In x df -> exists a, snd x = Fin a) ->
  pivot_cells (pivot_table df)
  = map (fun r => map (fun c => Fin (cell_real df r c))
                      (pivot_columns (pivot_table df)))
        (pivot_index (pivot_table df)).
Proof.
  intros Hall. unfold pivot_table. cbn [pivot_cells pivot_columns pivot_index].
  apply map_ext. intros r. apply map_ext. intros c. now apply pivot_cell_exact.
Qed.

(** A column of the table of [G]. *)
Lemma column_exact (regions : list string) (cols : list (string * string))
      (G : string -> string * string -> R) (j : nat) (d : string * string) :
  (j < List.length cols)%nat ->
  column (map (fun r => map (fun c => Fin (G r c)) cols) regions) j
  = map Fin (map (fun r => G r (nth j cols d)) regions).
Proof.
  intros Hj. unfold column. rewrite !map_map. apply map_ext. intros r.
  rewrite (nth_indep _ nan (Fin (G r d))) by now rewrite length_map.
  apply (map_nth (fun c => Fin (G r c))).
Qed.

Lemma ideal_exact (p : Pivot xreal) (G : string -> string * string -> R)
      (r0 : string) (rs : list string) :
  pivot_index p = r0 :: rs ->
  pivot_cells p = map (fun r => map (fun c => Fin (G r c)) (pivot_columns p))
                      (pivot_index p) ->
  ideal_of p = map (fun c => Fin (Rideal (pivot_index p) G c)) (pivot_columns p)
  /\ anti_ideal_of p = map (fun c => Fin (Ranti (pivot_index p) G c)) (pivot_columns p).
Proof.
  intros Hidx Hcells. unfold ideal_of, anti_ideal_of. rewrite Hcells.
  destruct (pivot_columns p) as [|c0 cs] eqn:Ecols; [split; reflexivity|].
  rewrite <- Ecols. split.
  - rewrite <- (map_seq_nth (fun c => Fin (Rideal (pivot_index p) G c))
                            (pivot_columns p) c0).
    apply map_ext_in. intros j Hj. apply in_seq in Hj.
    rewrite (@column_exact _ _ G j c0) by lia.
    unfold Rideal. rewrite Hidx. cbn [map]. apply nanmax_Fin.
  - rewrite <- (map_seq_nth (fun c => Fin (Ranti (pivot_index p) G c))
                            (pivot_columns p) c0).
    apply map_ext_in. intros j Hj. apply in_seq in Hj.
    rewrite (@column_exact _ _ G j c0) by lia.
    unfold Ranti. rewrite Hidx. cbn [map]. apply nanmin_Fin.
Qed.

Lemma distance_exact (cols : list (string * string))
      (G : string -> string * string -> R) (ref : string * string -> R) (r : string) :
  distance (map (fun c => Fin (G r c)) cols) (map (fun c => Fin (ref c)) cols)
  = Fin (Rdist cols G ref r).
Proof.
  unfold distance, Rdist. rewrite combine_map_same, map_map. cbn [fst snd].
  rewrite <- (map_map (fun c => (G r c - ref c) * (G r c - ref c)) Fin).
  rewrite nansum_Fin. apply sqrt_Fin.
  apply (Rsum_squares_nonneg (fun c => G r c - ref c)).
Qed.

Lemma closeness_exact (p : Pivot xreal) (G : string -> string * string -> R)
      (r0 : string) (rs : list string) :
  pivot_index p = r0 :: rs ->
  pivot_cells p = map (fun r => map (fun c => Fin (G r c)) (pivot_columns p))
                      (pivot_index p) ->
  closeness p = map (xclose (pivot_index p) (pivot_columns p) G) (pivot_index p).
Proof.
  intros Hidx Hcells. unfold closeness. cbv zeta.
  destruct (@ideal_exact p G r0 rs Hidx Hcells) as [-> ->].
  rewrite Hcells, map_map. apply map_ext. intros r.
  rewrite !distance_exact. reflexivity.
Qed.
End TopsisExact.

(** ** Raising one cell of the pivot table *)

Unset Implicit Arguments.

Section Extrema.
Local Open Scope R_scope.
Variable A : Type.

Lemma Rmax_list_ge (f : A -> R) (l : list A) (a : A) :
  In a l -> f a <= Rmax_list (map f l).
Proof.
  destruct l as [|b l]; [contradiction|]. cbn [map Rmax_list].
  destruct (Rmaxl_ge (map f l) (f b)) as [H1 H2].
  intros [<-|Ha]; [exact H1|]. apply H2. now apply in_map.
Qed.

Lemma Rmax_list_attained (f : A -> R) (l : list A) :
  l <> [] -> exists a, In a l /\ Rmax_list (map f l) = f a.
Proof.
  destruct l as [|b l]; [contradiction|]. intros _. cbn [map Rmax_list].
  destruct (Rmaxl_In (map f l) (f b)) as [E|Hin].
  - exists b. split; [now left|now symmetry].
  - apply in_map_iff in Hin. destruct Hin as [a [E Ha]].
    exists a. split; [now right|now symmetry].
Qed.

Lemma Rmin_list_le (f : A -> R) (l : list A) (a : A) :
  In a l -> Rmin_list (map f l) <= f a.
Proof.
  destruct l as [|b l]; [contradiction|]. cbn [map Rmin_list].
  destruct (Rminl_le (map f l) (f b)) as [H1 H2].
  intros [<-|Ha]; [exact H1|]. apply H2. now apply in_map.
Qed.

Lemma Rmin_list_attained (f : A -> R) (l : list A) :
  l <> [] -> exists a, In a l /\ Rmin_list (map f l) = f a.
Proof.
  destruct l as [|b l]; [contradiction|]. intros _. cbn [map Rmin_list].
  destruct (Rminl_In (map f l) (f b)) as [E|Hin].
  - exists b. split; [now left|now symmetry].
  - apply in_map_iff in Hin. destruct Hin as [a [E Ha]].
    exists a. split; [now right|now symmetry].
Qed.
End Extrema.

Section RaiseCell.
Local Open Scope R_scope.
Variable regions : list string.
Variable cols : list (string * string).
Variables G G' : string -> string * string -> R.
Variable r0 : string.
Variable c0 : string * string.
Hypothesis Hr0 : In r0 regions.
Hypothesis Hup : G r0 c0 <= G' r0 c0.
Hypothesis Hsame : forall r c, r <> r0 \/ c <> c0 -> G' r c = G r c.

Lemma col_eq_dec (c d : string * string) : {c = d} + {c <> d}.
Proof. decide equality; apply string_dec. Qed.

Lemma regions_nonempty : regions <> [].
Proof. intros E. rewrite E in Hr0. contradiction. Qed.

Lemma cell_le (r : string) (c : string * string) : G r c <= G' r c.
Proof.
  destruct (string_dec r r0) as [->|Hr].
  - destruct (col_eq_dec c c0) as [->|Hc]; [exact Hup|].
    rewrite Hsame by now right. lra.
  - rewrite Hsame by now left. lra.
Qed.

Lemma ideal_other (c : string * string) :
  c <> c0 -> Rideal regions G' c = Rideal regions G c.
Proof.
  intros Hc. unfold Rideal. f_equal. apply map_ext. intros r. apply Hsame. now right.
Qed.

Lemma anti_other (c : string * string) :
  c <> c0 -> Ranti regions G' c = Ranti regions G c.
Proof.
  intros Hc. unfold Ranti. f_equal. apply map_ext. intros r. apply Hsame. now right.
Qed.

Lemma ideal_bounds (H : string -> string * string -> R) (r : string)
      (c : string * string) :
  In r regions -> Ranti regions H c <= H r c <= Rideal regions H c.
Proof.
  intros Hr. split.
  - apply (Rmin_list_le _ (fun r => H r c) regions r Hr).
  - apply (Rmax_list_ge _ (fun r => H r c) regions r Hr).
Qed.

Lemma ideal_mono (c : string * string) : Rideal regions G c <= Rideal regions G' c.
Proof.
  destruct (Rmax_list_attained _ (fun r => G r c) regions regions_nonempty) as [r [Hr E]].
  unfold Rideal at 1. rewrite E.
  pose proof (cell_le r c). pose proof (ideal_bounds G' r c Hr). lra.
Qed.

Lemma anti_mono (c : string * string) : Ranti regions G c <= Ranti regions G' c.
Proof.
  destruct (Rmin_list_attained _ (fun r => G' r c) regions regions_nonempty) as [r [Hr E]].
  unfold Ranti at 2. rewrite E.
  pose proof (cell_le r c). pose proof (ideal_bounds G r c Hr). lra.
Qed.

Lemma ideal_raised :
  Rideal regions G' c0 = G' r0 c0 \/ Rideal regions G' c0 <= Rideal regions G c0.
Proof.
  destruct (Rmax_list_attained _ (fun r => G' r c0) regions regions_nonempty) as [r [Hr E]].
  unfold Rideal at 1 2. rewrite E. destruct (string_dec r r0) as [->|Hne].
  - now left.
  - right. rewrite Hsame by now left. apply (ideal_bounds G r c0 Hr).
Qed.

Lemma anti_raised :
  Ranti regions G c0 = G r0 c0 \/ Ranti regions G' c0 <= Ranti regions G c0.
Proof.
  destruct (Rmin_list_attained _ (fun r => G r c0) regions regions_nonempty) as [r [Hr E]].
  unfold Ranti at 1 3. rewrite E. destruct (string_dec r r0) as [->|Hne].
  - now left.
  - right. rewrite <- (Hsame r c0) by now left. apply (ideal_bounds G' r c0 Hr).
Qed.

(** The raised region comes closer to the ideal and leaves the anti-ideal. *)
Lemma raised_to_ideal (c : string * string) :
  (G' r0 c - Rideal regions G' c) * (G' r0 c - Rideal regions G' c)
  <= (G r0 c - Rideal regions G c) * (G r0 c - Rideal regions G c).
Proof.
  destruct (col_eq_dec c c0) as [->|Hc].
  - pose proof (ideal_bounds G r0 c0 Hr0). pose proof (ideal_bounds G' r0 c0 Hr0).
    destruct ideal_raised as [E|Hle]; nra.
  - rewrite ideal_other, Hsame by (assumption || now right). lra.
Qed.

Lemma raised_from_anti (c : string * string) :
  (G r0 c - Ranti regions G c) * (G r0 c - Ranti regions G c)
  <= (G' r0 c - Ranti regions G' c) * (G' r0 c - Ranti regions G' c).
Proof.
  destruct (col_eq_dec c c0) as [->|Hc].
  - pose proof (ideal_bounds G r0 c0 Hr0). pose proof (ideal_bounds G' r0 c0 Hr0).
    destruct anti_raised as [E|Hle]; nra.
  - rewrite anti_other, Hsame by (assumption || now right). lra.
Qed.

(** Every other region moves away from the ideal and towards the anti-ideal. *)
Lemma other_to_ideal (r : string) (c : string * string) :
  In r regions -> r <> r0 ->
  (G r c - Rideal regions G c) * (G r c - Rideal regions G c)
  <= (G' r c - Rideal regions G' c) * (G' r c - Rideal regions G' c).
Proof.
  intros Hr Hne. rewrite (Hsame r c) by now left.
  pose proof (ideal_bounds G r c Hr). pose proof (ideal_mono c). nra.
Qed.

Lemma other_from_anti (r : string) (c : string * string) :
  In r regions -> r <> r0 ->
  (G' r c - Ranti regions G' c) * (G' r c - Ranti regions G' c)
  <= (G r c - Ranti regions G c) * (G r c - Ranti regions G c).
Proof.
  intros Hr Hne. pose proof (ideal_bounds G' r c Hr) as Hb.
  rewrite (Hsame r c) in * by now left.
  pose proof (anti_mono c). nra.
Qed.
End RaiseCell.

Section Distances.
Local Open Scope R_scope.
Variable regions : list string.
Variable cols : list (string * string).

Lemma Rdist_nonneg (H : string -> string * string -> R) (ref : string * string -> R)
      (r : string) : 0 <= Rdist cols H ref r.
Proof. unfold Rdist. apply sqrt_pos. Qed.

Lemma Rdist_le (H1 H2 : string -> string * string -> R)
      (ref1 ref2 : string * string -> R) (r1 r2 : string) :
  (forall c, In c cols ->
             (H1 r1 c - ref1 c) * (H1 r1 c - ref1 c)
             <= (H2 r2 c - ref2 c) * (H2 r2 c - ref2 c)) ->
  Rdist cols H1 ref1 r1 <= Rdist cols H2 ref2 r2.
Proof.
  intros Hle. unfold Rdist. apply sqrt_le_1_alt.
  apply (Rsum_le (fun c => (H1 r1 c - ref1 c) * (H1 r1 c - ref1 c))
                 (fun c => (H2 r2 c - ref2 c) * (H2 r2 c - ref2 c)) cols Hle).
Qed.

Lemma Rsum_zero {A} (f : A -> R) (l : list A) :
  (forall a, In a l -> f a = 0) -> Rsum (map f l) = 0.
Proof.
  induction l as [|a l IH]; intros Hz; simpl; [reflexivity|].
  rewrite (Hz a (or_introl eq_refl)), IH; [lra|].
  intros b Hb. apply Hz. now right.
Qed.

Lemma Rdist_zero (H : string -> string * string -> R) (ref : string * string -> R)
      (r : string) :
  Rdist cols H ref r = 0 -> forall c, In c cols -> H r c = ref c.
Proof.
  unfold Rdist. intros Hz c Hc.
  apply sqrt_eq_0 in Hz; [|apply (Rsum_squares_nonneg (fun c => H r c - ref c))].
  pose proof (Rsum_squares_zero (fun c => H r c - ref c) cols Hz c Hc) as E.
  simpl in E. lra.
Qed.

Lemma Rdist_zero_if (H : string -> string * string -> R) (ref : string * string -> R)
      (r : string) :
  (forall c, In c cols -> H r c = ref c) -> Rdist cols H ref r = 0.
Proof.
  intros Heq. unfold Rdist. rewrite Rsum_zero; [apply sqrt_0|].
  intros c Hc. rewrite (Heq c Hc). lra.
Qed.

(** When one region lies at distance zero from the ideal and from the
    anti-ideal, every column is constant and all regions do. *)
Lemma zero_distances_spread (H : string -> string * string -> R) (r : string) :
  In r regions ->
  Rdplus regions cols H r + Rdminus regions cols H r = 0 ->
  forall r', In r' regions ->
             Rdplus regions cols H r' + Rdminus regions cols H r' = 0.
Proof.
  intros Hr Hz r' Hr'. unfold Rdplus, Rdminus in *.
  pose proof (Rdist_nonneg H (Rideal regions H) r) as Hp.
  pose proof (Rdist_nonneg H (Ranti regions H) r) as Hm.
  assert (Ep : Rdist cols H (Rideal regions H) r = 0) by lra.
  assert (Em : Rdist cols H (Ranti regions H) r = 0) by lra.
  pose proof (Rdist_zero H _ r Ep) as Hi. pose proof (Rdist_zero H _ r Em) as Ha.
  assert (Hflat : forall c, In c cols ->
                            H r' c = Rideal regions H c /\ H r' c = Ranti regions H c).
  { intros c Hc. pose proof (ideal_bounds regions H r' c Hr') as Hb.
    rewrite <- (Hi c Hc) in *. rewrite <- (Ha c Hc) in *. lra. }
  rewrite !Rdist_zero_if; [lra| |]; intros c Hc; now apply Hflat.
Qed.

Lemma xclose_Fin (H : string -> string * string -> R) (r : string) :
  Rdplus regions cols H r + Rdminus regions cols H r <> 0 ->
  xclose regions cols H r
  = Fin (Rdminus regions cols H r
         / (Rdplus regions cols H r + Rdminus regions cols H r)).
Proof. intros Hne. unfold xclose. rewrite add_Fin. now apply div_Fin. Qed.

Lemma xclose_NaN (H : string -> string * string -> R) (r : string) :
  Rdplus regions cols H r + Rdminus regions cols H r = 0 ->
  xclose regions cols H r = NaN.
Proof. intros Hz. unfold xclose. rewrite add_Fin, Hz. apply div_Fin_0. Qed.
End Distances.

Section Arithmetic.
Local Open Scope R_scope.

Lemma ratio_le (p m p' m' : R) :
  0 <= p' <= p -> 0 <= m <= m' -> 0 < p + m -> 0 < p' + m' ->
  m / (p + m) <= m' / (p' + m').
Proof.
  intros Hp Hm Hs Hs'.
  assert (E : m' / (p' + m') - m / (p + m)
              = (m' * (p + m) - m * (p' + m')) * / ((p' + m') * (p + m))).
  { field. lra. }
  assert (0 <= (m' * (p + m) - m * (p' + m')) * / ((p' + m') * (p + m))); [|lra].
  apply Rmult_le_pos; [nra|]. apply Rlt_le, Rinv_0_lt_compat. nra.
Qed.

Lemma rescaled_le (a a' m M m' M' : R) :
  m <= a <= M -> m' <= a' <= M' -> a <= a' -> m < M -> m' < M' ->
  M' <= M \/ M' = a' ->
  m = a \/ m' <= m ->
  (a - m) / (M - m) <= (a' - m') / (M' - m').
Proof.
  intros Ha Ha' Hup HmM HmM' HM Hm.
  assert (Hcross : (a - m) * (M' - m') <= (a' - m') * (M - m)).
  { destruct Hm as [->|Hm]; [nra|]. destruct HM as [HM| ->]; [|nra].
    assert ((a - m) * (M' - m') <= (a - m) * ((M - m) + (m - m'))) by nra.
    assert ((a - m) * ((M - m) + (m - m')) <= ((a - m) + (m - m')) * (M - m)) by nra.
    assert (((a - m) + (m - m')) * (M - m) <= (a' - m') * (M - m)) by nra.
    lra. }
  assert (E : (a' - m') / (M' - m') - (a - m) / (M - m)
              = ((a' - m') * (M - m) - (a - m) * (M' - m'))
                * / ((M' - m') * (M - m))).
  { field. lra. }
  assert (0 <= ((a' - m') * (M - m) - (a - m) * (M' - m'))
               * / ((M' - m') * (M - m))); [|lra].
  apply Rmult_le_pos; [lra|]. apply Rlt_le, Rinv_0_lt_compat. nra.
Qed.

Lemma epsilon_exact : epsilon = Fin (1 / 100).
Proof. reflexivity. Qed.

Lemma rescale_one_NaN (scores : list xreal) : rescale_one scores NaN = NaN.
Proof. reflexivity. Qed.

Lemma ltb_NaN_r (x : xreal) : ltb x NaN = false.
Proof. now destruct x. Qed.

Lemma nanmin_Rmin_list (l : list R) : l <> [] -> nanmin (map Fin l) = Fin (Rmin_list l).
Proof. destruct l; [contradiction|]. intros _. apply nanmin_Fin. Qed.

Lemma nanmax_Rmax_list (l : list R) : l <> [] -> nanmax (map Fin l) = Fin (Rmax_list l).
Proof. destruct l; [contradiction|]. intros _. apply nanmax_Fin. Qed.

Lemma rescale_one_flat (l : list R) (a : R) :
  l <> [] -> Rmax_list l - Rmin_list l = 0 ->
  rescale_one (map Fin l) (Fin a) = NaN.
Proof.
  intros Hne Hz. unfold rescale_one.
  rewrite nanmin_Rmin_list, nanmax_Rmax_list by assumption.
  rewrite !sub_Fin, Hz, div_Fin_0. reflexivity.
Qed.

Lemma rescale_one_exact (l : list R) (a : R) :
  l <> [] -> Rmax_list l - Rmin_list l <> 0 ->
  rescale_one (map Fin l) (Fin a)
  = Fin ((a - Rmin_list l) / (Rmax_list l - Rmin_list l) * (1 - 1 / 100) + 1 / 100).
Proof.
  intros Hne Hnz. unfold rescale_one.
  rewrite nanmin_Rmin_list, nanmax_Rmax_list by assumption.
  rewrite !sub_Fin, div_Fin by assumption. reflexivity.
Qed.
End Arithmetic.

Section RaiseScores.
Local Open Scope R_scope.
Variable regions : list string.
Variable cols : list (string * string).
Variables G G' : string -> string * string -> R.
Variable r0 : string.
Variable c0 : string * string.
Hypothesis Hr0 : In r0 regions.
Hypothesis Hup : G r0 c0 <= G' r0 c0.
Hypothesis Hsame : forall r c, r <> r0 \/ c <> c0 -> G' r c = G r c.

Lemma raised_dplus : Rdplus regions cols G' r0 <= Rdplus regions cols G r0.
Proof.
  apply Rdist_le. intros c _.
  apply (raised_to_ideal regions G G' r0 c0 Hr0 Hup Hsame c).
Qed.

Lemma raised_dminus : Rdminus regions cols G r0 <= Rdminus regions cols G' r0.
Proof.
  apply Rdist_le. intros c _.
  apply (raised_from_anti regions G G' r0 c0 Hr0 Hup Hsame c).
Qed.

Lemma other_dplus (r : string) :
  In r regions -> r <> r0 -> Rdplus regions cols G r <= Rdplus regions cols G' r.
Proof.
  intros Hr Hne. apply Rdist_le. intros c _.
  apply (other_to_ideal regions G G' r0 c0 Hr0 Hup Hsame r c Hr Hne).
Qed.

Lemma other_dminus (r : string) :
  In r regions -> r <> r0 -> Rdminus regions cols G' r <= Rdminus regions cols G r.
Proof.
  intros Hr Hne. apply Rdist_le. intros c _.
  apply (other_from_anti regions G G' r0 c0 Hr0 Hup Hsame r c Hr Hne).
Qed.

(** The final score of the raised region does not go down. *)
Lemma raised_final_score :
  ltb (rescale_one (map (xclose regions cols G') regions) (xclose regions cols G' r0))
      (rescale_one (map (xclose regions cols G) regions) (xclose regions cols G r0))
  = false.
Proof.
  destruct (Req_dec_T (Rdplus regions cols G r0 + Rdminus regions cols G r0) 0)
    as [Hz|Hnz].
  { rewrite (xclose_NaN regions cols G r0 Hz), rescale_one_NaN. apply ltb_NaN_r. }
  destruct (Req_dec_T (Rdplus regions cols G' r0 + Rdminus regions cols G' r0) 0)
    as [Hz'|Hnz'].
  { rewrite (xclose_NaN regions cols G' r0 Hz'), rescale_one_NaN. reflexivity. }
  set (s := fun r => Rdminus regions cols G r
                     / (Rdplus regions cols G r + Rdminus regions cols G r)).
  set (s' := fun r => Rdminus regions cols G' r
                      / (Rdplus regions cols G' r + Rdminus regions cols G' r)).
  assert (Hall : forall r, In r regions ->
                   Rdplus regions cols G r + Rdminus regions cols G r <> 0).
  { intros r Hr Hz. apply Hnz.
    apply (zero_distances_spread regions cols G r Hr Hz r0 Hr0). }
  assert (Hall' : forall r, In r regions ->
                    Rdplus regions cols G' r + Rdminus regions cols G' r <> 0).
  { intros r Hr Hz. apply Hnz'.
    apply (zero_distances_spread regions cols G' r Hr Hz r0 Hr0). }
  assert (Es : map (xclose regions cols G) regions = map Fin (map s regions)).
  { rewrite map_map. apply map_ext_in. intros r Hr. apply xclose_Fin. now apply Hall. }
  assert (Es' : map (xclose regions cols G') regions = map Fin (map s' regions)).
  { rewrite map_map. apply map_ext_in. intros r Hr. apply xclose_Fin. now apply Hall'. }
  rewrite Es, Es', (xclose_Fin regions cols G r0 Hnz), (xclose_Fin regions cols G' r0 Hnz').
  fold (s r0). fold (s' r0).
  assert (Hne : map s regions <> []).
  { intros E. apply map_eq_nil in E. rewrite E in Hr0. contradiction. }
  assert (Hne' : map s' regions <> []).
  { intros E. apply map_eq_nil in E. rewrite E in Hr0. contradiction. }
  assert (Hreg : regions <> []).
  { intros E. rewrite E in Hr0. contradiction. }
  destruct (Req_dec_T (Rmax_list (map s regions) - Rmin_list (map s regions)) 0)
    as [Hflat|Hspread].
  { rewrite (rescale_one_flat (map s regions) (s r0) Hne Hflat). apply ltb_NaN_r. }
  destruct (Req_dec_T (Rmax_list (map s' regions) - Rmin_list (map s' regions)) 0)
    as [Hflat'|Hspread'].
  { rewrite (rescale_one_flat (map s' regions) (s' r0) Hne' Hflat'). reflexivity. }
  rewrite (rescale_one_exact (map s regions) (s r0) Hne Hspread).
  rewrite (rescale_one_exact (map s' regions) (s' r0) Hne' Hspread').
  (* the distances *)
  assert (Hpos : forall H r, 0 <= Rdplus regions cols H r /\ 0 <= Rdminus regions cols H r).
  { intros H r. split; apply Rdist_nonneg. }
  assert (Hsum : forall H r, Rdplus regions cols H r + Rdminus regions cols H r <> 0 ->
                             0 < Rdplus regions cols H r + Rdminus regions cols H r).
  { intros H r Hn. destruct (Hpos H r). lra. }
  assert (Hraise : s r0 <= s' r0).
  { unfold s, s'. destruct (Hpos G r0), (Hpos G' r0).
    pose proof raised_dplus. pose proof raised_dminus.
    apply ratio_le; try lra; now apply Hsum. }
  assert (Hother : forall r, In r regions -> r <> r0 -> s' r <= s r).
  { intros r Hr Hn. unfold s, s'. destruct (Hpos G r), (Hpos G' r).
    pose proof (other_dplus r Hr Hn). pose proof (other_dminus r Hr Hn).
    apply ratio_le; try lra; apply Hsum; auto. }
  pose proof (Rmin_list_le _ s regions r0 Hr0) as Hm.
  pose proof (Rmax_list_ge _ s regions r0 Hr0) as HM.
  pose proof (Rmin_list_le _ s' regions r0 Hr0) as Hm'.
  pose proof (Rmax_list_ge _ s' regions r0 Hr0) as HM'.
  assert (HMM : Rmax_list (map s' regions) <= Rmax_list (map s regions)
                \/ Rmax_list (map s' regions) = s' r0).
  { destruct (Rmax_list_attained _ s' regions Hreg) as [r [Hr E]].
    destruct (string_dec r r0) as [->|Hn]; [now right|]. left. rewrite E.
    pose proof (Hother r Hr Hn). pose proof (Rmax_list_ge _ s regions r Hr). lra. }
  assert (Hmm : Rmin_list (map s regions) = s r0
                \/ Rmin_list (map s' regions) <= Rmin_list (map s regions)).
  { destruct (Rmin_list_attained _ s regions Hreg) as [r [Hr E]].
    destruct (string_dec r r0) as [->|Hn]; [now left|]. right. rewrite E.
    pose proof (Hother r Hr Hn). pose proof (Rmin_list_le _ s' regions r Hr). lra. }
  pose proof (rescaled_le (s r0) (s' r0) (Rmin_list (map s regions))
                (Rmax_list (map s regions)) (Rmin_list (map s' regions))
                (Rmax_list (map s' regions))) as Hle.
  specialize (Hle (conj Hm HM) (conj Hm' HM') Hraise).
  specialize (Hle ltac:(lra) ltac:(lra) HMM Hmm).
  simpl. destruct (Rlt_dec _ _) as [Hlt|]; [|reflexivity]. exfalso. nra.
Qed.
End RaiseScores.

(** ** Raising one normalised value *)

Section TopsisLink.
Context {T : Type} `{Numeric T}.

Lemma rescale_map (scores : list T) :
  rescale scores = map (rescale_one scores) scores.
Proof. unfold rescale, rescale_one. cbv zeta. now rewrite map_map. Qed.

Lemma str_column_total {V W : Type} (col : string) (r : row V) (s : string)
      (r2 : row W) :
  str_column col r = inr s -> exists s2, str_column col r2 = inr s2.
Proof.
  unfold str_column, ret, raise.
  destruct (String.eqb col "Region"); [eauto|].
  destruct (String.eqb col "Category"); [eauto|].
  destruct (String.eqb col "Sub-category"); [eauto|].
  destruct (String.eqb col "Cost/Benefit"); [eauto|].
  destruct (String.eqb col "Value" || String.eqb col "Weight"
            || String.eqb col "Weighted"); discriminate.
Qed.

Lemma adjust_costs_final (weights : dict (dict T)) (col : string)
      (norm_data : DataFrame T) :
  String.eqb col "" = false ->
  (forall r, In r norm_data -> exists s, str_column col r = inr s) ->
  adjust_costs col (map (add_weighted weights) norm_data)
  = inr (map (final_row weights (Some col)) norm_data).
Proof.
  intros Hcol. induction norm_data as [|r nd IH]; intros Hall; [reflexivity|].
  cbn [map adjust_costs]. rewrite IH by (intros r' Hr'; apply Hall; now right).
  destruct (Hall r (or_introl eq_refl)) as [s Es].
  unfold adjust_cost, final_row. cbn [fst snd add_weighted]. rewrite Hcol, Es.
  cbn [bind]. destruct (String.eqb (lower s) "cost"); reflexivity.
Qed.

Lemma topsis_final (norm_data : DataFrame T) (weights : dict (dict T))
      (criteria_type_col : option string) :
  match criteria_type_col with
  | None => True
  | Some col => String.eqb col "" = true
                \/ forall r, In r norm_data -> exists s, str_column col r = inr s
  end ->
  topsis norm_data weights criteria_type_col
  = inr (mkScores ["Region"; "TOPSIS Score"]%string
           (combine
              (pivot_index
                 (pivot_table (map (final_row weights criteria_type_col) norm_data)))
              (rescale
                 (closeness
                    (pivot_table (map (final_row weights criteria_type_col)
                                      norm_data)))))).
Proof.
  destruct criteria_type_col as [col|]; intros Hcol.
  - unfold topsis. destruct (String.eqb col "") eqn:Ecol.
    + assert (E : map (final_row weights (Some col)) norm_data
                  = map (add_weighted weights) norm_data).
      { apply map_ext. intros r. unfold final_row. now rewrite Ecol. }
      rewrite E. reflexivity.
    + destruct Hcol as [Hc|Hall]; [discriminate|].
      rewrite (adjust_costs_final weights col norm_data Ecol Hall). reflexivity.
  - reflexivity.
Qed.

Lemma dict_get_combine_map {V : Type} (F : string -> V) (l : list string) (k : string) :
  In k l -> dict_get (combine l (map F l)) k = Some (F k).
Proof.
  induction l as [|x l IH]; [contradiction|]. intros Hin. cbn [map combine dict_get].
  destruct (String.eqb_spec x k) as [->|Hne]; [reflexivity|].
  apply IH. destruct Hin as [E|Hin]; [contradiction|assumption].
Qed.

Lemma final_row_fst (weights : dict (dict T)) (col : option string) (r : row T) :
  fst (final_row weights col r) = r.
Proof.
  unfold final_row. destruct col as [c|]; [|reflexivity].
  destruct (String.eqb c ""); [reflexivity|].
  destruct (str_column c r) as [e|s]; [reflexivity|].
  destruct (String.eqb (lower s) "cost"); reflexivity.
Qed.
End TopsisLink.

Section TopsisMonotone.
Local Open Scope R_scope.

Lemma dict_get_Some_In {V : Type} (d : dict V) (k : string) (v : V) :
  dict_get d k = Some v -> In (k, v) d.
Proof.
  induction d as [|[k' v'] d IH]; [discriminate|]. simpl.
  destruct (String.eqb_spec k' k) as [->|Hne].
  - intros E. inversion E. now left.
  - intros E. right. now apply IH.
Qed.

Lemma get_weight_Fin (weights : dict (dict xreal)) (r : row xreal) :
  nonneg_weights weights -> exists w, get_weight weights r = Fin w /\ 0 <= w.
Proof.
  intros Hw. unfold get_weight.
  destruct (dict_get weights (Category r)) as [sd|] eqn:Ecat.
  - destruct (dict_get sd (Sub_category r)) as [x|] eqn:Esub.
    + apply dict_get_Some_In in Ecat, Esub. apply (Hw _ _ _ _ Ecat Esub).
    + exists 1. split; [reflexivity|lra].
  - exists 1. split; [reflexivity|lra].
Qed.

Lemma final_row_Fin (weights : dict (dict xreal)) (col : option string)
      (r : row xreal) (v : R) :
  nonneg_weights weights -> Value r = Fin v ->
  exists a, snd (final_row weights col r) = Fin a.
Proof.
  intros Hw Hv. destruct (get_weight_Fin weights r Hw) as [w [Ew _]].
  unfold final_row, add_weighted.
  destruct col as [c|]; [|rewrite Hv, Ew; simpl; eauto].
  destruct (String.eqb c ""); [rewrite Hv, Ew; simpl; eauto|].
  destruct (str_column c r) as [e|s]; [rewrite Hv, Ew; simpl; eauto|].
  destruct (String.eqb (lower s) "cost"); rewrite Hv, Ew; simpl; eauto.
Qed.

Lemma final_row_benefit (weights : dict (dict xreal)) (col : option string)
      (r : row xreal) (v w : R) :
  benefit_under col r -> Value r = Fin v -> get_weight weights r = Fin w ->
  final_row weights col r = (r, Fin (v * w)).
Proof.
  intros Hb Hv Hw. unfold final_row, add_weighted.
  destruct col as [c|]; [|now rewrite Hv, Hw].
  destruct (String.eqb_spec c "") as [->|Hne]; [now rewrite Hv, Hw|].
  destruct Hb as [E|[s [Es Hs]]]; [contradiction|].
  now rewrite Es, Hs, Hv, Hw.
Qed.

(** When all closeness coefficients are the same number, the rescaling
    divides by zero and every score is NaN. *)
Lemma rescale_equal_scores (l : list R) :
  l <> [] -> Rmax_list l = Rmin_list l ->
  rescale (map Fin l) = map (fun _ => NaN) l.
Proof.
  intros Hne Heq. rewrite rescale_map, map_map. apply map_ext. intros a.
  apply rescale_one_flat; [assumption|lra].
Qed.

Lemma Rsum_app (l1 l2 : list R) : Rsum (l1 ++ l2) = Rsum l1 + Rsum l2.
Proof. induction l1 as [|x l1 IH]; simpl; [lra|rewrite IH; lra]. Qed.

Lemma cell_real_middle (d1 d2 : list (row xreal * xreal)) (x : row xreal * xreal)
      (region : string) (col : string * string) :
  cell_real (d1 ++ x :: d2) region col
  = cell_real d1 region col
    + (if in_cell region col x then fin_val (snd x) else 0)
    + cell_real d2 region col.
Proof.
  unfold cell_real. rewrite filter_app, map_app, Rsum_app. cbn [filter].
  unfold weighted_row. destruct (in_cell region col x); cbn [map Rsum]; lra.
Qed.
End TopsisMonotone.

Section TopsisMonotoneClaim.
Local Open Scope R_scope.

Lemma topsis_score_exact (df : list (row xreal * xreal)) (r0 : string) :
  (forall x, In x df -> exists a, snd x = Fin a) ->
  In r0 (pivot_index (pivot_table df)) ->
  dict_get (combine (pivot_index (pivot_table df))
                    (rescale (closeness (pivot_table df)))) r0
  = Some (rescale_one
            (map (xclose (pivot_index (pivot_table df)) (pivot_columns (pivot_table df))
                         (cell_real df))
                 (pivot_index (pivot_table df)))
            (xclose (pivot_index (pivot_table df)) (pivot_columns (pivot_table df))
                    (cell_real df) r0)).
Proof.
  intros Hfin Hr0.
  destruct (pivot_index (pivot_table df)) as [|r1 rs] eqn:Eidx; [contradiction|].
  rewrite <- Eidx in *.
  rewrite (@closeness_exact (pivot_table df) (cell_real df) r1 rs Eidx
             (@pivot_cells_exact df Hfin)).
  rewrite rescale_map, map_map.
  apply (dict_get_combine_map
           (fun r => rescale_one
                       (map (xclose (pivot_index (pivot_table df))
                                    (pivot_columns (pivot_table df)) (cell_real df))
                            (pivot_index (pivot_table df)))
                       (xclose (pivot_index (pivot_table df))
                               (pivot_columns (pivot_table df)) (cell_real df) r))).
  exact Hr0.
Qed.

(** C9 (amended).  In exact arithmetic, for every normalised data set, every
    weight tree without negative weights and every observation [r] of a
    benefit criterion: raising the value of [r] from [v] to [v' >= v], all
    else fixed, does not decrease the final score of the region of [r].
    ([topsis] returns a score for the region before and after; the new score
    is not below the old one, and when both are numbers the old one is at
    most the new one.  A score is no number when all closeness coefficients
    are equal.) *)
Theorem topsis_monotone (pre post : DataFrame xreal) (r : row xreal) (v v' : R)
        (weights : dict (dict xreal)) (criteria_type_col : option string) :
  (forall x, In x (pre ++ r :: post) -> exists a, Value x = Fin a) ->
  nonneg_weights weights ->
  benefit_under criteria_type_col r ->
  Value r = Fin v ->
  v <= v' ->
  exists out out' s s',
    topsis (pre ++ r :: post) weights criteria_type_col = inr out
    /\ topsis (pre ++ set_Value r (Fin v') :: post) weights criteria_type_col = inr out'
    /\ dict_get (score_rows out) (Region r) = Some s
    /\ dict_get (score_rows out') (Region r) = Some s'
    /\ ltb s' s = false
    /\ (forall a b, s = Fin a -> s' = Fin b -> a <= b).
Proof.
  intros Hfin Hw Hben Hv Hle.
  set (r' := set_Value r (Fin v')).
  destruct (get_weight_Fin weights r Hw) as [w [Ew Hw0]].
  assert (Hben' : benefit_under criteria_type_col r') by exact Hben.
  assert (Hvalid : forall nd : DataFrame xreal,
             match criteria_type_col with
             | None => True
             | Some col => String.eqb col "" = true
                           \/ forall x, In x nd -> exists s, str_column col x = inr s
             end).
  { intros nd. destruct criteria_type_col as [col|]; [|exact I].
    destruct Hben as [->|[s [Es _]]]; [now left|]. right.
    intros x _. apply (str_column_total col r s x Es). }
  rewrite (topsis_final _ weights criteria_type_col (Hvalid _)).
  rewrite (topsis_final _ weights criteria_type_col (Hvalid _)).
  cbn [score_rows].
  assert (Er : final_row weights criteria_type_col r = (r, Fin (v * w))).
  { now apply final_row_benefit. }
  assert (Er' : final_row weights criteria_type_col r' = (r', Fin (v' * w))).
  { now apply final_row_benefit. }
  rewrite !map_app. cbn [map]. rewrite Er, Er'.
  set (d1 := map (final_row weights criteria_type_col) pre).
  set (d2 := map (final_row weights criteria_type_col) post).
  set (df := d1 ++ (r, Fin (v * w)) :: d2).
  set (df' := d1 ++ (r', Fin (v' * w)) :: d2).
  assert (Hd : forall d : DataFrame xreal,
             (forall x, In x d -> exists a, Value x = Fin a) ->
             forall x, In x (map (final_row weights criteria_type_col) d) ->
                       exists a, snd x = Fin a).
  { intros d Hdfin x Hx. apply in_map_iff in Hx. destruct Hx as [y [<- Hy]].
    destruct (Hdfin y Hy) as [a Ea]. apply (final_row_Fin weights _ y a Hw Ea). }
  assert (Hdf : forall x, In x df -> exists a, snd x = Fin a).
  { intros x Hx. apply in_app_or in Hx. destruct Hx as [Hx|[<-|Hx]].
    - apply (Hd pre); [|exact Hx]. intros y Hy. apply Hfin. apply in_or_app. now left.
    - simpl. eauto.
    - apply (Hd post); [|exact Hx]. intros y Hy. apply Hfin. apply in_or_app.
      right. now right. }
  assert (Hdf' : forall x, In x df' -> exists a, snd x = Fin a).
  { intros x Hx. apply in_app_or in Hx. destruct Hx as [Hx|[<-|Hx]].
    - apply (Hd pre); [|exact Hx]. intros y Hy. apply Hfin. apply in_or_app. now left.
    - simpl. eauto.
    - apply (Hd post); [|exact Hx]. intros y Hy. apply Hfin. apply in_or_app.
      right. now right. }
  assert (Eidx : pivot_index (pivot_table df') = pivot_index (pivot_table df)).
  { unfold pivot_table, df, df'. cbn [pivot_index]. now rewrite !map_app. }
  assert (Ecols : pivot_columns (pivot_table df') = pivot_columns (pivot_table df)).
  { unfold pivot_table, df, df'. cbn [pivot_columns]. now rewrite !map_app. }
  assert (Hr0 : In (Region r) (pivot_index (pivot_table df))).
  { unfold pivot_table. cbn [pivot_index].
    apply (@sorted_keys_In string String.compare String.compare_eq_iff).
    unfold df. rewrite map_app. apply in_or_app. right. now left. }
  assert (Hr0' : In (Region r) (pivot_index (pivot_table df'))) by now rewrite Eidx.
  pose proof (topsis_score_exact df (Region r) Hdf Hr0) as Hs.
  pose proof (topsis_score_exact df' (Region r) Hdf' Hr0') as Hs'.
  rewrite Ecols in Hs'. rewrite Eidx in Hs' at 2 3 4.
  assert (Hup : cell_real df (Region r) (Category r, Sub_category r)
                <= cell_real df' (Region r) (Category r, Sub_category r)).
  { unfold df, df'. rewrite !cell_real_middle.
    change (in_cell (Region r) (Category r, Sub_category r) (r', Fin (v' * w)))
      with (in_cell (Region r) (Category r, Sub_category r) (r, Fin (v * w))).
    destruct (in_cell (Region r) (Category r, Sub_category r) (r, Fin (v * w)));
      cbn [snd fin_val]; nra. }
  assert (Hsame : forall rg c,
             rg <> Region r \/ c <> (Category r, Sub_category r) ->
             cell_real df' rg c = cell_real df rg c).
  { intros rg c Hne. unfold df, df'. rewrite !cell_real_middle.
    change (in_cell rg c (r', Fin (v' * w))) with (in_cell rg c (r, Fin (v * w))).
    assert (E : in_cell rg c (r, Fin (v * w)) = false).
    { unfold in_cell. cbn [fst]. apply andb_false_iff.
      destruct Hne as [Hn|Hn].
      - left. apply String.eqb_neq. congruence.
      - right. destruct (pair_eqb (Category r, Sub_category r) c) eqn:Ep;
          [|reflexivity]. apply pair_eqb_eq in Ep. congruence. }
    rewrite E. reflexivity. }
  pose proof (raised_final_score (pivot_index (pivot_table df))
                (pivot_columns (pivot_table df)) (cell_real df) (cell_real df')
                (Region r) (Category r, Sub_category r) Hr0 Hup Hsame) as Hmono.
  do 4 eexists. split; [reflexivity|]. split; [reflexivity|].
  cbn [score_rows]. split; [exact Hs|]. split; [exact Hs'|]. split; [exact Hmono|].
  intros a b Ea Eb. rewrite Ea, Eb in Hmono. simpl in Hmono.
  destruct (Rlt_dec b a); [discriminate|lra].
Qed.
End TopsisMonotoneClaim.

Section TopsisMonotoneWitness.
Import Scenario.
Local Open Scope R_scope.

Lemma distance_weights_nonneg : nonneg_weights distance_weights.
Proof.
  intros cat sd sub_cat x [E|[]] Hin. inversion E; subst.
  destruct Hin as [E'|[]]. inversion E'; subst. exists 1. split; [reflexivity|lra].
Qed.

Lemma topsis_monotone_witness :
  benefit_under (Some "Cost/Benefit"%string)
                (mkrow "Region1" "Accessibility" "Distance" (Fin 0) "Benefit")
  /\ 0 <= 1 / 2
  /\ exists out out' s s',
       topsis (T:=xreal) ascending_norm distance_weights (Some "Cost/Benefit"%string)
       = inr out
       /\ topsis (T:=xreal)
                 [ mkrow "Region1" "Accessibility" "Distance" (Fin (1 / 2)) "Benefit";
                   mkrow "Region2" "Accessibility" "Distance" (of_Z 1) "Benefit" ]
                 distance_weights (Some "Cost/Benefit"%string)
          = inr out'
       /\ dict_get (score_rows out) "Region1" = Some s
       /\ dict_get (score_rows out') "Region1" = Some s'
       /\ ltb s' s = false.
Proof.
  assert (Hben : benefit_under (Some "Cost/Benefit"%string)
                   (mkrow "Region1" "Accessibility" "Distance" (Fin 0) "Benefit")).
  { right. exists "Benefit"%string. split; reflexivity. }
  split; [exact Hben|]. split; [lra|].
  destruct (topsis_monotone []
              [mkrow "Region2" "Accessibility" "Distance" (of_Z 1) "Benefit"]
              (mkrow "Region1" "Accessibility" "Distance" (Fin 0) "Benefit")
              0 (1 / 2) distance_weights (Some "Cost/Benefit"%string))
    as [out [out' [s [s' [E [E' [Hs [Hs' [Hlt _]]]]]]]]].
  - intros x [<-|[<-|[]]]; simpl; eauto.
  - exact distance_weights_nonneg.
  - exact Hben.
  - reflexivity.
  - lra.
  - exists out, out', s, s'. repeat split; assumption.
Defined.
End TopsisMonotoneWitness.

(** * Further properties of the code *)

(** ** [topsis]: the weight tree and the criteria-type column *)

Section TopsisInputs.
Context {T : Type} `{Numeric T}.

Lemma get_weight_set_other (weights : dict (dict T)) (k : string) (v : dict T)
      (r : row T) :
  Category r <> k -> get_weight (dict_set weights k v) r = get_weight weights r.
Proof.
  intros Hne. unfold get_weight.
  rewrite (@dict_get_set_other _ weights k (Category r) v); [reflexivity|congruence].
Qed.

(** X1.  The weights of a category that no observation belongs to (the
    ["General"] sheet of category weights, say) have no effect on the
    scores. *)
Theorem topsis_ignores_absent_category (norm_data : DataFrame T)
        (weights : dict (dict T)) (k : string) (v : dict T)
        (criteria_type_col : option string) :
  (forall r, In r norm_data -> Category r <> k) ->
  topsis norm_data (dict_set weights k v) criteria_type_col
  = topsis norm_data weights criteria_type_col.
Proof.
  intros Habs.
  assert (E : map (add_weighted (dict_set weights k v)) norm_data
              = map (add_weighted weights) norm_data).
  { apply map_ext_in. intros r Hr. unfold add_weighted.
    now rewrite (get_weight_set_other weights k v r (Habs r Hr)). }
  unfold topsis. rewrite E. reflexivity.
Qed.

(** X2.  On data with at least one row, a criteria-type column that the
    frame does not have is a [KeyError]. *)
Theorem topsis_missing_column_KeyError (r : row T) (norm_data : DataFrame T)
        (weights : dict (dict T)) (col : string) :
  ~ In col ["Region"; "Category"; "Sub-category"; "Cost/Benefit";
            "Value"; "Weight"; "Weighted"; ""]%string ->
  topsis (r :: norm_data) weights (Some col) = inl (KeyError col).
Proof.
  intros Hcol. unfold topsis. cbn [map].
  assert (Hne : forall c, In c ["Region"; "Category"; "Sub-category"; "Cost/Benefit";
                                 "Value"; "Weight"; "Weighted"; ""]%string ->
                          String.eqb col c = false).
  { intros c Hc. apply String.eqb_neq. intros ->. contradiction. }
  rewrite (Hne ""%string) by (simpl; tauto).
  cbn [adjust_costs]. unfold adjust_cost, str_column. cbn [fst].
  rewrite !Hne by (simpl; tauto). reflexivity.
Qed.
End TopsisInputs.

(** ** [min_max_normalize]: values that do not parse *)

(** X3.  When a value of the data does not parse, the normaliser raises a
    [ValueError] and returns no frame. *)
Theorem min_max_normalize_parse_error {T : Type} `{Numeric T}
        (to_numeric : string -> option T) (data : DataFrame string) :
  (exists r, In r data /\ to_numeric (clean (Value r)) = None) ->
  exists msg, min_max_normalize to_numeric data = inl (ValueError msg).
Proof.
  intros Hbad.
  assert (Hp : exists msg, parse_values to_numeric data = inl (ValueError msg)).
  { induction data as [|d data IH]; [destruct Hbad as [r [[] _]]|].
    cbn [parse_values]. destruct (to_numeric (clean (Value d))) as [v|] eqn:Ev.
    - assert (Hrest : exists r, In r data /\ to_numeric (clean (Value r)) = None).
      { destruct Hbad as [r [[<-|Hr] Hn]]; [congruence|eauto]. }
      destruct (IH Hrest) as [msg E]. rewrite E. eexists. reflexivity.
    - eexists. reflexivity. }
  destruct Hp as [msg E]. unfold min_max_normalize. rewrite E. eexists. reflexivity.
Qed.

Section InputWitnesses.
Import Scenario.
Local Open Scope string_scope.

Lemma topsis_ignores_absent_category_witness :
  (forall r, In r (distance_norm (T:=float)) -> Category r <> "General")
  /\ topsis (T:=float) distance_norm
            (dict_set distance_weights "General" [("Accessibility", of_Z 1)]) None
     = topsis distance_norm distance_weights None.
Proof.
  assert (Habs : forall r, In r (distance_norm (T:=float)) -> Category r <> "General").
  { intros r [<-|[<-|[]]]; discriminate. }
  split; [exact Habs|].
  apply (topsis_ignores_absent_category distance_norm distance_weights "General"
           [("Accessibility", of_Z 1)] None Habs).
Defined.

Lemma topsis_missing_column_KeyError_witness :
  ~ In "Type" ["Region"; "Category"; "Sub-category"; "Cost/Benefit";
               "Value"; "Weight"; "Weighted"; ""]
  /\ topsis (T:=float) distance_norm distance_weights (Some "Type")
     = inl (KeyError "Type").
Proof.
  assert (Hcol : ~ In "Type" ["Region"; "Category"; "Sub-category"; "Cost/Benefit";
                              "Value"; "Weight"; "Weighted"; ""]).
  { simpl. intros H. repeat destruct H as [H|H]; try discriminate H; exact H. }
  split; [exact Hcol|].
  apply (topsis_missing_column_KeyError
           (mkrow "Region1" "Accessibility" "Distance" (of_Z 1 : float) "Cost")
           [mkrow "Region2" "Accessibility" "Distance" (of_Z 0 : float) "Cost"]
           distance_weights "Type" Hcol).
Defined.

Lemma min_max_normalize_parse_error_witness :
  (exists r, In r [mkrow "Region1" "Accessibility" "Distance" "n/a" "Cost"]
             /\ to_numeric_decimal (T:=float) (clean (Value r)) = None)
  /\ exists msg,
       min_max_normalize (T:=float) to_numeric_decimal
                         [mkrow "Region1" "Accessibility" "Distance" "n/a" "Cost"]
       = inl (ValueError msg).
Proof.
  assert (Hbad : exists r, In r [mkrow "Region1" "Accessibility" "Distance" "n/a" "Cost"]
                           /\ to_numeric_decimal (T:=float) (clean (Value r)) = None).
  { eexists. split; [left; reflexivity|reflexivity]. }
  split; [exact Hbad|].
  apply (min_max_normalize_parse_error to_numeric_decimal _ Hbad).
Defined.
End InputWitnesses.

(** ** [cat_config]: the category tree *)

Section Categories.
Context {V : Type}.

Lemma dict_get_app {A : Type} (d d' : dict A) (k : string) :
  dict_get (d ++ d') k
  = match dict_get d k with
    | Some v => Some v
    | None => dict_get d' k
    end.
Proof.
  induction d as [|[k' v'] d IH]; simpl; [reflexivity|].
  destruct (String.eqb k' k); [reflexivity|exact IH].
Qed.

Lemma add_sub_category_get (categories : dict (dict (list string))) (r : row V)
      (reg cat : string) :
  categories_get (add_sub_category categories r) reg cat
  = if row_in reg cat r
    then Some (match categories_get categories reg cat with
               | Some subs => subs
               | None => []
               end ++ [Sub_category r])
    else categories_get categories reg cat.
Proof.
  unfold add_sub_category, setdefault, categories_get, row_in.
  destruct (dict_get categories (Region r)) as [by_cat|] eqn:Ereg.
  - destruct (dict_get by_cat (Category r)) as [subs|] eqn:Ecat.
    + destruct (String.eqb_spec (Region r) reg) as [<-|Hreg].
      * rewrite dict_get_set_same, Ereg.
        destruct (String.eqb_spec (Category r) cat) as [<-|Hcat]; simpl.
        -- now rewrite dict_get_set_same, Ecat.
        -- now rewrite dict_get_set_other.
      * simpl. now rewrite dict_get_set_other.
    + destruct (String.eqb_spec (Region r) reg) as [<-|Hreg].
      * rewrite dict_get_set_same, Ereg.
        destruct (String.eqb_spec (Category r) cat) as [<-|Hcat]; simpl.
        -- now rewrite dict_get_set_same, Ecat.
        -- rewrite dict_get_set_other by assumption.
           rewrite dict_get_app. destruct (dict_get by_cat cat); [reflexivity|].
           simpl. destruct (String.eqb_spec (Category r) cat); [contradiction|reflexivity].
      * simpl. now rewrite dict_get_set_other.
  - cbn [dict_get app].
    destruct (String.eqb_spec (Region r) reg) as [<-|Hreg].
    + rewrite dict_get_set_same, Ereg.
      destruct (String.eqb_spec (Category r) cat) as [<-|Hcat]; simpl.
      * rewrite String.eqb_refl. simpl. now rewrite String.eqb_refl.
      * rewrite String.eqb_refl. simpl.
        destruct (String.eqb_spec (Category r) cat); [contradiction|reflexivity].
    + simpl. rewrite dict_get_set_other by assumption.
      rewrite dict_get_app. destruct (dict_get categories reg); [reflexivity|].
      simpl. destruct (String.eqb_spec (Region r) reg); [contradiction|reflexivity].
Qed.

(** X4.  [categories[reg][cat]] lists the sub-categories of the rows of the
    region [reg] and the category [cat], in the order of the rows and once
    per row; the keys are absent when there is no such row. *)
Theorem build_categories_lists_rows (df_final : DataFrame V) (reg cat : string) :
  categories_get (build_categories df_final) reg cat
  = match map (@Sub_category V) (filter (row_in reg cat) df_final) with
    | [] => None
    | subs => Some subs
    end.
Proof.
  unfold build_categories.
  induction df_final as [|r df IH] using rev_ind; [reflexivity|].
  rewrite fold_left_app. cbn [fold_left].
  rewrite add_sub_category_get, IH, filter_app, map_app. cbn [filter].
  destruct (row_in reg cat r); cbn [map].
  - destruct (map (@Sub_category V) (filter (row_in reg cat) df)); reflexivity.
  - now rewrite app_nil_r.
Qed.
End Categories.

(** ** [cat_config]: the names of the sheets *)

Lemma py_take_len (n : nat) (s : string) : (py_len (py_take n s) <= n)%nat.
Proof.
  revert n. induction s as [|c s IH]; intros n; cbn [py_take py_len]; [lia|].
  destruct (is_continuation c) eqn:Ec.
  - cbn [py_len]. rewrite Ec. apply IH.
  - destruct n as [|k]; cbn [py_len]; [lia|]. rewrite Ec. specialize (IH k). lia.
Qed.

Lemma pairwise_sheets_names {T V : Type} `{Numeric T} (df_final : DataFrame V)
      (name : string) :
  In name (map fst (pairwise_sheets (T:=T) df_final)) -> (py_len name <= 25)%nat.
Proof.
  unfold pairwise_sheets. cbn [map fst]. intros [<-|Hin].
  - vm_compute. lia.
  - apply in_map_iff in Hin. destruct Hin as [[name' m] [E Hin]]. cbn [fst] in E. subst name'.
    apply in_flat_map in Hin. destruct Hin as [cat [_ Hin]].
    destruct (1 <? List.length (subs_of df_final cat))%nat; [|destruct Hin].
    destruct Hin as [E|[]]. inversion E; subst. apply py_take_len.
Qed.

Lemma ahp_loop_other {T : Type} `{Numeric T} `{Power T} (sheets : dict (Matrix T))
      (acc : dict (dict T)) (printed : list string) (fw : dict (dict T))
      (name : string) :
  ahp_loop sheets acc = (printed, inr fw) ->
  ~ In name (dict_keys sheets) ->
  dict_get fw name = dict_get acc name.
Proof.
  revert acc printed. induction sheets as [|[name0 df0] sheets IH]; intros acc printed E Hout.
  - simpl in E. now inversion E.
  - simpl in E. destruct (ahp_sheet name0 df0) as [p0 [e|w0]]; [discriminate|].
    destruct (ahp_loop sheets (dict_set acc name0 w0)) as [p1 r1] eqn:E1.
    inversion E; subst. rewrite (IH _ _ E1).
    + apply dict_get_set_other. intros ->. apply Hout. now left.
    + intros Hin. apply Hout. now right.
Qed.

(** X5.  The sheets of the workbook are named by the first 25 characters of
    a category, and [topsis] looks the weights up by the whole name: with
    weights read from sheets of these names, every row of a category whose
    name is longer than 25 characters gets the weight 1.0, whatever its
    sheet said. *)
Theorem long_category_weights_unused {T V : Type} `{Numeric T} `{Power T}
        (df_final : DataFrame V) (weights_dict : dict (Matrix T))
        (printed : list string) (final_weights : dict (dict T)) (r : row T) :
  (forall name, In name (dict_keys weights_dict) ->
                In name (map fst (pairwise_sheets (T:=T) df_final))) ->
  ahp_weights weights_dict = (printed, inr final_weights) ->
  (25 < py_len (Category r))%nat ->
  get_weight final_weights r = one.
Proof.
  intros Hnames E Hlong. unfold get_weight.
  rewrite (ahp_loop_other weights_dict [] printed final_weights (Category r) E).
  - reflexivity.
  - intros Hin. apply Hnames in Hin. apply pairwise_sheets_names in Hin. lia.
Qed.

(** ** [cat_config] and [ahp_weights]: a template left as it was written *)

Section IdentityTemplate.
Local Open Scope R_scope.

Lemma list_eqb_refl (l : list string) : list_eqb l l = true.
Proof.
  unfold list_eqb. rewrite Nat.eqb_refl. cbn [andb].
  induction l as [|x l IH]; [reflexivity|].
  cbn [combine forallb fst snd]. now rewrite String.eqb_refl.
Qed.

Lemma Rprod_zero (l : list R) : In 0 l -> Rprod l = 0.
Proof.
  induction l as [|x l IH]; [intros []|].
  intros [->|Hin]; cbn [Rprod]; [lra|]. rewrite (IH Hin). lra.
Qed.

Lemma eye_exact (n : nat) :
  eye (T:=xreal) n = map (map Fin) (map (Reye_row n) (seq 0 n)).
Proof.
  unfold eye, Reye_row. rewrite !map_map. apply map_ext. intros i.
  rewrite map_map. apply map_ext. intros j. now destruct (i =? j)%nat.
Qed.

Lemma Reye_row_zero (n i : nat) : (2 <= n)%nat -> Rprod (Reye_row n i) = 0.
Proof.
  intros Hn. apply Rprod_zero. unfold Reye_row. apply in_map_iff.
  destruct i as [|i].
  - exists 1%nat. split; [reflexivity|]. apply in_seq. lia.
  - exists 0%nat. split; [reflexivity|]. apply in_seq. lia.
Qed.

Lemma pow_zero_fraction (e : R) : 0 < e < 1 -> pow (Fin 0) (Fin e) = Fin 0.
Proof.
  intros He. cbn [pow xreal_power]. unfold xpow.
  destruct (Rlt_dec 0 0) as [Hlt|_]; [lra|].
  destruct (Req_dec_T e (IZR (Int_part e))) as [Eint|_].
  - exfalso. rewrite Eint in He. destruct He as [H0 H1].
    apply lt_IZR in H0. apply lt_IZR in H1. lia.
  - destruct (Req_dec_T 0 0) as [_|Hne]; [|lra].
    destruct (Rlt_dec e 0); [lra|reflexivity].
Qed.

Lemma allclose_second_cell {T : Type} `{Numeric T} (atol a0 a1 b0 b1 : T)
      (ra rb : list T) (rest rest' : list (list T)) :
  isclose atol a1 b1 = false ->
  allclose atol ((a0 :: a1 :: ra) :: rest) ((b0 :: b1 :: rb) :: rest') = false.
Proof.
  intros E. unfold allclose. cbn [combine forallb fst snd]. rewrite E.
  now rewrite andb_false_r.
Qed.

Lemma isclose_zero_NaN (atol : xreal) : isclose atol (Fin 0) NaN = false.
Proof. unfold isclose. now rewrite andb_false_r. Qed.

Lemma map_const {A B C : Type} (c : C) (l : list A) (l' : list B) :
  List.length l = List.length l' ->
  map (fun _ => c) l = map (fun _ => c) l'.
Proof.
  revert l'. induction l as [|x l IH]; intros [|y l'] E; try discriminate E; [reflexivity|].
  cbn [map]. f_equal. apply IH. now inversion E.
Qed.

(** X6.  A pairwise template of two or more items that is given to
    [ahp_weights] as [create_pairwise_matrix] wrote it (ones on the
    diagonal, zeros elsewhere) is reported as not reciprocal, and every item
    gets the weight NaN: each row has the product 0, so the geometric means
    sum to 0. *)
Theorem ahp_identity_template (sheet_name : string) (items : list string) :
  (2 <= List.length items)%nat ->
  ahp_sheet (T:=xreal) sheet_name (create_pairwise_matrix items)
  = ([reciprocity_warning sheet_name],
     inr (dict_zip items (map (fun _ => NaN) items))).
Proof.
  intros Hn. unfold ahp_sheet, create_pairwise_matrix.
  cbn [index columns values]. rewrite Nat.eqb_refl, list_eqb_refl. cbn [negb].
  set (n := List.length items) in *.
  assert (Hwarn : allclose (decimal 1 2) (eye n)
                           (map (map (div one)) (transpose n (eye (T:=xreal) n)))
                  = false).
  { destruct n as [|[|m]]; [lia|lia|].
    unfold transpose, eye. cbn [seq map nth Nat.eqb].
    apply allclose_second_cell.
    rewrite one_Fin, zero_Fin, div_Fin_0. apply isclose_zero_NaN. }
  rewrite Hwarn. cbn [negb].
  destruct n as [|k] eqn:En; [lia|]. rewrite <- En in *.
  assert (Hn0 : IZR (Z.of_nat n) <> 0) by (apply not_0_IZR; lia).
  change (of_Z 1) with (Fin 1).
  change (of_Z (Z.of_nat n)) with (Fin (IZR (Z.of_nat n))).
  rewrite (div_Fin 1 Hn0).
  assert (He : 0 < 1 / IZR (Z.of_nat n) < 1).
  { assert (2 <= IZR (Z.of_nat n)) by (apply IZR_le; lia).
    split.
    - apply Rdiv_lt_0_compat; lra.
    - apply Rmult_lt_reg_r with (IZR (Z.of_nat n)); [lra|].
      unfold Rdiv. rewrite Rmult_assoc, Rinv_l by lra. lra. }
  assert (Eg : map (fun r => pow (np_prod r) (Fin (1 / IZR (Z.of_nat n)))) (eye n)
               = map Fin (map (fun _ => 0) (seq 0 n))).
  { rewrite eye_exact, !map_map. apply map_ext. intros i.
    rewrite np_prod_Fin, Reye_row_zero by lia. now apply pow_zero_fraction. }
  rewrite Eg, py_sum_Fin.
  assert (Es : Rsum (map (fun _ : nat => 0) (seq 0 n)) = 0).
  { apply Rsum_zero. intros; reflexivity. }
  rewrite Es, !map_map. unfold reciprocity_warning, ret. do 3 f_equal.
  transitivity (map (fun _ : nat => NaN) (seq 0 n)).
  - apply map_ext. intros i. apply div_Fin_0.
  - apply map_const. rewrite length_seq. reflexivity.
Qed.
End IdentityTemplate.

(** ** [ahp_weights]: the reciprocity check *)

Section Reciprocity.
Local Open Scope R_scope.

Lemma isclose_Fin (x y : R) :
  isclose (decimal 1 2) (Fin x) (Fin y) = true
  <-> Rabs (x - y) <= 1 / 100 + 1 / 100000 * Rabs y.
Proof.
  unfold isclose, isfinite. rewrite !sub_Fin, zero_Fin.
  assert (Ex : eqb (Fin (x - x)) (Fin 0) = true) by (apply eqb_Fin; lra).
  assert (Ey : eqb (Fin (y - y)) (Fin 0) = true) by (apply eqb_Fin; lra).
  rewrite Ex, Ey. cbn [andb].
  cbn [decimal xreal_numeric abs xabs add mul xlift2 leb xleb].
  change (IZR (10 ^ Z.of_nat 2)) with 100.
  change (IZR (10 ^ Z.of_nat 5)) with 100000.
  destruct (Rle_dec (Rabs (x - y)) (1 / 100 + 1 / 100000 * Rabs y)); split; intros; try assumption; try reflexivity; try discriminate; contradiction.
Qed.

Lemma transpose_cells (n : nat) (a : nat -> nat -> R) :
  transpose n (cells_of n a) = cells_of n (fun i j => a j i).
Proof.
  unfold transpose, cells_of. apply map_ext_in. intros j Hj. apply in_seq in Hj.
  rewrite map_map. apply map_ext_in. intros i Hi.
  rewrite nth_indep with (d' := Fin (a i O)) by (rewrite length_map, length_seq; lia).
  rewrite (map_nth (fun j0 => Fin (a i j0)) (seq 0 n) O j).
  rewrite seq_nth by lia. reflexivity.
Qed.

Lemma allclose_cells (n : nat) (a : nat -> nat -> R) :
  (forall i j, (i < n)%nat -> (j < n)%nat -> a i j <> 0) ->
  allclose (decimal 1 2) (cells_of n a)
           (map (map (div one)) (transpose n (cells_of n a))) = true
  <-> reciprocal_within n a.
Proof.
  intros Hnz. rewrite transpose_cells. unfold allclose, cells_of.
  rewrite map_map.
  rewrite (combine_map_same (fun i => map (fun j => Fin (a i j)) (seq 0 n))
             (fun i => map (div one) (map (fun j => Fin (a j i)) (seq 0 n)))).
  rewrite forallb_forall. unfold reciprocal_within. split.
  - intros Hall i j Hi Hj.
    assert (Hi' : In i (seq 0 n)) by (apply in_seq; lia).
    assert (Hj' : In j (seq 0 n)) by (apply in_seq; lia).
    specialize (Hall _ (in_map _ _ i Hi')).
    cbn [fst snd] in Hall. rewrite map_map in Hall.
    rewrite (combine_map_same (fun j => Fin (a i j))
               (fun j => div one (Fin (a j i)))) in Hall.
    rewrite forallb_forall in Hall.
    specialize (Hall _ (in_map _ _ j Hj')).
    cbn [fst snd] in Hall. rewrite one_Fin, (div_Fin 1 (Hnz j i Hj Hi)) in Hall.
    now apply isclose_Fin.
  - intros Hrec rs Hrs. apply in_map_iff in Hrs. destruct Hrs as [i [<- Hi]].
    apply in_seq in Hi. cbn [fst snd]. rewrite map_map.
    rewrite (combine_map_same (fun j => Fin (a i j))
               (fun j => div one (Fin (a j i)))).
    rewrite forallb_forall. intros xy Hxy. apply in_map_iff in Hxy.
    destruct Hxy as [j [<- Hj]]. apply in_seq in Hj. cbn [fst snd].
    rewrite one_Fin, (@div_Fin 1 _ (Hnz j i ltac:(lia) ltac:(lia))).
    apply isclose_Fin. apply Hrec; lia.
Qed.

(** X7.  For a square sheet without zero cells, [ahp_weights] prints
    nothing when every cell is within [0.01 + 1e-5 * |1 / a_ji|] of the
    reciprocal of its mirror cell, and the one warning line otherwise. *)
Theorem ahp_warning_exact (sheet_name : string) (df : Matrix xreal)
        (a : nat -> nat -> R) :
  List.length (columns df) = List.length (index df) ->
  values df = cells_of (List.length (index df)) a ->
  (forall i j, (i < List.length (index df))%nat -> (j < List.length (index df))%nat ->
               a i j <> 0) ->
  (reciprocal_within (List.length (index df)) a ->
   fst (ahp_sheet sheet_name df) = [])
  /\ (~ reciprocal_within (List.length (index df)) a ->
      fst (ahp_sheet sheet_name df) = [reciprocity_warning sheet_name]).
Proof.
  intros Hsq Hval Hnz. pose proof (allclose_cells _ a Hnz) as Hiff.
  unfold ahp_sheet. rewrite Hsq, Nat.eqb_refl. cbn [negb]. rewrite Hval.
  destruct (allclose (decimal 1 2) (cells_of (List.length (index df)) a)
              (map (map (div one))
                   (transpose (List.length (index df))
                              (cells_of (List.length (index df)) a)))) eqn:E.
  - split.
    + intros _. cbn [negb]. now destruct (List.length (index df)).
    + intros Hnot. exfalso. apply Hnot. now apply Hiff.
  - split.
    + intros Hrec. apply Hiff in Hrec. discriminate.
    + intros _. cbn [negb]. now destruct (List.length (index df)).
Qed.
End Reciprocity.

(** ** [ahp_weights]: a consistent matrix gives back its priorities *)

Section Consistent.
Local Open Scope R_scope.

Lemma Rprod_ratio (wi : R) (ws : list R) :
  Forall (fun w => 0 < w) ws ->
  Rprod (map (fun wj => wi / wj) ws) = wi ^ List.length ws / Rprod ws.
Proof.
  induction 1 as [|w ws Hw Hws IH]; cbn [map Rprod List.length Rpow_def.pow]; [field|].
  pose proof (Rprod_pos Hws) as HP.
  rewrite IH. field. split; lra.
Qed.

Lemma geometric_mean_ratio (wi P : R) (n : nat) :
  0 < wi -> 0 < P -> (0 < n)%nat ->
  Rpower (wi ^ n / P) (1 / IZR (Z.of_nat n))
  = wi / Rpower P (1 / IZR (Z.of_nat n)).
Proof.
  intros Hwi HP Hn.
  assert (Hpow : 0 < wi ^ n) by now apply pow_lt.
  assert (Hn0 : IZR (Z.of_nat n) <> 0) by (apply not_0_IZR; lia).
  assert (HiP : 0 < / P) by now apply Rinv_0_lt_compat.
  unfold Rpower. change (wi ^ n / P) with (wi ^ n * / P).
  rewrite ln_mult, ln_Rinv, ln_pow by assumption.
  rewrite INR_IZR_INZ.
  replace (1 / IZR (Z.of_nat n) * (IZR (Z.of_nat n) * ln wi + - ln P))
    with (ln wi + - (1 / IZR (Z.of_nat n) * ln P)) by (field; assumption).
  rewrite exp_plus, exp_Ropp, exp_ln by assumption. reflexivity.
Qed.

Lemma sheet_weights_consistent (ws : list R) :
  ws <> [] -> Forall (fun w => 0 < w) ws ->
  sheet_weights (List.length ws) (consistent_rows ws)
  = map (fun w => w / Rsum ws) ws.
Proof.
  intros Hne Hpos. unfold sheet_weights, consistent_rows. cbv zeta.
  set (n := List.length ws).
  set (G := Rpower (Rprod ws) (1 / IZR (Z.of_nat n))).
  assert (HG : 0 < G) by apply exp_pos.
  assert (Hn : (0 < n)%nat) by (unfold n; destruct ws; [contradiction|simpl; lia]).
  assert (Eg : map (fun r => Rpower (Rprod r) (1 / IZR (Z.of_nat n)))
                   (map (fun wi => map (fun wj => wi / wj) ws) ws)
               = map (fun w => w / G) ws).
  { rewrite map_map. apply map_ext_in. intros wi Hwi.
    rewrite Rprod_ratio by assumption. apply geometric_mean_ratio.
    - rewrite Forall_forall in Hpos. now apply Hpos.
    - now apply Rprod_pos.
    - exact Hn. }
  rewrite Eg, map_map, Rsum_map_div.
  pose proof (Rsum_pos Hpos Hne) as Hs.
  apply map_ext. intros w. field. split; lra.
Qed.

Lemma consistent_cells (ws : list R) :
  map (map Fin) (consistent_rows ws)
  = cells_of (List.length ws) (fun i j => nth i ws 1 / nth j ws 1).
Proof.
  unfold consistent_rows, cells_of. rewrite map_map.
  rewrite <- (map_seq_nth (fun wi => map Fin (map (fun wj => wi / wj) ws)) ws 1).
  apply map_ext. intros i. rewrite map_map.
  now rewrite <- (map_seq_nth (fun wj => Fin (nth i ws 1 / wj)) ws 1).
Qed.

(** X8.  When every cell of a sheet is the ratio [w_i / w_j] of positive
    priorities, [ahp_weights] prints no warning for it and gives item [i] the
    weight [w_i / sum(w)]. *)
Theorem ahp_consistent_matrix (sheet_name : string) (items : list string)
        (ws : list R) :
  List.length ws = List.length items ->
  ws <> [] ->
  Forall (fun w => 0 < w) ws ->
  ahp_sheet sheet_name (mkMatrix items items (map (map Fin) (consistent_rows ws)))
  = ([], inr (dict_zip items (map (fun w => Fin (w / Rsum ws)) ws))).
Proof.
  intros Hlen Hne Hpos.
  set (df := mkMatrix items items (map (map Fin) (consistent_rows ws))).
  assert (Hnth : forall i, (i < List.length ws)%nat -> 0 < nth i ws 1).
  { intros i Hi. rewrite Forall_forall in Hpos. apply Hpos. now apply nth_In. }
  assert (Hfst : fst (ahp_sheet sheet_name df) = []).
  { pose proof (allclose_cells (List.length ws)
                  (fun i j => nth i ws 1 / nth j ws 1)) as Hiff.
    unfold ahp_sheet, df. cbn [index columns values].
    rewrite Nat.eqb_refl. cbn [negb]. rewrite consistent_cells, <- Hlen.
    assert (Hclose : allclose (decimal 1 2)
                       (cells_of (List.length ws) (fun i j => nth i ws 1 / nth j ws 1))
                       (map (map (div one))
                            (transpose (List.length ws)
                               (cells_of (List.length ws)
                                         (fun i j => nth i ws 1 / nth j ws 1))))
                     = true).
    { apply Hiff.
      - intros i j Hi Hj. pose proof (Hnth i Hi). pose proof (Hnth j Hj).
        apply Rgt_not_eq. now apply Rdiv_lt_0_compat.
      - intros i j Hi Hj. pose proof (Hnth i Hi). pose proof (Hnth j Hj).
        replace (nth i ws 1 / nth j ws 1 - 1 / (nth j ws 1 / nth i ws 1)) with 0
          by (field; split; lra).
        rewrite Rabs_R0. pose proof (Rabs_pos (1 / (nth j ws 1 / nth i ws 1))). lra. }
    rewrite Hclose. cbn [negb]. now destruct (List.length ws). }
  assert (Hsnd : snd (ahp_sheet sheet_name df)
                 = inr (dict_zip items (map (fun w => Fin (w / Rsum ws)) ws))).
  { rewrite (@ahp_sheet_exact sheet_name df (consistent_rows ws)).
    - unfold df. cbn [index columns]. rewrite <- Hlen, sheet_weights_consistent by assumption.
      now rewrite map_map.
    - reflexivity.
    - unfold consistent_rows. destruct ws; [contradiction|discriminate].
    - unfold df, consistent_rows. cbn [index]. now rewrite length_map.
    - reflexivity.
    - unfold consistent_rows. apply Forall_forall. intros r Hr.
      apply in_map_iff in Hr. destruct Hr as [wi [<- Hwi]].
      apply Rprod_pos. apply Forall_forall. intros x Hx.
      apply in_map_iff in Hx. destruct Hx as [wj [<- Hwj]].
      rewrite Forall_forall in Hpos. apply Rdiv_lt_0_compat; now apply Hpos. }
  destruct (ahp_sheet sheet_name df) as [p r]. cbn [fst snd] in Hfst, Hsnd.
  now subst.
Qed.
End Consistent.

Section CatConfigWitnesses.
Import Template.
Local Open Scope string_scope.

Lemma long_category_weights_unused_witness :
  (forall name, In name (dict_keys edited_sheets) ->
                In name (map fst (pairwise_sheets (T:=xreal) default_data)))
  /\ (25 < py_len "Infrastructure and Accessibility")%nat
  /\ exists printed final_weights,
       ahp_weights edited_sheets = (printed, inr final_weights)
       /\ get_weight final_weights
            (mkrow "A" "Infrastructure and Accessibility" "Highways" (Fin 1) "Cost")
          = one.
Proof.
  assert (Hnames : forall name, In name (dict_keys edited_sheets) ->
                     In name (map fst (pairwise_sheets (T:=xreal) default_data))).
  { intros name [<-|[]]. vm_compute. right. right. left. reflexivity. }
  assert (Hlong : (25 < py_len "Infrastructure and Accessibility")%nat).
  { vm_compute. lia. }
  split; [exact Hnames|]. split; [exact Hlong|].
  destruct (ahp_loop_returns edited_sheets) with (acc := @nil (string * dict xreal))
    as [printed [fw E]].
  { intros name df [Ein|[]]. inversion Ein; subst. split; [reflexivity|discriminate]. }
  exists printed, fw. split; [exact E|].
  apply (long_category_weights_unused default_data edited_sheets printed fw
           (mkrow "A" "Infrastructure and Accessibility" "Highways" (Fin 1) "Cost")
           Hnames E Hlong).
Defined.

Lemma ahp_identity_template_witness :
  (2 <= List.length ["Highways"; "Railway"])%nat
  /\ ahp_sheet (T:=xreal) "Infrastructure and Access"
               (create_pairwise_matrix ["Highways"; "Railway"])
     = ([reciprocity_warning "Infrastructure and Access"],
        inr (dict_zip ["Highways"; "Railway"]
                      (map (fun _ => NaN) ["Highways"; "Railway"]))).
Proof.
  assert (Hn : (2 <= List.length ["Highways"; "Railway"])%nat) by (simpl; lia).
  split; [exact Hn|].
  apply (ahp_identity_template "Infrastructure and Access" ["Highways"; "Railway"] Hn).
Defined.
End CatConfigWitnesses.

Section AhpWitnesses.
Import Scenario.
Local Open Scope string_scope.
Local Open Scope R_scope.

Lemma saaty_cell_nonzero (i j : nat) :
  (i < 2)%nat -> (j < 2)%nat -> saaty_cell i j <> 0.
Proof.
  intros Hi Hj. destruct i as [|[|i]]; [| |lia]; (destruct j as [|[|j]]; [| |lia]);
    unfold saaty_cell; simpl; lra.
Qed.

Lemma saaty_cell_reciprocal : reciprocal_within 2 saaty_cell.
Proof.
  intros i j Hi Hj.
  assert (E : saaty_cell i j - 1 / saaty_cell j i = 0).
  { destruct i as [|[|i]]; [| |lia]; (destruct j as [|[|j]]; [| |lia]);
      unfold saaty_cell; simpl; field. }
  rewrite E, Rabs_R0. pose proof (Rabs_pos (1 / saaty_cell j i)). lra.
Qed.

Lemma ahp_warning_exact_witness :
  List.length (columns saaty_matrix) = List.length (index saaty_matrix)
  /\ values saaty_matrix = cells_of (List.length (index saaty_matrix)) saaty_cell
  /\ (forall i j, (i < List.length (index saaty_matrix))%nat ->
                  (j < List.length (index saaty_matrix))%nat -> saaty_cell i j <> 0)
  /\ fst (ahp_sheet "Economy" saaty_matrix) = [].
Proof.
  split; [reflexivity|]. split; [reflexivity|]. split; [exact saaty_cell_nonzero|].
  destruct (ahp_warning_exact "Economy" saaty_matrix saaty_cell eq_refl eq_refl
              saaty_cell_nonzero) as [Hquiet _].
  exact (Hquiet saaty_cell_reciprocal).
Defined.

Lemma ahp_consistent_matrix_witness :
  List.length [2; 1] = List.length ["Income"; "Jobs"]
  /\ [2; 1] <> []
  /\ Forall (fun w => 0 < w) [2; 1]
  /\ ahp_sheet "Economy"
               (mkMatrix ["Income"; "Jobs"] ["Income"; "Jobs"]
                         (map (map Fin) (consistent_rows [2; 1])))
     = ([], inr (dict_zip ["Income"; "Jobs"]
                          (map (fun w => Fin (w / Rsum [2; 1])) [2; 1]))).
Proof.
  assert (Hne : [2; 1] <> []) by discriminate.
  assert (Hpos : Forall (fun w => 0 < w) [2; 1]) by (repeat constructor; lra).
  split; [reflexivity|]. split; [exact Hne|]. split; [exact Hpos|].
  apply (ahp_consistent_matrix "Economy" ["Income"; "Jobs"] [2; 1] eq_refl Hne Hpos).
Defined.
End AhpWitnesses.

(** ** [min_max_normalize]: the orientation of a group *)

Section NormaliseOrientation.
Local Open Scope R_scope.

Lemma filter_map_pre {A B : Type} (f : B -> bool) (g : A -> B) (l : list A) :
  filter f (map g l) = map g (filter (fun a => f (g a)) l).
Proof.
  induction l as [|a l IH]; [reflexivity|].
  cbn [map filter]. destruct (f (g a)); cbn [map]; now rewrite IH.
Qed.

Lemma new_value_formula (xs : list R) (ctype : string) (v : R) :
  xs <> [] ->
  new_value (map Fin xs) ctype (Fin v)
  = Fin (if Req_dec_T (Rmax_list xs) (Rmin_list xs) then 1
         else if String.eqb (lower ctype) "cost"
              then (Rmax_list xs - v) / (Rmax_list xs - Rmin_list xs)
              else (v - Rmin_list xs) / (Rmax_list xs - Rmin_list xs)).
Proof.
  intros Hne. unfold new_value. cbv zeta.
  rewrite nanmax_Rmax_list, nanmin_Rmin_list by assumption.
  destruct (Req_dec_T (Rmax_list xs) (Rmin_list xs)) as [E|Hd].
  - assert (Eb : eqb (Fin (Rmax_list xs)) (Fin (Rmin_list xs)) = true)
      by now apply eqb_Fin.
    now rewrite Eb.
  - assert (Eb : eqb (Fin (Rmax_list xs)) (Fin (Rmin_list xs)) = false)
      by now apply eqb_Fin_false.
    rewrite Eb. assert (Hd' : Rmax_list xs - Rmin_list xs <> 0) by lra.
    destruct (String.eqb (lower ctype) "cost"); now rewrite !sub_Fin, div_Fin.
Qed.

(** In a [float64] column the loops of [min_max_normalize] give each row
    the value [normalized_value] says, and leave the other columns alone. *)
Lemma min_max_normalize_closed_form (to_numeric : string -> option xreal)
      (data : DataFrame string) (x : row string -> R) :
  column_dtype data = None ->
  (forall r, In r data -> to_numeric (clean (Value r)) = Some (Fin (x r))) ->
  min_max_normalize to_numeric data
  = inr (map (fun r => set_Value r (Fin (normalized_value data x r))) data).
Proof.
  intros Hfloat Hx.
  rewrite (min_max_normalize_rows to_numeric data Hfloat)
    by (intros r Hr; rewrite (Hx r Hr); eauto).
  f_equal. rewrite map_map. apply map_ext_in. intros r Hr.
  assert (Hp : forall r', In r' data -> parsed to_numeric r' = set_Value r' (Fin (x r'))).
  { intros r' Hr'. unfold parsed. now rewrite (Hx r' Hr'). }
  unfold normalized_row. rewrite (Hp r Hr). cbn [Category Sub_category set_Value Value].
  rewrite filter_map_pre.
  change (fun a : row string =>
            in_group (Category r) (Sub_category r) (parsed to_numeric a))
    with (@same_group string string r).
  assert (Hin : In r (filter (same_group r) data)).
  { apply filter_In. split; [assumption|]. unfold same_group. now rewrite !String.eqb_refl. }
  unfold normalized_value, group_is_cost. cbv zeta.
  assert (Hg : forall r', In r' (filter (same_group r) data) -> In r' data).
  { intros r' Hr'. now apply filter_In in Hr'. }
  destruct (filter (same_group r) data) as [|r0 g] eqn:Eg; [destruct Hin|].
  cbn [map hd]. rewrite (Hp r0 (Hg r0 (or_introl eq_refl))).
  cbn [Cost_Benefit set_Value].
  assert (Ev : map (@Value xreal) (set_Value r0 (Fin (x r0)) :: map (parsed to_numeric) g)
               = map Fin (x r0 :: map x g)).
  { cbn [map Value set_Value]. f_equal. rewrite !map_map. apply map_ext_in.
    intros r' Hr'. rewrite (Hp r' (Hg r' (or_intror Hr'))). reflexivity. }
  change (Value (set_Value r0 (Fin (x r0)))
          :: map (@Value xreal) (map (parsed to_numeric) g))
    with (map (@Value xreal) (set_Value r0 (Fin (x r0)) :: map (parsed to_numeric) g)).
  rewrite Ev, new_value_formula by discriminate. reflexivity.
Qed.

Lemma same_group_filter {V : Type} (data : DataFrame V) (r r' : row V) :
  same_group r r' = true ->
  filter (same_group r') data = filter (same_group r) data.
Proof.
  intros E. unfold same_group in E. apply andb_true_iff in E. destruct E as [Ec Es].
  apply String.eqb_eq in Ec. apply String.eqb_eq in Es.
  apply filter_ext. intros a. unfold same_group. now rewrite Ec, Es.
Qed.

Lemma group_extrema {V : Type} (data : DataFrame V) (x : row V -> R) (r r' : row V) :
  In r' data -> same_group r r' = true ->
  Rmin_list (map x (filter (same_group r) data)) <= x r'
  <= Rmax_list (map x (filter (same_group r) data)).
Proof.
  intros Hin Hg.
  assert (Hf : In r' (filter (same_group r) data)) by (apply filter_In; now split).
  split; [now apply Rmin_list_le|now apply Rmax_list_ge].
Qed.

(** X9.  In exact arithmetic and in a [float64] column (the values are not
    all written as integers of the range of [int64], nor all as integers of
    the range of [uint64]): within a group (the rows of one category
    and sub-category) the normaliser keeps the order of the values when the
    first row of the group is not labelled cost, and reverses it when it is:
    the labels of the other rows are not read.  When the group has two
    different values, the row with the smallest gets 0 and the row with the
    largest gets 1, or 1 and 0 in a cost group. *)
Theorem min_max_normalize_orientation (to_numeric : string -> option xreal)
        (data : DataFrame string) (x : row string -> R) (i j : nat)
        (ri rj : row string) :
  column_dtype data = None ->
  (forall r, In r data -> to_numeric (clean (Value r)) = Some (Fin (x r))) ->
  nth_error data i = Some ri ->
  nth_error data j = Some rj ->
  same_group ri rj = true ->
  x ri <= x rj ->
  exists out wi wj,
    min_max_normalize to_numeric data = inr out
    /\ option_map (@Value xreal) (nth_error out i) = Some (Fin wi)
    /\ option_map (@Value xreal) (nth_error out j) = Some (Fin wj)
    /\ (if group_is_cost data ri then wj <= wi else wi <= wj)
    /\ (x ri < x rj ->
        (forall r, In r data -> same_group ri r = true -> x ri <= x r <= x rj) ->
        if group_is_cost data ri then wi = 1 /\ wj = 0 else wi = 0 /\ wj = 1).
Proof.
  intros Hfloat Hx Hi Hj Hsame Hle.
  exists (map (fun r => set_Value r (Fin (normalized_value data x r))) data),
         (normalized_value data x ri), (normalized_value data x rj).
  split; [now apply min_max_normalize_closed_form|].
  rewrite !nth_error_map, Hi, Hj. cbn [option_map Value set_Value].
  split; [reflexivity|]. split; [reflexivity|].
  assert (Hri : In ri data) by (eapply nth_error_In; eassumption).
  assert (Hrj : In rj data) by (eapply nth_error_In; eassumption).
  assert (Hii : same_group ri ri = true).
  { unfold same_group. now rewrite !String.eqb_refl. }
  pose proof (group_extrema data x ri ri Hri Hii) as Bi.
  pose proof (group_extrema data x ri rj Hrj Hsame) as Bj.
  assert (Ecost : group_is_cost data rj = group_is_cost data ri).
  { unfold group_is_cost. rewrite (same_group_filter data ri rj Hsame).
    assert (Hf : In ri (filter (same_group ri) data)) by (apply filter_In; now split).
    destruct (filter (same_group ri) data); [destruct Hf|reflexivity]. }
  unfold normalized_value. cbv zeta.
  rewrite Ecost, (same_group_filter data ri rj Hsame).
  set (M := Rmax_list (map x (filter (same_group ri) data))) in *.
  set (m := Rmin_list (map x (filter (same_group ri) data))) in *.
  destruct (Req_dec_T M m) as [E|Hd].
  - split.
    + destruct (group_is_cost data ri); lra.
    + intros Hlt _. lra.
  - assert (Hpos : 0 < M - m) by lra.
    assert (Hinv : 0 < / (M - m)) by now apply Rinv_0_lt_compat.
    split.
    + destruct (group_is_cost data ri); unfold Rdiv;
        apply Rmult_le_compat_r; lra.
    + intros Hlt Hall.
      assert (Hf : In ri (filter (same_group ri) data)) by (apply filter_In; now split).
      assert (Hne : filter (same_group ri) data <> []).
      { intros E. now rewrite E in Hf. }
      destruct (Rmax_list_attained _ x _ Hne) as [a [Ha EM]].
      destruct (Rmin_list_attained _ x _ Hne) as [b [Hb Em]].
      apply filter_In in Ha. apply filter_In in Hb.
      pose proof (Hall a (proj1 Ha) (proj2 Ha)) as Ba.
      pose proof (Hall b (proj1 Hb) (proj2 Hb)) as Bb.
      fold M in EM. fold m in Em.
      assert (EMj : M = x rj) by lra. assert (Emi : m = x ri) by lra.
      rewrite EMj, Emi in *.
      destruct (group_is_cost data ri); split; field; lra.
Qed.
End NormaliseOrientation.

(** ** [topsis]: the range of the scores *)

Section ScoreRange.
Local Open Scope R_scope.

Lemma combine_map_r {A B : Type} (f : A -> B) (l : list A) :
  combine l (map f l) = map (fun a => (a, f a)) l.
Proof. induction l as [|a l IH]; [reflexivity|]. cbn [map combine]. now rewrite IH. Qed.

Lemma in_graph {A B : Type} (f : A -> B) (l : list A) (a : A) (b : B) :
  In (a, b) (map (fun a => (a, f a)) l) -> In a l /\ b = f a.
Proof.
  intros Hin. apply in_map_iff in Hin. destruct Hin as [a' [E Ha]].
  inversion E; subst. now split.
Qed.

(** X10.  In exact arithmetic, on data with at least one row whose values
    are numbers and with weights that are not negative, [topsis] returns
    either no number at all (every score is NaN: the regions cannot be told
    apart) or a score in [[0.01, 1]] for every region, with the score 1.0 for
    some region and the score 0.01 for some region. *)
Theorem topsis_scores_range (norm_data : DataFrame xreal)
        (weights : dict (dict xreal)) (criteria_type_col : option string) :
  norm_data <> [] ->
  (forall r, In r norm_data -> exists v, Value r = Fin v) ->
  nonneg_weights weights ->
  readable_column criteria_type_col norm_data ->
  exists rows,
    topsis norm_data weights criteria_type_col
    = inr (mkScores ["Region"; "TOPSIS Score"]%string rows)
    /\ ((forall region s, In (region, s) rows -> s = NaN)
        \/ ((forall region s, In (region, s) rows ->
                              exists a, s = Fin a /\ 1 / 100 <= a <= 1)
            /\ (exists region, In (region, Fin 1) rows)
            /\ (exists region, In (region, Fin (1 / 100)) rows))).
Proof.
  intros Hne Hfin Hw Hcol.
  rewrite (topsis_final norm_data weights criteria_type_col Hcol).
  set (df := map (final_row weights criteria_type_col) norm_data).
  assert (Hdf : forall x, In x df -> exists a, snd x = Fin a).
  { intros x Hx. apply in_map_iff in Hx. destruct Hx as [y [<- Hy]].
    destruct (Hfin y Hy) as [a Ea]. apply (final_row_Fin weights _ y a Hw Ea). }
  set (idx := pivot_index (pivot_table df)).
  set (cols := pivot_columns (pivot_table df)).
  assert (Hidx : idx <> []).
  { destruct norm_data as [|r nd]; [contradiction|].
    assert (Hin : In (Region r) idx).
    { unfold idx, pivot_table. cbn [pivot_index].
      apply (@sorted_keys_In string String.compare String.compare_eq_iff).
      unfold df. cbn [map]. left. now rewrite final_row_fst. }
    intros E. now rewrite E in Hin. }
  destruct idx as [|r1 rs] eqn:Eidx; [contradiction|]. rewrite <- Eidx in *.
  assert (Ec : closeness (pivot_table df) = map (xclose idx cols (cell_real df)) idx).
  { exact (@closeness_exact (pivot_table df) (cell_real df) r1 rs Eidx
             (@pivot_cells_exact df Hdf)). }
  eexists. split; [reflexivity|].
  rewrite Ec, rescale_map, map_map, combine_map_r.
  set (G := cell_real df).
  set (tot := fun r => Rdplus idx cols G r + Rdminus idx cols G r).
  assert (Hr1 : In r1 idx) by (rewrite Eidx; now left).
  destruct (Req_dec_T (tot r1) 0) as [Hz|Hnz].
  - left. intros r s Hin. apply in_graph in Hin. destruct Hin as [Hr ->].
    rewrite (xclose_NaN idx cols G r
               (zero_distances_spread idx cols G r1 Hr1 Hz r Hr)).
    apply rescale_one_NaN.
  - assert (Hall : forall r, In r idx -> tot r <> 0).
    { intros r Hr Hz. apply Hnz.
      exact (zero_distances_spread idx cols G r Hr Hz r1 Hr1). }
    set (c := fun r => Rdminus idx cols G r / tot r).
    assert (Ecl : map (xclose idx cols G) idx = map Fin (map c idx)).
    { rewrite map_map. apply map_ext_in. intros r Hr.
      exact (xclose_Fin idx cols G r (Hall r Hr)). }
    rewrite Ecl.
    assert (Hcs : map c idx <> []) by (rewrite Eidx; discriminate).
    destruct (Req_dec_T (Rmax_list (map c idx)) (Rmin_list (map c idx))) as [Eq|Hd].
    + left. intros r s Hin. apply in_graph in Hin. destruct Hin as [Hr ->].
      rewrite (xclose_Fin idx cols G r (Hall r Hr)).
      apply rescale_one_flat; [exact Hcs|lra].
    + right.
      assert (Hd' : Rmax_list (map c idx) - Rmin_list (map c idx) <> 0) by lra.
      set (M := Rmax_list (map c idx)) in *. set (m := Rmin_list (map c idx)) in *.
      assert (Hsc : forall r, In r idx ->
                 rescale_one (map Fin (map c idx)) (xclose idx cols G r)
                 = Fin ((c r - m) / (M - m) * (1 - 1 / 100) + 1 / 100)).
      { intros r Hr. rewrite (xclose_Fin idx cols G r (Hall r Hr)).
        now apply rescale_one_exact. }
      assert (HmM : forall r, In r idx -> m <= c r <= M).
      { intros r Hr. split; [now apply Rmin_list_le|now apply Rmax_list_ge]. }
      assert (Hpos : 0 < M - m).
      { pose proof (HmM r1 Hr1). lra. }
      split; [|split].
      * intros r s Hin. apply in_graph in Hin. destruct Hin as [Hr ->]. rewrite (Hsc r Hr).
        eexists. split; [reflexivity|].
        pose proof (HmM r Hr) as B.
        assert (Hq : 0 <= (c r - m) / (M - m) <= 1).
        { split.
          - apply Rmult_le_pos; [lra|]. apply Rlt_le. now apply Rinv_0_lt_compat.
          - apply Rmult_le_reg_r with (M - m); [lra|].
            unfold Rdiv. rewrite Rmult_assoc, Rinv_l by lra. lra. }
        nra.
      * destruct (Rmax_list_attained _ c idx Hidx) as [r [Hr EM]].
        exists r. apply in_map_iff. exists r. split; [|exact Hr].
        rewrite (Hsc r Hr). fold M in EM. rewrite <- EM. do 2 f_equal. field. lra.
      * destruct (Rmin_list_attained _ c idx Hidx) as [r [Hr Em]].
        exists r. apply in_map_iff. exists r. split; [|exact Hr].
        rewrite (Hsc r Hr). fold m in Em. rewrite <- Em. do 2 f_equal. field. lra.
Qed.
End ScoreRange.

Section RangeWitnesses.
Import Scenario.
Local Open Scope string_scope.
Local Open Scope R_scope.

Lemma decimal_data_parsed (r : row string) :
  In r decimal_data ->
  to_numeric_decimal (clean (Value r))
  = Some (Fin (parsed_value to_numeric_decimal r)).
Proof. intros [<-|[<-|[]]]; reflexivity. Qed.

Lemma min_max_normalize_orientation_witness :
  column_dtype decimal_data = None
  /\ (forall r, In r decimal_data ->
                to_numeric_decimal (clean (Value r))
                = Some (Fin (parsed_value to_numeric_decimal r)))
  /\ same_group (mkrow "Region1" "Accessibility" "Distance" "10,5" "Cost")
                (mkrow "Region2" "Accessibility" "Distance" "20" "Cost") = true
  /\ exists out wi wj,
       min_max_normalize to_numeric_decimal decimal_data = inr out
       /\ option_map (@Value xreal) (nth_error out 0) = Some (Fin wi)
       /\ option_map (@Value xreal) (nth_error out 1) = Some (Fin wj)
       /\ wj <= wi.
Proof.
  assert (Hfloat : column_dtype decimal_data = None) by (vm_compute; reflexivity).
  split; [exact Hfloat|]. split; [exact decimal_data_parsed|].
  split; [reflexivity|].
  assert (Hle : parsed_value to_numeric_decimal
                  (mkrow "Region1" "Accessibility" "Distance" "10,5" "Cost")
                <= parsed_value to_numeric_decimal
                     (mkrow "Region2" "Accessibility" "Distance" "20" "Cost")).
  { assert (E1 : parsed_value to_numeric_decimal
                     (mkrow "Region1" "Accessibility" "Distance" "10,5" "Cost")
                 = 105 / 10)
      by reflexivity.
    assert (E2 : parsed_value to_numeric_decimal
                   (mkrow "Region2" "Accessibility" "Distance" "20" "Cost") = 20)
      by reflexivity.
    rewrite E1, E2. lra. }
  destruct (min_max_normalize_orientation to_numeric_decimal decimal_data
              (parsed_value to_numeric_decimal) 0 1
              (mkrow "Region1" "Accessibility" "Distance" "10,5" "Cost")
              (mkrow "Region2" "Accessibility" "Distance" "20" "Cost")
              Hfloat decimal_data_parsed eq_refl eq_refl eq_refl Hle)
    as [out [wi [wj [E [Ei [Ej [Hord _]]]]]]].
  exists out, wi, wj. repeat split; assumption.
Defined.

Lemma topsis_scores_range_witness :
  ascending_norm (T:=xreal) <> []
  /\ (forall r, In r (ascending_norm (T:=xreal)) -> exists v, Value r = Fin v)
  /\ exists rows,
       topsis (T:=xreal) ascending_norm distance_weights None
       = inr (mkScores ["Region"; "TOPSIS Score"] rows)
       /\ ((forall region s, In (region, s) rows -> s = NaN)
           \/ ((forall region s, In (region, s) rows ->
                                 exists a, s = Fin a /\ 1 / 100 <= a <= 1)
               /\ (exists region, In (region, Fin 1) rows)
               /\ (exists region, In (region, Fin (1 / 100)) rows))).
Proof.
  assert (Hne : ascending_norm (T:=xreal) <> []) by discriminate.
  assert (Hfin : forall r, In r (ascending_norm (T:=xreal)) -> exists v, Value r = Fin v).
  { intros r [<-|[<-|[]]]; simpl; eauto. }
  split; [exact Hne|]. split; [exact Hfin|].
  apply (topsis_scores_range ascending_norm distance_weights None Hne Hfin
           distance_weights_nonneg I).
Defined.
End RangeWitnesses.

(** ** [topsis]: what the pivot table depends on *)

Section SortedUnique.
Variable K : Type.
Variable cmp : K -> K -> comparison.
Hypothesis cmp_eq : forall a b, cmp a b = Eq -> a = b.
Hypothesis cmp_antisym : forall a b, cmp a b = CompOpp (cmp b a).
Hypothesis cmp_trans : forall a b c, cmp a b = Lt -> cmp b c = Lt -> cmp a c = Lt.

Lemma cmp_irrefl (a : K) : cmp a a <> Lt.
Proof.
  intros E. pose proof (cmp_antisym a a) as Ha. rewrite E in Ha. discriminate.
Qed.

Lemma cmp_asym (a b : K) : cmp a b = Lt -> cmp b a <> Lt.
Proof.
  intros Hab Hba. apply (cmp_irrefl a). now apply cmp_trans with b.
Qed.

Lemma sorted_unique (l1 l2 : list K) :
  StronglySorted (fun a b => cmp a b = Lt) l1 ->
  StronglySorted (fun a b => cmp a b = Lt) l2 ->
  (forall x, In x l1 <-> In x l2) ->
  l1 = l2.
Proof.
  intros H1. revert l2. induction H1 as [|a l1 Hs1 IH Ha]; intros l2 H2 Hsame.
  - destruct l2 as [|b l2]; [reflexivity|].
    exfalso. apply (proj2 (Hsame b)). now left.
  - destruct H2 as [|b l2 Hs2 Hb].
    { exfalso. apply (proj1 (Hsame a)). now left. }
    rewrite Forall_forall in Ha, Hb.
    assert (Eab : a = b).
    { destruct (proj1 (Hsame a) (or_introl eq_refl)) as [E|Hin]; [now symmetry|].
      destruct (proj2 (Hsame b) (or_introl eq_refl)) as [E|Hin']; [assumption|].
      exfalso. apply (cmp_asym a b); auto. }
    subst b. f_equal. apply IH; [assumption|]. intros x. split; intros Hx.
    + destruct (proj1 (Hsame x) (or_intror Hx)) as [E|Hin]; [|assumption].
      subst x. exfalso. apply (cmp_irrefl a). now apply Ha.
    + destruct (proj2 (Hsame x) (or_intror Hx)) as [E|Hin]; [|assumption].
      subst x. exfalso. apply (cmp_irrefl a). now apply Hb.
Qed.

(** The sorted keys of a list depend on its elements only. *)
Lemma sorted_keys_same (l l' : list K) :
  (forall x, In x l <-> In x l') -> sorted_keys cmp l = sorted_keys cmp l'.
Proof.
  intros Hsame. apply sorted_unique.
  - now apply sorted_keys_sorted.
  - now apply sorted_keys_sorted.
  - intros x. rewrite !(sorted_keys_In cmp cmp_eq). apply Hsame.
Qed.
End SortedUnique.

Lemma string_compare_refl (s : string) : String.compare s s = Eq.
Proof.
  pose proof (String.compare_antisym s s) as E.
  destruct (String.compare s s); [reflexivity|discriminate|discriminate].
Qed.

Lemma pair_compare_antisym (p q : string * string) :
  pair_compare p q = CompOpp (pair_compare q p).
Proof.
  destruct p as [a b], q as [c d]. unfold pair_compare. cbn [fst snd].
  rewrite (String.compare_antisym c a).
  destruct (String.compare a c); cbn [CompOpp]; try reflexivity.
  apply String.compare_antisym.
Qed.

Lemma pair_compare_trans (p q r : string * string) :
  pair_compare p q = Lt -> pair_compare q r = Lt -> pair_compare p r = Lt.
Proof.
  destruct p as [a b], q as [c d], r as [e f]. unfold pair_compare. cbn [fst snd].
  destruct (String.compare a c) eqn:Eac; try discriminate;
    destruct (String.compare c e) eqn:Ece; try discriminate; intros H1 H2.
  - apply String.compare_eq_iff in Eac, Ece. subst.
    rewrite string_compare_refl. now apply string_compare_trans with d.
  - apply String.compare_eq_iff in Eac. subst. now rewrite Ece.
  - apply String.compare_eq_iff in Ece. subst. now rewrite Eac.
  - now rewrite (string_compare_trans _ _ _ Eac Ece).
Qed.

Section PivotDepends.
Local Open Scope R_scope.

Lemma pivot_table_same (df df' : list (row xreal * xreal)) :
  (forall x, In x df -> exists a, snd x = Fin a) ->
  (forall x, In x df' -> exists a, snd x = Fin a) ->
  (forall k, In k (map (fun x => Region (fst x)) df)
             <-> In k (map (fun x => Region (fst x)) df')) ->
  (forall c, In c (map (fun x => (Category (fst x), Sub_category (fst x))) df)
             <-> In c (map (fun x => (Category (fst x), Sub_category (fst x))) df')) ->
  (forall r c, cell_real df r c = cell_real df' r c) ->
  pivot_table df = pivot_table df'.
Proof.
  intros Hfin Hfin' Hreg Hcol Hcell.
  pose proof (@pivot_cells_exact df Hfin) as E.
  pose proof (@pivot_cells_exact df' Hfin') as E'.
  assert (Ei : pivot_index (pivot_table df) = pivot_index (pivot_table df')).
  { unfold pivot_table. cbn [pivot_index].
    apply (sorted_keys_same string String.compare String.compare_eq_iff
             String.compare_antisym string_compare_trans). exact Hreg. }
  assert (Ec : pivot_columns (pivot_table df) = pivot_columns (pivot_table df')).
  { unfold pivot_table. cbn [pivot_columns].
    apply (sorted_keys_same (string * string) pair_compare pair_compare_eq
             pair_compare_antisym pair_compare_trans). exact Hcol. }
  assert (Ecells : pivot_cells (pivot_table df) = pivot_cells (pivot_table df')).
  { rewrite E, E', Ei, Ec. apply map_ext. intros r. apply map_ext. intros c.
    now rewrite Hcell. }
  destruct (pivot_table df), (pivot_table df'). cbn in Ei, Ec, Ecells. now subst.
Qed.

Lemma cell_real_perm (df df' : list (row xreal * xreal)) (r : string)
      (c : string * string) :
  Permutation df df' -> cell_real df r c = cell_real df' r c.
Proof.
  unfold cell_real. induction 1 as [|x l l' Hp IH|x y l|l l' l'' H1 IH1 H2 IH2].
  - reflexivity.
  - cbn [filter]. destruct (in_cell r c x); cbn [map Rsum]; now rewrite IH.
  - cbn [filter]. destruct (in_cell r c x), (in_cell r c y); cbn [map Rsum]; lra.
  - now rewrite IH1.
Qed.
End PivotDepends.

Section RowOrder.
Local Open Scope R_scope.

Lemma final_rows_Fin (weights : dict (dict xreal)) (col : option string)
      (norm_data : DataFrame xreal) :
  (forall r, In r norm_data -> exists v, Value r = Fin v) ->
  nonneg_weights weights ->
  forall x, In x (map (final_row weights col) norm_data) -> exists a, snd x = Fin a.
Proof.
  intros Hfin Hw x Hx. apply in_map_iff in Hx. destruct Hx as [y [<- Hy]].
  destruct (Hfin y Hy) as [a Ea]. apply (final_row_Fin weights _ y a Hw Ea).
Qed.

(** X11.  In exact arithmetic the scores do not depend on the order of the
    rows of the data. *)
Theorem topsis_row_order (norm_data norm_data' : DataFrame xreal)
        (weights : dict (dict xreal)) (criteria_type_col : option string) :
  Permutation norm_data norm_data' ->
  (forall r, In r norm_data -> exists v, Value r = Fin v) ->
  nonneg_weights weights ->
  readable_column criteria_type_col norm_data ->
  topsis norm_data' weights criteria_type_col
  = topsis norm_data weights criteria_type_col.
Proof.
  intros Hperm Hfin Hw Hcol.
  assert (Hfin' : forall r, In r norm_data' -> exists v, Value r = Fin v).
  { intros r Hr. apply Hfin. apply Permutation_in with norm_data'; [|exact Hr].
    now apply Permutation_sym. }
  assert (Hcol' : readable_column criteria_type_col norm_data').
  { destruct criteria_type_col as [col|]; [|exact I].
    destruct Hcol as [E|Hall]; [now left|right].
    intros r Hr. apply Hall. apply Permutation_in with norm_data'; [|exact Hr].
    now apply Permutation_sym. }
  rewrite (topsis_final norm_data weights criteria_type_col Hcol).
  rewrite (topsis_final norm_data' weights criteria_type_col Hcol').
  set (f := final_row weights criteria_type_col).
  assert (Hp : Permutation (map f norm_data) (map f norm_data')).
  { now apply Permutation_map. }
  assert (E : pivot_table (map f norm_data') = pivot_table (map f norm_data)).
  { apply pivot_table_same.
    - now apply final_rows_Fin.
    - now apply final_rows_Fin.
    - intros k. split; apply Permutation_in; apply Permutation_map;
        [now apply Permutation_sym|exact Hp].
    - intros c. split; apply Permutation_in; apply Permutation_map;
        [now apply Permutation_sym|exact Hp].
    - intros r c. apply cell_real_perm. now apply Permutation_sym. }
  now rewrite E.
Qed.

(** X12.  A region without an observation for a criterion is scored as if
    it had the value 0 there: adding, for a region and a criterion that both
    occur in the data, a row of value 0 changes no score (when no
    criteria-type column is given). *)
Theorem topsis_missing_is_zero (norm_data : DataFrame xreal) (r : row xreal)
        (weights : dict (dict xreal)) :
  (forall x, In x norm_data -> exists v, Value x = Fin v) ->
  nonneg_weights weights ->
  Value r = Fin 0 ->
  In (Region r) (map (@Region xreal) norm_data) ->
  In (Category r, Sub_category r)
     (map (fun x => (Category x, Sub_category x)) norm_data) ->
  topsis (r :: norm_data) weights None = topsis norm_data weights None.
Proof.
  intros Hfin Hw Hv Hreg Hcrit.
  rewrite (topsis_final norm_data weights None I).
  rewrite (topsis_final (r :: norm_data) weights None I).
  set (f := final_row weights None).
  destruct (get_weight_Fin weights r Hw) as [w [Ew _]].
  assert (Er : f r = (r, Fin 0)).
  { unfold f, final_row, add_weighted. rewrite Hv, Ew, mul_Fin. do 2 f_equal. lra. }
  assert (Hall : forall x, In x (r :: norm_data) -> exists v, Value x = Fin v).
  { intros x [<-|Hx]; [eauto|now apply Hfin]. }
  assert (E : pivot_table (map f (r :: norm_data)) = pivot_table (map f norm_data)).
  { apply pivot_table_same.
    - now apply final_rows_Fin.
    - now apply final_rows_Fin.
    - intros k. cbn [map]. rewrite Er. cbn [fst]. rewrite !map_map.
      assert (Em : map (fun x => Region (fst (f x))) norm_data
                   = map (@Region xreal) norm_data).
      { apply map_ext. intros x. unfold f. now rewrite final_row_fst. }
      rewrite Em. split; [intros [<-|Hk]; assumption|now right].
    - intros c. cbn [map]. rewrite Er. cbn [fst]. rewrite !map_map.
      assert (Em : map (fun x => (Category (fst (f x)), Sub_category (fst (f x))))
                       norm_data
                   = map (fun x => (Category x, Sub_category x)) norm_data).
      { apply map_ext. intros x. unfold f. now rewrite final_row_fst. }
      rewrite Em. split; [intros [<-|Hc]; assumption|now right].
    - intros rg c. cbn [map]. rewrite Er. unfold cell_real. cbn [filter].
      destruct (in_cell rg c (r, Fin 0)); cbn [map Rsum snd fin_val]; lra. }
  now rewrite E.
Qed.
End RowOrder.

(** ** [topsis]: more than one observation for a region and a criterion *)

Section Duplicates.
Local Open Scope R_scope.










End Duplicates.

Section DuplicatesWitness.
Import Scenario.
Local Open Scope string_scope.

End DuplicatesWitness.

(** ** [sensitivity_analysis]: the loops *)

Section SensitivityResults.
Context {T : Type} `{Numeric T}.

Lemma for_each_app {A B : Type} (l1 l2 : list A) (body : B -> A -> result B)
      (acc : B) :
  for_each (l1 ++ l2) body acc
  = bind (for_each l1 body acc) (for_each l2 body).
Proof.
  revert acc. induction l1 as [|x l1 IH]; intros acc; [reflexivity|].
  cbn [app for_each]. destruct (body acc x) as [e|acc']; [reflexivity|].
  cbn [bind]. apply IH.
Qed.

Lemma inner_loop_flat (norm_data : DataFrame T) (weights : dict (dict (scalar T)))
      (delta : scalar T) (cat : string) (subs : dict (scalar T))
      (acc : dict (Scores T)) :
  for_each subs (sensitivity_step norm_data weights delta cat) acc
  = for_each (map (fun sw => (cat, fst sw, snd sw)) subs)
             (leaf_step norm_data weights delta) acc.
Proof.
  revert acc. induction subs as [|[sub w] subs IH]; intros acc; [reflexivity|].
  cbn [map for_each fst snd]. unfold leaf_step at 1. cbn [fst snd].
  destruct (sensitivity_step norm_data weights delta cat acc (sub, w)) as [e|acc'];
    [reflexivity|].
  cbn [bind]. apply IH.
Qed.

Lemma outer_loop_flat (norm_data : DataFrame T) (weights : dict (dict (scalar T)))
      (delta : scalar T) (cats : dict (dict (scalar T))) (acc : dict (Scores T)) :
  for_each cats
    (fun results cat_subs =>
       for_each (snd cat_subs)
                (sensitivity_step norm_data weights delta (fst cat_subs)) results)
    acc
  = for_each (leaves cats) (leaf_step norm_data weights delta) acc.
Proof.
  revert acc. induction cats as [|[cat subs] cats IH]; intros acc; [reflexivity|].
  cbn [for_each fst snd]. unfold leaves. cbn [map List.concat fst snd].
  rewrite for_each_app, inner_loop_flat.
  destruct (for_each (map (fun sw => (cat, fst sw, snd sw)) subs)
                     (leaf_step norm_data weights delta) acc) as [e|acc'];
    [reflexivity|].
  cbn [bind]. apply IH.
Qed.

(** *** The kind and the number of a result *)

Lemma scalar_value_typed (a b : scalar T) (x : T) : scalar_value (typed a b x) = x.
Proof. unfold typed. now destruct (is_numpy a || is_numpy b). Qed.

Lemma is_numpy_typed (a b : scalar T) (x : T) :
  is_numpy (typed a b x) = is_numpy a || is_numpy b.
Proof. unfold typed. now destruct (is_numpy a || is_numpy b). Qed.

Lemma fold_scalar_add_numpy (l : list (scalar T)) (acc : scalar T) :
  is_numpy (fold_left scalar_add l acc) = is_numpy acc || existsb is_numpy l.
Proof.
  revert acc. induction l as [|a l IH]; intros acc; cbn [fold_left existsb].
  - now rewrite orb_false_r.
  - rewrite IH. unfold scalar_add. rewrite is_numpy_typed. now rewrite orb_assoc.
Qed.

Lemma scalar_sum_numpy (l : list (scalar T)) :
  is_numpy (scalar_sum l) = existsb is_numpy l.
Proof. unfold scalar_sum. now rewrite fold_scalar_add_numpy. Qed.

Lemma fold_scalar_add_value (l : list (scalar T)) (acc : scalar T) :
  scalar_value (fold_left scalar_add l acc)
  = fold_left add (map scalar_value l) (scalar_value acc).
Proof.
  revert acc. induction l as [|a l IH]; intros acc; cbn [fold_left map]; [reflexivity|].
  rewrite IH. unfold scalar_add. now rewrite scalar_value_typed.
Qed.

Lemma scalar_sum_value (l : list (scalar T)) :
  scalar_value (scalar_sum l) = py_sum (map scalar_value l).
Proof. unfold scalar_sum. now rewrite fold_scalar_add_value. Qed.

Lemma is_numpy_plus_weight (delta w : scalar T) :
  is_numpy (plus_weight delta w) = is_numpy w || is_numpy delta.
Proof.
  unfold plus_weight, scalar_mul, scalar_add. now rewrite !is_numpy_typed.
Qed.

Lemma is_numpy_minus_weight (delta w : scalar T) :
  is_numpy (minus_weight delta w) = is_numpy w || is_numpy delta.
Proof.
  unfold minus_weight, scalar_mul, scalar_sub. now rewrite !is_numpy_typed.
Qed.

Lemma scalar_value_plus_weight (delta w : scalar T) :
  scalar_value (plus_weight delta w)
  = mul (scalar_value w) (add (of_Z 1) (scalar_value delta)).
Proof.
  unfold plus_weight, scalar_mul, scalar_add. now rewrite !scalar_value_typed.
Qed.

Lemma scalar_value_minus_weight (delta w : scalar T) :
  scalar_value (minus_weight delta w)
  = mul (scalar_value w) (sub (of_Z 1) (scalar_value delta)).
Proof.
  unfold minus_weight, scalar_mul, scalar_sub. now rewrite !scalar_value_typed.
Qed.

(** *** The division of the weights of a category *)

Lemma divide_values_returns (d : dict (scalar T)) (total : scalar T) :
  python_zero total = false ->
  divide_values d total
  = inr (map (fun kv => (fst kv,
                         typed (snd kv) total
                               (div (scalar_value (snd kv)) (scalar_value total))))
             d).
Proof.
  intros Hz. induction d as [|[k v] d IH]; [reflexivity|].
  cbn [divide_values]. unfold scalar_truediv.
  assert (E : negb (is_numpy v || is_numpy total) && eqb (scalar_value total) zero
              = false).
  { unfold python_zero in Hz. destruct (is_numpy v); [reflexivity|].
    cbn [orb]. exact Hz. }
  rewrite E. cbn [bind ret]. rewrite IH. reflexivity.
Qed.

Lemma divide_values_raises (k : string) (v : scalar T) (d : dict (scalar T))
      (total : scalar T) :
  is_numpy v = false -> python_zero total = true ->
  divide_values ((k, v) :: d) total = inl ZeroDivisionError.
Proof.
  intros Hv Hz. cbn [divide_values]. unfold scalar_truediv.
  unfold python_zero in Hz. apply andb_true_iff in Hz. destruct Hz as [Hn Hz].
  apply negb_true_iff in Hn. rewrite Hv, Hn, Hz. reflexivity.
Qed.

Lemma dict_set_not_nil {V : Type} (d : dict V) (k : string) (v : V) :
  dict_set d k v <> [].
Proof.
  destruct d as [|[k' v'] d]; cbn [dict_set]; [discriminate|].
  destruct (String.eqb k' k); discriminate.
Qed.

Lemma dict_set_In_value {V : Type} (d : dict V) (k : string) (v : V) :
  In v (dict_values (dict_set d k v)).
Proof.
  induction d as [|[k' v'] d IH]; cbn [dict_set]; [now left|].
  destruct (String.eqb k' k); [now left|]. right. exact IH.
Qed.

Lemma zero_sum_raises (weights : dict (dict (scalar T))) (cat sub : string)
      (nw : scalar T) :
  zero_sum weights cat sub nw = true ->
  perturb weights cat sub nw = inl ZeroDivisionError.
Proof.
  unfold zero_sum, perturb. destruct (dict_get weights cat) as [sd|]; [|discriminate].
  intros Hz. cbv zeta.
  pose proof (dict_set_not_nil sd sub nw) as Hne.
  destruct (dict_set sd sub nw) as [|[k v] d']; [contradiction|].
  rewrite divide_values_raises; [reflexivity| |exact Hz].
  unfold python_zero in Hz. apply andb_true_iff in Hz. destruct Hz as [Hn _].
  apply negb_true_iff in Hn. rewrite scalar_sum_numpy in Hn.
  cbn [dict_values map snd existsb] in Hn. apply orb_false_iff in Hn. tauto.
Qed.

Lemma zero_sum_returns (weights : dict (dict (scalar T))) (cat sub : string)
      (nw : scalar T) (sd : dict (scalar T)) :
  dict_get weights cat = Some sd ->
  zero_sum weights cat sub nw = false ->
  perturb weights cat sub nw
  = inr (dict_set weights cat
           (map (fun kv =>
                   (fst kv,
                    typed (snd kv) (scalar_sum (dict_values (dict_set sd sub nw)))
                          (div (scalar_value (snd kv))
                               (scalar_value
                                  (scalar_sum (dict_values (dict_set sd sub nw)))))))
                (dict_set sd sub nw))).
Proof.
  unfold zero_sum, perturb. intros ->. intros Hz. cbv zeta.
  rewrite (divide_values_returns _ _ Hz). reflexivity.
Qed.

Lemma zero_sum_numpy (weights : dict (dict (scalar T))) (cat sub : string)
      (nw : scalar T) :
  is_numpy nw = true -> zero_sum weights cat sub nw = false.
Proof.
  intros Hn. unfold zero_sum. destruct (dict_get weights cat) as [sd|]; [|reflexivity].
  unfold python_zero. rewrite scalar_sum_numpy.
  assert (E : existsb is_numpy (dict_values (dict_set sd sub nw)) = true).
  { apply existsb_exists. exists nw. split; [apply dict_set_In_value|exact Hn]. }
  now rewrite E.
Qed.

(** *** One leaf *)

Lemma leaf_step_scenarios (norm_data : DataFrame T) (weights : dict (dict (scalar T)))
      (delta : scalar T) (results results' : dict (Scores T))
      (leaf : string * string * scalar T) :
  leaf_step norm_data weights delta results leaf = inr results' ->
  exists sp sm,
    scenario norm_data weights (fst (fst leaf)) (snd (fst leaf))
             (plus_weight delta (snd leaf)) = inr sp
    /\ scenario norm_data weights (fst (fst leaf)) (snd (fst leaf))
                (minus_weight delta (snd leaf)) = inr sm
    /\ results'
       = dict_set (dict_set results
                            (result_key (fst (fst leaf)) (snd (fst leaf)) "plus") sp)
                  (result_key (fst (fst leaf)) (snd (fst leaf)) "minus") sm.
Proof.
  destruct leaf as [[cat sc] w].
  unfold leaf_step, sensitivity_step, scenario, plus_weight, minus_weight.
  cbn [fst snd].
  destruct (perturb weights cat sc
                    (scalar_mul w (scalar_add (PyFloat (of_Z 1)) delta))) as [e|wp];
    [discriminate|].
  cbn [bind].
  destruct (topsis norm_data (tree_values wp) None) as [e|sp]; [discriminate|].
  cbn [bind].
  destruct (perturb weights cat sc
                    (scalar_mul w (scalar_sub (PyFloat (of_Z 1)) delta))) as [e|wm];
    [discriminate|].
  cbn [bind].
  destruct (topsis norm_data (tree_values wm) None) as [e|sm]; [discriminate|].
  cbn [bind].
  intros E. inversion E. eauto.
Qed.

Lemma leaf_step_raises (norm_data : DataFrame T) (weights : dict (dict (scalar T)))
      (delta : scalar T) (results : dict (Scores T))
      (leaf : string * string * scalar T) :
  leaf_divides_by_zero weights delta leaf = true ->
  leaf_step norm_data weights delta results leaf = inl ZeroDivisionError.
Proof.
  destruct leaf as [[cat sc] w]. unfold leaf_divides_by_zero. cbn [fst snd].
  intros Hz. unfold leaf_step, sensitivity_step. cbn [fst snd].
  fold (plus_weight delta w). fold (minus_weight delta w).
  destruct (zero_sum weights cat sc (plus_weight delta w)) eqn:Ep.
  - rewrite (zero_sum_raises _ _ _ _ Ep). reflexivity.
  - cbn [orb] in Hz.
    assert (Hsd : exists sd, dict_get weights cat = Some sd).
    { unfold zero_sum in Hz. destruct (dict_get weights cat) as [sd|];
        [eauto|discriminate]. }
    destruct Hsd as [sd Hsd].
    rewrite (zero_sum_returns _ _ _ _ _ Hsd Ep). cbn [bind].
    rewrite topsis_None. cbn [bind].
    rewrite (zero_sum_raises _ _ _ _ Hz). reflexivity.
Qed.

Lemma leaf_step_returns (norm_data : DataFrame T) (weights : dict (dict (scalar T)))
      (delta : scalar T) (results : dict (Scores T))
      (leaf : string * string * scalar T) :
  (exists sd, dict_get weights (fst (fst leaf)) = Some sd) ->
  leaf_divides_by_zero weights delta leaf = false ->
  exists results',
    leaf_step norm_data weights delta results leaf = inr results'
    /\ dict_keys results' = fold_left add_key (leaf_keys leaf) (dict_keys results).
Proof.
  destruct leaf as [[cat sc] w]. unfold leaf_divides_by_zero. cbn [fst snd].
  intros [sd Hsd] Hz. apply orb_false_iff in Hz. destruct Hz as [Hp Hm].
  unfold leaf_step, sensitivity_step. cbn [fst snd].
  fold (plus_weight delta w). fold (minus_weight delta w).
  rewrite (zero_sum_returns _ _ _ _ _ Hsd Hp). cbn [bind].
  rewrite topsis_None. cbn [bind].
  rewrite (zero_sum_returns _ _ _ _ _ Hsd Hm). cbn [bind].
  rewrite topsis_None. cbn [bind ret].
  eexists. split; [reflexivity|].
  rewrite !dict_keys_set. reflexivity.
Qed.

(** *** The loop over the leaves *)

Lemma leaves_category {V : Type} (weights : dict (dict V))
      (leaf : string * string * V) :
  In leaf (leaves weights) -> exists sd, dict_get weights (fst (fst leaf)) = Some sd.
Proof.
  destruct leaf as [[cat sc] w]. intros Hin. apply leaves_In in Hin.
  destruct Hin as [sd [Hc _]]. cbn [fst]. exact (@dict_get_In _ weights cat sd Hc).
Qed.

Lemma leaves_loop_result (norm_data : DataFrame T)
      (weights : dict (dict (scalar T))) (delta : scalar T)
      (ls : list (string * string * scalar T)) :
  (forall leaf, In leaf ls -> exists sd, dict_get weights (fst (fst leaf)) = Some sd) ->
  forall acc,
    (existsb (leaf_divides_by_zero weights delta) ls = true ->
     for_each ls (leaf_step norm_data weights delta) acc = inl ZeroDivisionError)
    /\ (existsb (leaf_divides_by_zero weights delta) ls = false ->
        exists results,
          for_each ls (leaf_step norm_data weights delta) acc = inr results
          /\ dict_keys results
             = fold_left add_key (List.concat (map (@leaf_keys (scalar T)) ls))
                         (dict_keys acc)).
Proof.
  induction ls as [|leaf ls IH]; intros Hcat acc.
  - split; [discriminate|]. intros _. exists acc. split; reflexivity.
  - cbn [existsb for_each map List.concat].
    assert (Hcat' : forall l, In l ls ->
                              exists sd, dict_get weights (fst (fst l)) = Some sd).
    { intros l Hl. apply Hcat. now right. }
    destruct (leaf_divides_by_zero weights delta leaf) eqn:Ez.
    + split; [|discriminate]. intros _.
      rewrite (leaf_step_raises norm_data weights delta acc leaf Ez). reflexivity.
    + destruct (leaf_step_returns norm_data weights delta acc leaf
                  (Hcat leaf (or_introl eq_refl)) Ez) as [acc' [E K]].
      rewrite E. cbn [bind orb]. destruct (IH Hcat' acc') as [IHr IHk].
      split; [exact IHr|]. intros Hz. destruct (IHk Hz) as [results [Er Kr]].
      exists results. split; [exact Er|]. rewrite Kr, K, fold_left_app. reflexivity.
Qed.

Lemma result_keys_leaf_keys {V : Type} (weights : dict (dict V)) :
  result_keys weights = List.concat (map (@leaf_keys V) (leaves weights)).
Proof. reflexivity. Qed.

(** What the analysis returns or raises. *)
Lemma sensitivity_analysis_result (norm_data : DataFrame T)
      (weights : dict (dict (scalar T))) (delta : scalar T) :
  (divides_by_zero weights delta = true ->
   sensitivity_analysis norm_data weights delta = inl ZeroDivisionError)
  /\ (divides_by_zero weights delta = false ->
      exists base results,
        sensitivity_analysis norm_data weights delta = inr (base, results)
        /\ topsis norm_data (tree_values weights) None = inr base
        /\ dict_keys results = fold_left add_key (result_keys weights) []).
Proof.
  unfold sensitivity_analysis, divides_by_zero.
  rewrite topsis_None. cbn [bind]. rewrite outer_loop_flat.
  destruct (leaves_loop_result norm_data weights delta (leaves weights)
              (leaves_category weights) []) as [Hr Hk].
  split.
  - intros Hz. rewrite (Hr Hz). reflexivity.
  - intros Hz. destruct (Hk Hz) as [results [E K]]. rewrite E. cbn [bind ret].
    do 2 eexists. split; [reflexivity|]. split; [reflexivity|].
    rewrite K, result_keys_leaf_keys. reflexivity.
Qed.

Lemma numpy_never_divides_by_zero (weights : dict (dict (scalar T)))
      (delta : scalar T) :
  is_numpy delta = true
  \/ (forall cat sub w, In (cat, sub, w) (leaves weights) -> is_numpy w = true) ->
  divides_by_zero weights delta = false.
Proof.
  intros Hn. unfold divides_by_zero. apply not_true_is_false. intros Hex.
  apply existsb_exists in Hex. destruct Hex as [[[cat sub] w] [Hin Hz]].
  assert (Hnp : is_numpy w || is_numpy delta = true).
  { destruct Hn as [Hd|Hw]; [rewrite Hd; apply orb_true_r|].
    now rewrite (Hw cat sub w Hin). }
  unfold leaf_divides_by_zero in Hz. cbn [fst snd] in Hz.
  rewrite !zero_sum_numpy in Hz; [discriminate| |].
  - now rewrite is_numpy_minus_weight.
  - now rewrite is_numpy_plus_weight.
Qed.

Lemma leaves_loop_get (norm_data : DataFrame T) (weights : dict (dict (scalar T)))
      (delta : scalar T) (ls : list (string * string * scalar T)) :
  forall acc results,
    for_each ls (leaf_step norm_data weights delta) acc = inr results ->
    NoDup (List.concat (map (@leaf_keys (scalar T)) ls)) ->
    (forall leaf, In leaf ls ->
       exists sp sm,
         scenario norm_data weights (fst (fst leaf)) (snd (fst leaf))
                  (plus_weight delta (snd leaf)) = inr sp
         /\ scenario norm_data weights (fst (fst leaf)) (snd (fst leaf))
                     (minus_weight delta (snd leaf)) = inr sm
         /\ dict_get results (result_key (fst (fst leaf)) (snd (fst leaf)) "plus")
            = Some sp
         /\ dict_get results (result_key (fst (fst leaf)) (snd (fst leaf)) "minus")
            = Some sm)
    /\ (forall k, ~ In k (List.concat (map (@leaf_keys (scalar T)) ls)) ->
                  dict_get results k = dict_get acc k).
Proof.
  induction ls as [|leaf ls IH]; intros acc results E Hnd.
  - cbn in E. inversion E; subst. split; [intros ? []|reflexivity].
  - cbn [for_each] in E.
    destruct (leaf_step norm_data weights delta acc leaf) as [e|acc'] eqn:Es;
      [discriminate|].
    cbn [bind] in E.
    destruct (leaf_step_scenarios norm_data weights delta acc acc' leaf Es)
      as [sp [sm [Ep [Em Eacc]]]].
    cbn [map List.concat leaf_keys app] in Hnd.
    inversion Hnd as [|kp l1 Hkp Hnd1]; subst kp l1.
    inversion Hnd1 as [|km l2 Hkm Hnd2]; subst km l2.
    destruct (IH acc' results E Hnd2) as [IHl IHk].
    assert (Hne : result_key (fst (fst leaf)) (snd (fst leaf)) "plus"
                  <> result_key (fst (fst leaf)) (snd (fst leaf)) "minus").
    { intros Eq. apply Hkp. left. now symmetry. }
    split.
    + intros leaf' [<-|Hin]; [|now apply IHl].
      exists sp, sm. split; [exact Ep|]. split; [exact Em|]. split.
      * rewrite IHk by (intros Hin; apply Hkp; now right).
        rewrite Eacc, dict_get_set_other by (intros Eq; apply Hne; now symmetry).
        apply dict_get_set_same.
      * rewrite IHk by exact Hkm. rewrite Eacc. apply dict_get_set_same.
    + intros k Hk. cbn [map List.concat leaf_keys app] in Hk.
      rewrite IHk by (intros Hin; apply Hk; right; now right).
      rewrite Eacc, !dict_get_set_other; [reflexivity| |].
      * intros Eq. apply Hk. now left.
      * intros Eq. apply Hk. right. now left.
Qed.

(** The entries of the results, when the result keys are pairwise distinct:
    each leaf has its plus and its minus scenario under its two keys. *)
Lemma sensitivity_results_get (norm_data : DataFrame T)
      (weights : dict (dict (scalar T))) (delta : scalar T) (base : Scores T)
      (results : dict (Scores T)) :
  sensitivity_analysis norm_data weights delta = inr (base, results) ->
  NoDup (result_keys weights) ->
  forall cat sc w, In (cat, sc, w) (leaves weights) ->
    exists sp sm,
      scenario norm_data weights cat sc (plus_weight delta w) = inr sp
      /\ scenario norm_data weights cat sc (minus_weight delta w) = inr sm
      /\ dict_get results (result_key cat sc "plus") = Some sp
      /\ dict_get results (result_key cat sc "minus") = Some sm.
Proof.
  intros E Hnd cat sc w Hleaf. unfold sensitivity_analysis in E.
  rewrite topsis_None in E. cbn [bind] in E. rewrite outer_loop_flat in E.
  destruct (for_each (leaves weights) (leaf_step norm_data weights delta) [])
    as [e|res] eqn:Eloop; [discriminate|].
  cbn [bind] in E. inversion E; subst.
  rewrite result_keys_leaf_keys in Hnd.
  destruct (leaves_loop_get norm_data weights delta (leaves weights) [] results
              Eloop Hnd) as [Hget _].
  exact (Hget (cat, sc, w) Hleaf).
Qed.

(** *** The numbers of a perturbed tree *)

Lemma tree_values_set (weights : dict (dict (scalar T))) (k : string)
      (v : dict (scalar T)) :
  tree_values (dict_set weights k v) = dict_set (tree_values weights) k (dict_numbers v).
Proof.
  unfold tree_values. induction weights as [|[k' v'] weights IH]; [reflexivity|].
  cbn [dict_set map fst snd]. destruct (String.eqb k' k); [reflexivity|].
  cbn [map fst snd]. now rewrite IH.
Qed.

Lemma tree_values_get (weights : dict (dict (scalar T))) (k : string) :
  dict_get (tree_values weights) k = option_map dict_numbers (dict_get weights k).
Proof.
  unfold tree_values. induction weights as [|[k' v'] weights IH]; [reflexivity|].
  cbn [dict_get map fst snd]. now destruct (String.eqb k' k).
Qed.

Lemma dict_numbers_set (d : dict (scalar T)) (k : string) (v : scalar T) :
  dict_numbers (dict_set d k v) = dict_set (dict_numbers d) k (scalar_value v).
Proof.
  unfold dict_numbers. induction d as [|[k' v'] d IH]; [reflexivity|].
  cbn [dict_set map fst snd]. destruct (String.eqb k' k); [reflexivity|].
  cbn [map fst snd]. now rewrite IH.
Qed.

Lemma dict_numbers_get (d : dict (scalar T)) (k : string) :
  dict_get (dict_numbers d) k = option_map scalar_value (dict_get d k).
Proof.
  unfold dict_numbers. induction d as [|[k' v'] d IH]; [reflexivity|].
  cbn [dict_get map fst snd]. now destruct (String.eqb k' k).
Qed.

Lemma dict_numbers_values (d : dict (scalar T)) :
  dict_values (dict_numbers d) = map scalar_value (dict_values d).
Proof. unfold dict_values, dict_numbers. now rewrite !map_map. Qed.

Lemma dict_numbers_keys (d : dict (scalar T)) : dict_keys (dict_numbers d) = dict_keys d.
Proof. unfold dict_keys, dict_numbers. now rewrite map_map. Qed.

Lemma tree_values_keys (weights : dict (dict (scalar T))) :
  dict_keys (tree_values weights) = dict_keys weights.
Proof. unfold dict_keys, tree_values. now rewrite map_map. Qed.

Lemma tree_values_python (weights : dict (dict T)) :
  tree_values (python_tree weights) = weights.
Proof.
  unfold tree_values, python_tree, dict_numbers. rewrite map_map.
  rewrite <- (map_id weights) at 2. apply map_ext. intros [c sd]. cbn [fst snd].
  f_equal. rewrite map_map. rewrite <- (map_id sd) at 2. apply map_ext.
  now intros [k v].
Qed.

End SensitivityResults.


Section SensitivityBlind.
Context {T : Type} `{Numeric T}.



End SensitivityBlind.

Section SingleLeaf.
Local Open Scope R_scope.

Lemma perturb_single_leaf (weights : dict (dict (scalar xreal))) (cat sc : string)
      (w0 nw : scalar xreal) (x : R) :
  dict_get weights cat = Some [(sc, w0)] ->
  scalar_value nw = Fin x ->
  x <> 0 ->
  exists weights',
    perturb weights cat sc nw = inr weights'
    /\ tree_values weights' = dict_set (tree_values weights) cat [(sc, Fin 1)].
Proof.
  intros Eg Ex Hx.
  assert (Ed : dict_set [(sc, w0)] sc nw = [(sc, nw)]).
  { cbn [dict_set]. now rewrite String.eqb_refl. }
  assert (Et : scalar_value (scalar_sum (dict_values [(sc, nw)])) = Fin (0 + x)).
  { rewrite scalar_sum_value. cbn [dict_values map snd]. rewrite Ex.
    unfold py_sum. cbn [fold_left]. now rewrite zero_Fin, add_Fin. }
  assert (Hs : 0 + x <> 0) by lra.
  assert (Hz : zero_sum weights cat sc nw = false).
  { unfold zero_sum. rewrite Eg, Ed. unfold python_zero. rewrite Et, zero_Fin.
    apply andb_false_iff. right. now apply eqb_Fin_false. }
  rewrite (zero_sum_returns weights cat sc nw _ Eg Hz), Ed.
  eexists. split; [reflexivity|].
  rewrite tree_values_set. cbn [map fst snd dict_numbers].
  rewrite scalar_value_typed, Et, Ex, (div_Fin x Hs).
  do 4 f_equal. field. lra.
Qed.

(** X14.  In exact arithmetic, for a category with a single sub-category
    the analysis cannot vary the weight: the perturbed weight is divided by
    itself, so, when no scenario divides Python floats by zero, the plus and
    the minus scenario are both the scores under the weight 1.0. *)
Theorem sensitivity_single_leaf (norm_data : DataFrame xreal)
        (weights : dict (dict (scalar xreal))) (delta w0 : scalar xreal)
        (d : R) (cat sc : string) (w : R) :
  dict_get weights cat = Some [(sc, w0)] ->
  scalar_value w0 = Fin w ->
  scalar_value delta = Fin d ->
  w * (1 + d) <> 0 ->
  w * (1 - d) <> 0 ->
  NoDup (result_keys weights) ->
  divides_by_zero weights delta = false ->
  exists base results s,
    sensitivity_analysis norm_data weights delta = inr (base, results)
    /\ topsis norm_data (dict_set (tree_values weights) cat [(sc, Fin 1)]) None
       = inr s
    /\ dict_get results (result_key cat sc "plus") = Some s
    /\ dict_get results (result_key cat sc "minus") = Some s.
Proof.
  intros Eg Ew Ed Hp Hm Hnd Hz.
  destruct (sensitivity_analysis_result norm_data weights delta) as [_ Hk].
  destruct (Hk Hz) as [base [results [E _]]].
  assert (Hleaf : In (cat, sc, w0) (leaves weights)).
  { apply leaves_In. exists [(sc, w0)]. split; [|now left].
    now apply dict_get_Some_In. }
  destruct (sensitivity_results_get norm_data weights delta base results E Hnd
              cat sc w0 Hleaf) as [sp [sm [Ep [Em [Gp Gm]]]]].
  unfold scenario in Ep, Em.
  assert (Evp : scalar_value (plus_weight delta w0) = Fin (w * (1 + d))).
  { rewrite scalar_value_plus_weight, Ew, Ed. reflexivity. }
  assert (Evm : scalar_value (minus_weight delta w0) = Fin (w * (1 - d))).
  { rewrite scalar_value_minus_weight, Ew, Ed. reflexivity. }
  destruct (perturb_single_leaf weights cat sc w0 _ _ Eg Evp Hp) as [wp [Pp Tp]].
  destruct (perturb_single_leaf weights cat sc w0 _ _ Eg Evm Hm) as [wm [Pm Tm]].
  rewrite Pp in Ep. rewrite Pm in Em. cbn [bind] in Ep, Em.
  rewrite Tp in Ep. rewrite Tm in Em. rewrite Ep in Em. inversion Em; subst sm.
  exists base, results, sp. repeat split; assumption.
Qed.
End SingleLeaf.

(** ** [sensitivity_analysis]: the perturbed weights of a weight tree *)

Section SensitivityInvariant.
Local Open Scope R_scope.

Lemma perturb_exact (weights : dict (dict (scalar xreal))) (cat sub_cat : string)
      (sd : dict (scalar xreal)) (ws : list R) (w x : R) (nw : scalar xreal) :
  dict_get weights cat = Some sd ->
  dict_values (dict_numbers sd) = map Fin ws ->
  dict_get (dict_numbers sd) sub_cat = Some (Fin w) ->
  scalar_value nw = Fin x ->
  Rsum ws - w + x <> 0 ->
  zero_sum weights cat sub_cat nw = false
  /\ exists weights' sd' ws',
       perturb weights cat sub_cat nw = inr weights'
       /\ dict_get (tree_values weights') cat = Some sd'
       /\ dict_values sd' = map Fin ws'
       /\ Rsum ws' = 1.
Proof.
  intros Hcat Hv Hg Ex Ht.
  destruct (@dict_set_values_exact (dict_numbers sd) ws sub_cat w x Hv Hg)
    as [ws1 [E1 [E2 _]]].
  assert (En : dict_numbers (dict_set sd sub_cat nw)
               = dict_set (dict_numbers sd) sub_cat (Fin x)).
  { rewrite dict_numbers_set, Ex. reflexivity. }
  assert (Et : scalar_value (scalar_sum (dict_values (dict_set sd sub_cat nw)))
               = Fin (Rsum ws - w + x)).
  { rewrite scalar_sum_value, <- dict_numbers_values, En, E1, py_sum_Fin, E2.
    reflexivity. }
  assert (Hz : zero_sum weights cat sub_cat nw = false).
  { unfold zero_sum. rewrite Hcat. unfold python_zero. rewrite Et, zero_Fin.
    apply andb_false_iff. right. now apply eqb_Fin_false. }
  split; [exact Hz|].
  rewrite (zero_sum_returns weights cat sub_cat nw sd Hcat Hz).
  eexists. eexists. exists (map (fun w0 => w0 / (Rsum ws - w + x)) ws1).
  split; [reflexivity|]. split.
  { rewrite tree_values_set. apply dict_get_set_same. }
  split.
  - rewrite <- (@map_div_values (dict_set (dict_numbers sd) sub_cat (Fin x)) ws1
                                (Rsum ws - w + x) E1 Ht).
    rewrite <- En. f_equal. unfold dict_numbers. rewrite !map_map.
    apply map_ext. intros [k v]. cbn [fst snd].
    now rewrite scalar_value_typed, Et.
  - rewrite Rsum_map_div, E2. now field.
Qed.

Lemma tolerance_small : 1 / 10 ^ 9 <= 1 / 4.
Proof. simpl. lra. Qed.

(** A leaf of a weight tree, as its category stores it. *)
Lemma weight_tree_leaf (weights : dict (dict (scalar xreal))) (cat sub_cat : string)
      (w0 : scalar xreal) :
  weight_tree (tree_values weights) ->
  In (cat, sub_cat, w0) (leaves weights) ->
  exists sd ws w,
    dict_get weights cat = Some sd
    /\ dict_values (dict_numbers sd) = map Fin ws
    /\ dict_get (dict_numbers sd) sub_cat = Some (Fin w)
    /\ scalar_value w0 = Fin w
    /\ 0 <= w <= 1
    /\ 3 / 4 <= Rsum ws.
Proof.
  intros [HndW Htree] Hleaf.
  apply leaves_In in Hleaf. destruct Hleaf as [sd [Hcat Hsub]].
  assert (Hin : In (cat, dict_numbers sd) (tree_values weights)).
  { unfold tree_values. apply in_map_iff. exists (cat, sd). split; [reflexivity|exact Hcat]. }
  destruct (Htree cat (dict_numbers sd) Hin) as [HndS [ws [Hv [Hb Hsum]]]].
  rewrite tree_values_keys in HndW. rewrite dict_numbers_keys in HndS.
  pose proof (@dict_get_NoDup _ weights cat sd HndW Hcat) as Gcat.
  pose proof (@dict_get_NoDup _ sd sub_cat w0 HndS Hsub) as Gsub.
  assert (Hval : In (scalar_value w0) (map Fin ws)).
  { rewrite <- Hv, dict_numbers_values. apply in_map.
    unfold dict_values. change w0 with (snd (sub_cat, w0)). now apply in_map. }
  apply in_map_iff in Hval. destruct Hval as [w [Ew Hw]].
  exists sd, ws, w. split; [exact Gcat|]. split; [exact Hv|]. split.
  { rewrite dict_numbers_get, Gsub. cbn [option_map]. now rewrite Ew. }
  split; [now symmetry|]. split.
  { rewrite Forall_forall in Hb. now apply Hb. }
  pose proof tolerance_small as Htol.
  unfold Rabs in Hsum. destruct (Rcase_abs (Rsum ws - 1)); lra.
Qed.

Lemma perturbed_sum (weights : dict (dict (scalar xreal))) (cat sub_cat : string)
      (w0 nw : scalar xreal) (d : R) :
  weight_tree (tree_values weights) ->
  In (cat, sub_cat, w0) (leaves weights) ->
  - (1 / 2) <= d <= 1 / 2 ->
  (forall w, scalar_value w0 = Fin w -> scalar_value nw = Fin (w * (1 + d))) ->
  zero_sum weights cat sub_cat nw = false
  /\ exists weights' sd ws,
       perturb weights cat sub_cat nw = inr weights'
       /\ dict_get (tree_values weights') cat = Some sd
       /\ dict_values sd = map Fin ws
       /\ Rsum ws = 1.
Proof.
  intros Htree Hleaf Hd Hnw.
  destruct (weight_tree_leaf weights cat sub_cat w0 Htree Hleaf)
    as [sd [ws [w [Gcat [Hv [Gsub [Ew [Hw Hs]]]]]]]].
  apply (perturb_exact weights cat sub_cat sd ws w (w * (1 + d)) nw Gcat Hv Gsub
                       (Hnw w Ew)).
  nra.
Qed.

Lemma tenth_plus (delta w0 : scalar xreal) :
  scalar_value delta = decimal 1 1 ->
  forall w, scalar_value w0 = Fin w ->
            scalar_value (plus_weight delta w0) = Fin (w * (1 + 1 / 10)).
Proof.
  intros Ed w Ew. rewrite scalar_value_plus_weight, Ew, Ed. reflexivity.
Qed.

Lemma tenth_minus (delta w0 : scalar xreal) :
  scalar_value delta = decimal 1 1 ->
  forall w, scalar_value w0 = Fin w ->
            scalar_value (minus_weight delta w0) = Fin (w * (1 + - (1 / 10))).
Proof.
  intros Ed w Ew. rewrite scalar_value_minus_weight, Ew, Ed.
  change (mul (Fin w) (sub (of_Z 1) (decimal 1 1))) with (Fin (w * (1 - 1 / 10))).
  reflexivity.
Qed.

(** X21.  In exact arithmetic, for a weight tree (distinct names, weights
    in [[0, 1]] that sum to 1.0 within 1e-9 in each category, Python or numpy
    floats) and delta = 0.1: the analysis returns the baseline scores and one
    entry per distinct result key [category_subcategory_direction], so at
    most 2 x (number of leaf weights) entries, and exactly that many when the
    names [category_subcategory] of the leaves are pairwise distinct.  After
    the plus and after the minus perturbation of a leaf weight the weights
    of the perturbed category sum to 1.0 within 1e-9 (to 1 exactly), and the
    scores under the perturbed weights are, when the names are pairwise
    distinct, the entry of the leaf and the direction. *)
Theorem sensitivity_analysis_invariant (norm_data : DataFrame xreal)
        (weights : dict (dict (scalar xreal))) (delta : scalar xreal) :
  weight_tree (tree_values weights) ->
  scalar_value delta = decimal 1 1 ->
  exists base results,
    sensitivity_analysis norm_data weights delta = inr (base, results)
    /\ topsis norm_data (tree_values weights) None = inr base
    /\ (List.length results <= 2 * List.length (leaves weights))%nat
    /\ (NoDup (map (@leaf_name (scalar xreal)) (leaves weights)) ->
        List.length results = (2 * List.length (leaves weights))%nat)
    /\ forall cat sub_cat w, In (cat, sub_cat, w) (leaves weights) ->
         forall direction new_weight,
           (direction = "plus"%string /\ new_weight = plus_weight delta w)
           \/ (direction = "minus"%string /\ new_weight = minus_weight delta w) ->
           exists weights' sd ws scores,
             perturb weights cat sub_cat new_weight = inr weights'
             /\ dict_get (tree_values weights') cat = Some sd
             /\ dict_values sd = map Fin ws
             /\ Rabs (Rsum ws - 1) <= 1 / 10 ^ 9
             /\ topsis norm_data (tree_values weights') None = inr scores
             /\ (NoDup (map (@leaf_name (scalar xreal)) (leaves weights)) ->
                 dict_get results (result_key cat sub_cat direction) = Some scores).
Proof.
  intros Htree Ed.
  assert (Hplus : forall cat sub_cat w, In (cat, sub_cat, w) (leaves weights) ->
            zero_sum weights cat sub_cat (plus_weight delta w) = false
            /\ exists weights' sd ws,
                 perturb weights cat sub_cat (plus_weight delta w) = inr weights'
                 /\ dict_get (tree_values weights') cat = Some sd
                 /\ dict_values sd = map Fin ws
                 /\ Rsum ws = 1).
  { intros cat sub_cat w Hleaf.
    apply (perturbed_sum weights cat sub_cat w _ (1 / 10) Htree Hleaf); [lra|].
    now apply tenth_plus. }
  assert (Hminus : forall cat sub_cat w, In (cat, sub_cat, w) (leaves weights) ->
            zero_sum weights cat sub_cat (minus_weight delta w) = false
            /\ exists weights' sd ws,
                 perturb weights cat sub_cat (minus_weight delta w) = inr weights'
                 /\ dict_get (tree_values weights') cat = Some sd
                 /\ dict_values sd = map Fin ws
                 /\ Rsum ws = 1).
  { intros cat sub_cat w Hleaf.
    apply (perturbed_sum weights cat sub_cat w _ (- (1 / 10)) Htree Hleaf); [lra|].
    now apply tenth_minus. }
  assert (Hz : divides_by_zero weights delta = false).
  { unfold divides_by_zero. apply not_true_is_false. intros Hex.
    apply existsb_exists in Hex. destruct Hex as [[[cat sub] w] [Hin Hl]].
    unfold leaf_divides_by_zero in Hl. cbn [fst snd] in Hl.
    destruct (Hplus _ _ _ Hin) as [Zp _]. destruct (Hminus _ _ _ Hin) as [Zm _].
    rewrite Zp, Zm in Hl. discriminate. }
  destruct (sensitivity_analysis_result norm_data weights delta) as [_ Hk].
  destruct (Hk Hz) as [base [results [E [Eb K]]]].
  exists base, results. split; [exact E|]. split; [exact Eb|].
  assert (Hlen : List.length results = List.length (dict_keys results)).
  { unfold dict_keys. now rewrite length_map. }
  split; [|split].
  - rewrite Hlen, K.
    pose proof (add_key_length (result_keys weights) []) as Hle.
    rewrite result_keys_length in Hle. simpl in Hle. lia.
  - intros Hnd. rewrite Hlen, K, add_key_NoDup.
    + simpl. apply result_keys_length.
    + simpl. now apply result_keys_NoDup.
  - intros cat sub_cat w Hleaf direction new_weight Hnw.
    assert (Hex : exists weights' sd ws,
               perturb weights cat sub_cat new_weight = inr weights'
               /\ dict_get (tree_values weights') cat = Some sd
               /\ dict_values sd = map Fin ws
               /\ Rsum ws = 1).
    { destruct Hnw as [[_ ->] | [_ ->]];
        [apply (Hplus _ _ _ Hleaf)|apply (Hminus _ _ _ Hleaf)]. }
    destruct Hex as [W' [sd [ws [E1 [E2 [E3 E4]]]]]].
    exists W', sd, ws. eexists.
    split; [exact E1|]. split; [exact E2|]. split; [exact E3|]. split.
    { rewrite E4, Rminus_diag, Rabs_R0. simpl. lra. }
    split; [apply topsis_None|].
    intros Hnd.
    destruct (sensitivity_results_get norm_data weights delta base results E
                (result_keys_NoDup weights Hnd) cat sub_cat w Hleaf)
      as [sp [sm [Ep [Em [Gp Gm]]]]].
    unfold scenario in Ep, Em.
    destruct Hnw as [[-> ->] | [-> ->]].
    + rewrite E1 in Ep. cbn [bind] in Ep. rewrite topsis_None in Ep.
      rewrite Gp. f_equal. now inversion Ep.
    + rewrite E1 in Em. cbn [bind] in Em. rewrite topsis_None in Em.
      rewrite Gm. f_equal. now inversion Em.
Qed.

End SensitivityInvariant.

Section PivotWitnesses.
Import Scenario.
Local Open Scope string_scope.
Local Open Scope R_scope.

Lemma ascending_norm_Fin (r : row xreal) :
  In r ascending_norm -> exists v, Value r = Fin v.
Proof. intros [<-|[<-|[]]]; simpl; eauto. Qed.

Lemma topsis_row_order_witness :
  Permutation (ascending_norm (T:=xreal))
              [ mkrow "Region2" "Accessibility" "Distance" (of_Z 1) "Benefit";
                mkrow "Region1" "Accessibility" "Distance" (of_Z 0) "Benefit" ]
  /\ topsis (T:=xreal)
            [ mkrow "Region2" "Accessibility" "Distance" (of_Z 1) "Benefit";
              mkrow "Region1" "Accessibility" "Distance" (of_Z 0) "Benefit" ]
            distance_weights None
     = topsis ascending_norm distance_weights None.
Proof.
  assert (Hp : Permutation (ascending_norm (T:=xreal))
                 [ mkrow "Region2" "Accessibility" "Distance" (of_Z 1) "Benefit";
                   mkrow "Region1" "Accessibility" "Distance" (of_Z 0) "Benefit" ]).
  { apply perm_swap. }
  split; [exact Hp|].
  apply (topsis_row_order _ _ distance_weights None Hp ascending_norm_Fin
           distance_weights_nonneg I).
Defined.

Lemma crossed_weights_nonneg : nonneg_weights crossed_weights.
Proof.
  intros cat sd sub_cat x [E|[]] Hin. inversion E; subst.
  destruct Hin as [E'|[E'|[]]]; inversion E'; subst; eexists;
    (split; [reflexivity|]); apply Rlt_le; apply Rdiv_lt_0_compat; simpl; lra.
Qed.

Lemma topsis_missing_is_zero_witness :
  (forall x, In x partial_norm -> exists v, Value x = Fin v)
  /\ In "Region2" (map (@Region xreal) partial_norm)
  /\ In ("Economy", "Jobs") (map (fun x => (Category x, Sub_category x)) partial_norm)
  /\ topsis (mkrow "Region2" "Economy" "Jobs" (Fin 0) "Benefit" :: partial_norm)
            crossed_weights None
     = topsis partial_norm crossed_weights None.
Proof.
  assert (Hfin : forall x, In x partial_norm -> exists v, Value x = Fin v).
  { intros x [<-|[<-|[<-|[]]]]; simpl; eauto. }
  assert (Hreg : In "Region2" (map (@Region xreal) partial_norm)).
  { simpl. tauto. }
  assert (Hcrit : In ("Economy", "Jobs")
                     (map (fun x => (Category x, Sub_category x)) partial_norm)).
  { simpl. tauto. }
  split; [exact Hfin|]. split; [exact Hreg|]. split; [exact Hcrit|].
  apply (topsis_missing_is_zero partial_norm
           (mkrow "Region2" "Economy" "Jobs" (Fin 0) "Benefit")
           crossed_weights Hfin crossed_weights_nonneg eq_refl Hreg Hcrit).
Defined.
End PivotWitnesses.

Section SensitivityWitnesses.
Import Scenario.
Local Open Scope string_scope.
Local Open Scope R_scope.


Lemma numpy_tree_leaves {T : Type} `{Numeric T} (weights : dict (dict T))
      (cat sub : string) (w : scalar T) :
  In (cat, sub, w) (leaves (numpy_tree weights)) -> is_numpy w = true.
Proof.
  intros Hin. apply leaves_In in Hin. destruct Hin as [sd [Hc Hs]].
  unfold numpy_tree in Hc. apply in_map_iff in Hc. destruct Hc as [[c sd0] [E _]].
  cbn [fst snd] in E. inversion E; subst. apply in_map_iff in Hs.
  destruct Hs as [[k v] [E' _]]. cbn [fst snd] in E'. now inversion E'.
Qed.


Lemma distance_keys_NoDup :
  NoDup (result_keys (numpy_tree (distance_weights (T:=xreal)))).
Proof.
  repeat constructor; simpl; intros Hin;
    repeat (destruct Hin as [Hin|Hin]; [discriminate Hin|]); exact Hin.
Qed.

Lemma sensitivity_single_leaf_witness :
  dict_get (numpy_tree (distance_weights (T:=xreal))) "Accessibility"
  = Some [("Distance", NpFloat64 (Fin 1))]
  /\ 1 * (1 + 1 / 10) <> 0
  /\ 1 * (1 - 1 / 10) <> 0
  /\ divides_by_zero (numpy_tree (distance_weights (T:=xreal))) (PyFloat (Fin (1 / 10)))
     = false
  /\ exists base results s,
       sensitivity_analysis distance_norm (numpy_tree distance_weights)
                            (PyFloat (Fin (1 / 10)))
       = inr (base, results)
       /\ topsis distance_norm
                 (dict_set (tree_values (numpy_tree distance_weights)) "Accessibility"
                           [("Distance", Fin 1)]) None
          = inr s
       /\ dict_get results "Accessibility_Distance_plus" = Some s
       /\ dict_get results "Accessibility_Distance_minus" = Some s.
Proof.
  assert (Hp : 1 * (1 + 1 / 10) <> 0) by lra.
  assert (Hm : 1 * (1 - 1 / 10) <> 0) by lra.
  assert (Eg : dict_get (numpy_tree (distance_weights (T:=xreal))) "Accessibility"
               = Some [("Distance", NpFloat64 (Fin 1))]) by reflexivity.
  assert (Hz : divides_by_zero (numpy_tree (distance_weights (T:=xreal)))
                               (PyFloat (Fin (1 / 10))) = false).
  { apply numpy_never_divides_by_zero. right. apply numpy_tree_leaves. }
  split; [exact Eg|]. split; [exact Hp|]. split; [exact Hm|]. split; [exact Hz|].
  apply (sensitivity_single_leaf distance_norm (numpy_tree distance_weights)
           (PyFloat (Fin (1 / 10))) (NpFloat64 (Fin 1)) (1 / 10)
           "Accessibility" "Distance" 1 Eg eq_refl eq_refl Hp Hm
           distance_keys_NoDup Hz).
Defined.

Lemma halves_weight_tree : weight_tree (tree_values (python_tree halves_weights)).
Proof.
  rewrite tree_values_python. split.
  - repeat constructor. simpl. tauto.
  - intros cat sd [E|[]]. inversion E; subst. split.
    + repeat constructor; simpl; intros H; repeat destruct H as [H|H];
        try discriminate H; exact H.
    + exists [5 / 10; 5 / 10]. split; [reflexivity|]. split.
      * repeat constructor; lra.
      * replace (Rsum [5 / 10; 5 / 10] - 1) with 0 by (simpl; lra).
        rewrite Rabs_R0. simpl. lra.
Qed.

Lemma sensitivity_analysis_invariant_witness :
  weight_tree (tree_values (python_tree halves_weights))
  /\ scalar_value (PyFloat (decimal 1 1 : xreal)) = decimal 1 1
  /\ exists base results,
       sensitivity_analysis (T:=xreal) distance_norm (python_tree halves_weights)
                            (PyFloat (decimal 1 1))
       = inr (base, results)
       /\ List.length results = 4%nat.
Proof.
  assert (Ed : scalar_value (PyFloat (decimal 1 1 : xreal)) = decimal 1 1)
    by reflexivity.
  split; [exact halves_weight_tree|]. split; [exact Ed|].
  destruct (sensitivity_analysis_invariant distance_norm (python_tree halves_weights)
              (PyFloat (decimal 1 1)) halves_weight_tree Ed)
    as [base [results [E [_ [_ [Hlen _]]]]]].
  exists base, results. split; [exact E|].
  apply Hlen.
  repeat constructor; simpl; intros H; repeat destruct H as [H|H];
    try discriminate H; exact H.
Defined.
End SensitivityWitnesses.

(** ** The rank step of the static map *)

Section RankFacts.
Local Open Scope R_scope.

Lemma filter_length_le {A : Type} (p q : A -> bool) (l : list A) :
  (forall x, In x l -> p x = true -> q x = true) ->
  (List.length (filter p l) <= List.length (filter q l))%nat.
Proof.
  induction l as [|x l IH]; intros Hpq; [reflexivity|].
  assert (IH' : (List.length (filter p l) <= List.length (filter q l))%nat).
  { apply IH. intros y Hy. apply Hpq. now right. }
  cbn [filter]. destruct (p x) eqn:Ep.
  - rewrite (Hpq x (or_introl eq_refl) Ep). cbn [List.length]. lia.
  - destruct (q x); cbn [List.length]; lia.
Qed.

Lemma filter_length_lt {A : Type} (p q : A -> bool) (l : list A) (a : A) :
  (forall x, In x l -> p x = true -> q x = true) ->
  In a l -> p a = false -> q a = true ->
  (List.length (filter p l) < List.length (filter q l))%nat.
Proof.
  induction l as [|x l IH]; intros Hpq Ha Hpa Hqa; [destruct Ha|].
  assert (Hpq' : forall y, In y l -> p y = true -> q y = true).
  { intros y Hy. apply Hpq. now right. }
  cbn [filter]. destruct Ha as [->|Ha].
  - rewrite Hpa, Hqa. cbn [List.length].
    pose proof (filter_length_le p q l Hpq'). lia.
  - specialize (IH Hpq' Ha Hpa Hqa). destruct (p x) eqn:Ep.
    + rewrite (Hpq x (or_introl eq_refl) Ep). cbn [List.length]. lia.
    + destruct (q x); cbn [List.length]; lia.
Qed.

Lemma ltb_Fin (a b : R) : ltb (Fin a) (Fin b) = true <-> a < b.
Proof.
  cbn [ltb xreal_numeric xltb]. destruct (Rlt_dec a b); split; intros;
    try assumption; try reflexivity; try discriminate; contradiction.
Qed.

Lemma ltb_Fin_elim (a : R) (t : xreal) :
  ltb (Fin a) t = true -> exists b, t = Fin b /\ a < b.
Proof.
  destruct t as [b|]; [|discriminate]. intros E. exists b. split; [reflexivity|].
  now apply ltb_Fin.
Qed.

(** X15.  The rank step gives no rank to a NaN score and, to a score that
    is a number, one more than the count of strictly greater scores: a rank
    between 1 and the number of valid scores, the same rank to equal scores,
    a smaller rank to a greater score, and the rank 1 to the greatest. *)
Theorem rank_scores_order (scores : list xreal) (i j : nat) (a b : R) :
  nth_error scores i = Some (Fin a) ->
  nth_error scores j = Some (Fin b) ->
  exists ki kj,
    nth_error (rank_scores scores) i = Some (Some ki)
    /\ nth_error (rank_scores scores) j = Some (Some kj)
    /\ (1 <= ki <= List.length (filter notnan scores))%nat
    /\ (a = b -> ki = kj)
    /\ (a < b -> (kj < ki)%nat)
    /\ ((forall c, In (Fin c) scores -> c <= a) -> ki = 1%nat)
    /\ forall k, nth_error scores k = Some NaN ->
                 nth_error (rank_scores scores) k = Some None.
Proof.
  intros Hi Hj. unfold rank_scores. cbv zeta.
  set (valid := filter notnan scores).
  exists (S (List.length (filter (fun t => ltb (Fin a) t) valid))),
         (S (List.length (filter (fun t => ltb (Fin b) t) valid))).
  rewrite !nth_error_map, Hi, Hj. cbn [option_map]. rewrite !notnan_Fin.
  split; [reflexivity|]. split; [reflexivity|].
  assert (Ha : In (Fin a) valid).
  { apply filter_In. split; [now apply nth_error_In with i|apply notnan_Fin]. }
  assert (Hb : In (Fin b) valid).
  { apply filter_In. split; [now apply nth_error_In with j|apply notnan_Fin]. }
  split; [|split; [|split; [|split]]].
  - split; [lia|].
    assert (Hlt : (List.length (filter (fun t => ltb (Fin a) t) valid)
                   < List.length (filter (fun _ => true) valid))%nat).
    { apply filter_length_lt with (Fin a); [reflexivity|exact Ha| |reflexivity].
      cbn [ltb xreal_numeric xltb]. destruct (Rlt_dec a a); [lra|reflexivity]. }
    assert (Eall : filter (fun _ : xreal => true) valid = valid).
    { clear. induction valid as [|x l IH]; [reflexivity|]. cbn [filter]. now rewrite IH. }
    rewrite Eall in Hlt. lia.
  - now intros ->.
  - intros Hab. apply -> Nat.succ_lt_mono.
    apply filter_length_lt with (Fin b).
    + intros t _ Ht. apply ltb_Fin_elim in Ht. destruct Ht as [c [-> Hc]].
      apply ltb_Fin. lra.
    + exact Hb.
    + cbn [ltb xreal_numeric xltb]. destruct (Rlt_dec b b); [lra|reflexivity].
    + now apply ltb_Fin.
  - intros Hmax. f_equal.
    assert (E : forall l, (forall t, In t l -> In t scores) ->
                          filter (fun t => ltb (Fin a) t) l = []).
    { induction l as [|t l IH]; intros Hsub; [reflexivity|].
      cbn [filter]. destruct (ltb (Fin a) t) eqn:Et.
      - exfalso. apply ltb_Fin_elim in Et. destruct Et as [c [-> Hc]].
        specialize (Hmax c (Hsub _ (or_introl eq_refl))). lra.
      - apply IH. intros t' Ht'. apply Hsub. now right. }
    rewrite (E valid); [reflexivity|].
    intros t Ht. unfold valid in Ht. now apply filter_In in Ht.
  - intros k Hk. rewrite nth_error_map, Hk. reflexivity.
Qed.
End RankFacts.

Section RankWitness.
Local Open Scope R_scope.

Lemma rank_scores_order_witness :
  nth_error [Fin 1; NaN; Fin (1 / 100)] 2 = Some (Fin (1 / 100))
  /\ nth_error [Fin 1; NaN; Fin (1 / 100)] 0 = Some (Fin 1)
  /\ exists ki kj,
       nth_error (rank_scores [Fin 1; NaN; Fin (1 / 100)]) 2 = Some (Some ki)
       /\ nth_error (rank_scores [Fin 1; NaN; Fin (1 / 100)]) 0 = Some (Some kj)
       /\ (1 <= ki <= List.length (filter notnan [Fin 1; NaN; Fin (1 / 100)]))%nat
       /\ (1 / 100 < 1 -> (kj < ki)%nat).
Proof.
  split; [reflexivity|]. split; [reflexivity|].
  destruct (rank_scores_order [Fin 1; NaN; Fin (1 / 100)] 2 0 (1 / 100) 1
              eq_refl eq_refl) as [ki [kj [Ei [Ej [Hb [_ [Hlt _]]]]]]].
  exists ki, kj. repeat split; try assumption; apply Hb.
Defined.
End RankWitness.

(** ** [topsis]: raising the value of a cost criterion *)

Section TopsisCost.
Local Open Scope R_scope.

Lemma final_row_cost (weights : dict (dict xreal)) (col : option string)
      (r : row xreal) (v w : R) :
  cost_under col r -> Value r = Fin v -> get_weight weights r = Fin w ->
  final_row weights col r = (r, Fin (1 - v * w)).
Proof.
  intros [c [s [-> [Hne [Es Hs]]]]] Hv Hw. unfold final_row.
  now rewrite Hne, Es, Hs, Hv, Hw.
Qed.

(** X16.  In exact arithmetic, for weights that are not negative and an
    observation [r] that the criteria-type column marks as a cost: raising
    the value of [r] from [v] to [v' >= v], all else fixed, does not
    increase the final score of the region of [r]. *)
Theorem topsis_cost_antitone (pre post : DataFrame xreal) (r : row xreal) (v v' : R)
        (weights : dict (dict xreal)) (criteria_type_col : option string) :
  (forall x, In x (pre ++ r :: post) -> exists a, Value x = Fin a) ->
  nonneg_weights weights ->
  cost_under criteria_type_col r ->
  Value r = Fin v ->
  v <= v' ->
  exists out out' s s',
    topsis (pre ++ r :: post) weights criteria_type_col = inr out
    /\ topsis (pre ++ set_Value r (Fin v') :: post) weights criteria_type_col = inr out'
    /\ dict_get (score_rows out) (Region r) = Some s
    /\ dict_get (score_rows out') (Region r) = Some s'
    /\ ltb s s' = false
    /\ (forall a b, s = Fin a -> s' = Fin b -> b <= a).
Proof.
  intros Hfin Hw Hcost Hv Hle.
  set (r' := set_Value r (Fin v')).
  destruct (get_weight_Fin weights r Hw) as [w [Ew Hw0]].
  assert (Hcost' : cost_under criteria_type_col r') by exact Hcost.
  assert (Hvalid : forall nd : DataFrame xreal,
             match criteria_type_col with
             | None => True
             | Some col => String.eqb col "" = true
                           \/ forall x, In x nd -> exists s, str_column col x = inr s
             end).
  { intros nd. destruct Hcost as [c [s [-> [_ [Es _]]]]]. right.
    intros x _. apply (str_column_total c r s x Es). }
  rewrite (topsis_final _ weights criteria_type_col (Hvalid _)).
  rewrite (topsis_final _ weights criteria_type_col (Hvalid _)).
  cbn [score_rows].
  assert (Er : final_row weights criteria_type_col r = (r, Fin (1 - v * w))).
  { now apply final_row_cost. }
  assert (Er' : final_row weights criteria_type_col r' = (r', Fin (1 - v' * w))).
  { now apply final_row_cost. }
  rewrite !map_app. cbn [map]. rewrite Er, Er'.
  set (d1 := map (final_row weights criteria_type_col) pre).
  set (d2 := map (final_row weights criteria_type_col) post).
  set (df := d1 ++ (r, Fin (1 - v * w)) :: d2).
  set (df' := d1 ++ (r', Fin (1 - v' * w)) :: d2).
  assert (Hd : forall d : DataFrame xreal,
             (forall x, In x d -> exists a, Value x = Fin a) ->
             forall x, In x (map (final_row weights criteria_type_col) d) ->
                       exists a, snd x = Fin a).
  { intros d Hdfin. now apply final_rows_Fin. }
  assert (Hdf : forall x, In x df -> exists a, snd x = Fin a).
  { intros x Hx. apply in_app_or in Hx. destruct Hx as [Hx|[<-|Hx]].
    - apply (Hd pre); [|exact Hx]. intros y Hy. apply Hfin. apply in_or_app. now left.
    - simpl. eauto.
    - apply (Hd post); [|exact Hx]. intros y Hy. apply Hfin. apply in_or_app.
      right. now right. }
  assert (Hdf' : forall x, In x df' -> exists a, snd x = Fin a).
  { intros x Hx. apply in_app_or in Hx. destruct Hx as [Hx|[<-|Hx]].
    - apply (Hd pre); [|exact Hx]. intros y Hy. apply Hfin. apply in_or_app. now left.
    - simpl. eauto.
    - apply (Hd post); [|exact Hx]. intros y Hy. apply Hfin. apply in_or_app.
      right. now right. }
  assert (Eidx : pivot_index (pivot_table df') = pivot_index (pivot_table df)).
  { unfold pivot_table, df, df'. cbn [pivot_index]. now rewrite !map_app. }
  assert (Ecols : pivot_columns (pivot_table df') = pivot_columns (pivot_table df)).
  { unfold pivot_table, df, df'. cbn [pivot_columns]. now rewrite !map_app. }
  assert (Hr0 : In (Region r) (pivot_index (pivot_table df))).
  { unfold pivot_table. cbn [pivot_index].
    apply (@sorted_keys_In string String.compare String.compare_eq_iff).
    unfold df. rewrite map_app. apply in_or_app. right. now left. }
  assert (Hr0' : In (Region r) (pivot_index (pivot_table df'))) by now rewrite Eidx.
  pose proof (topsis_score_exact df (Region r) Hdf Hr0) as Hs.
  pose proof (topsis_score_exact df' (Region r) Hdf' Hr0') as Hs'.
  rewrite Ecols in Hs'. rewrite Eidx in Hs' at 2 3 4.
  assert (Hdown : cell_real df' (Region r) (Category r, Sub_category r)
                  <= cell_real df (Region r) (Category r, Sub_category r)).
  { unfold df, df'. rewrite !cell_real_middle.
    change (in_cell (Region r) (Category r, Sub_category r) (r', Fin (1 - v' * w)))
      with (in_cell (Region r) (Category r, Sub_category r) (r, Fin (1 - v * w))).
    destruct (in_cell (Region r) (Category r, Sub_category r) (r, Fin (1 - v * w)));
      cbn [snd fin_val]; nra. }
  assert (Hsame : forall rg c,
             rg <> Region r \/ c <> (Category r, Sub_category r) ->
             cell_real df rg c = cell_real df' rg c).
  { intros rg c Hne. unfold df, df'. rewrite !cell_real_middle.
    change (in_cell rg c (r', Fin (1 - v' * w)))
      with (in_cell rg c (r, Fin (1 - v * w))).
    assert (E : in_cell rg c (r, Fin (1 - v * w)) = false).
    { unfold in_cell. cbn [fst]. apply andb_false_iff.
      destruct Hne as [Hn|Hn].
      - left. apply String.eqb_neq. congruence.
      - right. destruct (pair_eqb (Category r, Sub_category r) c) eqn:Ep;
          [|reflexivity]. apply pair_eqb_eq in Ep. congruence. }
    rewrite E. reflexivity. }
  pose proof (raised_final_score (pivot_index (pivot_table df))
                (pivot_columns (pivot_table df)) (cell_real df') (cell_real df)
                (Region r) (Category r, Sub_category r) Hr0 Hdown Hsame) as Hmono.
  do 4 eexists. split; [reflexivity|]. split; [reflexivity|].
  cbn [score_rows]. split; [exact Hs|]. split; [exact Hs'|]. split; [exact Hmono|].
  intros a b Ea Eb. rewrite Ea, Eb in Hmono. simpl in Hmono.
  destruct (Rlt_dec a b); [discriminate|lra].
Qed.
End TopsisCost.

(** ** [topsis]: data of a single region *)

Section SingleRegion.
Local Open Scope R_scope.

(** X17.  In exact arithmetic, data whose rows all belong to one region
    (the default template of [cat_config], say) get no score: the region is
    its own ideal and anti-ideal, both distances are 0, and the score is
    NaN. *)
Theorem topsis_single_region (norm_data : DataFrame xreal)
        (weights : dict (dict xreal)) (criteria_type_col : option string)
        (region : string) :
  norm_data <> [] ->
  (forall r, In r norm_data -> Region r = region) ->
  (forall r, In r norm_data -> exists v, Value r = Fin v) ->
  nonneg_weights weights ->
  readable_column criteria_type_col norm_data ->
  topsis norm_data weights criteria_type_col
  = inr (mkScores ["Region"; "TOPSIS Score"]%string [(region, NaN)]).
Proof.
  intros Hne Hreg Hfin Hw Hcol.
  rewrite (topsis_final norm_data weights criteria_type_col Hcol).
  set (df := map (final_row weights criteria_type_col) norm_data).
  assert (Hdf : forall x, In x df -> exists a, snd x = Fin a)
    by now apply final_rows_Fin.
  assert (Eidx : pivot_index (pivot_table df) = [region]).
  { unfold pivot_table. cbn [pivot_index].
    change [region] with (sorted_keys String.compare [region]).
    apply (sorted_keys_same string String.compare String.compare_eq_iff
             String.compare_antisym string_compare_trans).
    intros k. unfold df. rewrite map_map. split.
    - intros Hk. apply in_map_iff in Hk. destruct Hk as [r [<- Hr]].
      rewrite final_row_fst. left. symmetry. now apply Hreg.
    - intros [<-|[]]. destruct norm_data as [|r nd]; [contradiction|].
      cbn [map]. left. rewrite final_row_fst. apply Hreg. now left. }
  rewrite (@closeness_exact (pivot_table df) (cell_real df) region [] Eidx
             (@pivot_cells_exact df Hdf)).
  rewrite Eidx. cbn [map]. rewrite rescale_map. cbn [map combine].
  assert (Hz : Rdplus [region] (pivot_columns (pivot_table df)) (cell_real df) region
               + Rdminus [region] (pivot_columns (pivot_table df)) (cell_real df) region
               = 0).
  { unfold Rdplus, Rdminus. rewrite !Rdist_zero_if; [lra| |]; intros c _; reflexivity. }
  rewrite (xclose_NaN _ _ _ _ Hz), rescale_one_NaN. reflexivity.
Qed.
End SingleRegion.

(** ** [ahp_weights]: an empty sheet *)

Section EmptySheet.
Context {T : Type} `{Numeric T} `{Power T}.

Lemma ahp_sheet_empty (sheet_name : string) (df : Matrix T) :
  index df = [] -> columns df = [] ->
  exists printed, ahp_sheet sheet_name df = (printed, inl ZeroDivisionError).
Proof.
  intros Ei Ec. unfold ahp_sheet. rewrite Ei, Ec. cbn [List.length Nat.eqb negb].
  eexists. reflexivity.
Qed.

(** X18.  A sheet without rows and columns is square, so it passes the
    shape check, and then [1 / n] divides by zero: when every sheet is
    square and some sheet is empty, [ahp_weights] raises a
    [ZeroDivisionError] and returns no weights. *)
Theorem ahp_weights_empty_sheet (weights_dict : dict (Matrix T)) :
  (forall name df, In (name, df) weights_dict ->
                   List.length (index df) = List.length (columns df)) ->
  (exists name df, In (name, df) weights_dict /\ index df = []) ->
  exists printed, ahp_weights weights_dict = (printed, inl ZeroDivisionError).
Proof.
  unfold ahp_weights. generalize (@nil (string * dict T)) as acc.
  induction weights_dict as [|[name df] sheets IH]; intros acc Hsq [n [d [Hin Hd]]].
  - destruct Hin.
  - cbn [ahp_loop].
    destruct (index df) as [|i idx] eqn:Ei.
    + assert (Ec : columns df = []).
      { pose proof (Hsq name df (or_introl eq_refl)) as E. rewrite Ei in E.
        destruct (columns df); [reflexivity|discriminate]. }
      destruct (ahp_sheet_empty name df Ei Ec) as [p E]. rewrite E. eauto.
    + assert (Hne : index df <> []) by (rewrite Ei; discriminate).
      destruct (ahp_sheet_returns name df (Hsq name df (or_introl eq_refl)) Hne)
        as [p [w E]].
      rewrite E.
      destruct Hin as [Ein|Hin].
      { inversion Ein; subst. rewrite Hd in Ei. discriminate. }
      destruct (IH (dict_set acc name w) (fun n' d' H' => Hsq n' d' (or_intror H'))
                   (ex_intro _ n (ex_intro _ d (conj Hin Hd)))) as [p' E'].
      rewrite E'. eauto.
Qed.
End EmptySheet.

Section EdgeWitnesses.
Import Scenario.
Local Open Scope string_scope.
Local Open Scope R_scope.

Lemma topsis_cost_antitone_witness :
  cost_under (Some "Cost/Benefit")
             (mkrow "Region1" "Accessibility" "Distance" (Fin 0) "Cost")
  /\ 0 <= 1 / 2
  /\ exists out out' s s',
       topsis (T:=xreal)
              [ mkrow "Region1" "Accessibility" "Distance" (Fin 0) "Cost";
                mkrow "Region2" "Accessibility" "Distance" (Fin 1) "Cost" ]
              distance_weights (Some "Cost/Benefit")
       = inr out
       /\ topsis (T:=xreal)
                 [ mkrow "Region1" "Accessibility" "Distance" (Fin (1 / 2)) "Cost";
                   mkrow "Region2" "Accessibility" "Distance" (Fin 1) "Cost" ]
                 distance_weights (Some "Cost/Benefit")
          = inr out'
       /\ dict_get (score_rows out) "Region1" = Some s
       /\ dict_get (score_rows out') "Region1" = Some s'
       /\ ltb s s' = false.
Proof.
  assert (Hcost : cost_under (Some "Cost/Benefit")
                    (mkrow "Region1" "Accessibility" "Distance" (Fin 0) "Cost")).
  { exists "Cost/Benefit", "Cost". repeat split; reflexivity. }
  assert (Hle : 0 <= 1 / 2) by lra.
  split; [exact Hcost|]. split; [exact Hle|].
  destruct (topsis_cost_antitone []
              [mkrow "Region2" "Accessibility" "Distance" (Fin 1) "Cost"]
              (mkrow "Region1" "Accessibility" "Distance" (Fin 0) "Cost")
              0 (1 / 2) distance_weights (Some "Cost/Benefit"))
    as [out [out' [s [s' [E [E' [Hs [Hs' [Hlt _]]]]]]]]].
  - intros x [<-|[<-|[]]]; simpl; eauto.
  - exact distance_weights_nonneg.
  - exact Hcost.
  - reflexivity.
  - exact Hle.
  - exists out, out', s, s'. repeat split; assumption.
Defined.

Lemma topsis_single_region_witness :
  [mkrow "A" "Labor Market" "Average Salary" (Fin 1) "Benefit"] <> []
  /\ (forall r, In r [mkrow "A" "Labor Market" "Average Salary" (Fin 1) "Benefit"] ->
                Region r = "A")
  /\ topsis [mkrow "A" "Labor Market" "Average Salary" (Fin 1) "Benefit"]
            distance_weights None
     = inr (mkScores ["Region"; "TOPSIS Score"] [("A", NaN)]).
Proof.
  assert (Hne : [mkrow "A" "Labor Market" "Average Salary" (Fin 1) "Benefit"] <> [])
    by discriminate.
  assert (Hreg : forall r,
             In r [mkrow "A" "Labor Market" "Average Salary" (Fin 1) "Benefit"] ->
             Region r = "A").
  { intros r [<-|[]]. reflexivity. }
  split; [exact Hne|]. split; [exact Hreg|].
  apply (topsis_single_region _ distance_weights None "A" Hne Hreg).
  - intros r [<-|[]]. simpl. eauto.
  - exact distance_weights_nonneg.
  - exact I.
Defined.

Lemma ahp_weights_empty_sheet_witness :
  (forall name df, In (name, df) [("Empty", mkMatrix (T:=xreal) [] [] [])] ->
                   List.length (index df) = List.length (columns df))
  /\ exists printed,
       ahp_weights [("Empty", mkMatrix (T:=xreal) [] [] [])]
       = (printed, inl ZeroDivisionError).
Proof.
  assert (Hsq : forall name df,
             In (name, df) [("Empty", mkMatrix (T:=xreal) [] [] [])] ->
             List.length (index df) = List.length (columns df)).
  { intros name df [E|[]]. inversion E; subst. reflexivity. }
  split; [exact Hsq|].
  apply (ahp_weights_empty_sheet [("Empty", mkMatrix (T:=xreal) [] [] [])] Hsq).
  exists "Empty", (mkMatrix (T:=xreal) [] [] []). split; [now left|reflexivity].
Defined.
End EdgeWitnesses.

(** ** [topsis]: a weight that is not a number *)

Section NanWeight.
Local Open Scope R_scope.

Lemma nansum_total (l : list xreal) : nansum l = Fin (Rsum (map fin_val l)).
Proof.
  assert (E : exists xs, filter notnan l = map Fin xs
                         /\ Rsum xs = Rsum (map fin_val l)).
  { induction l as [|x l [xs [E1 E2]]]; [now exists []|].
    destruct x as [a|].
    - exists (a :: xs). cbn [filter map Rsum fin_val]. rewrite notnan_Fin.
      split; [now rewrite E1|now rewrite E2].
    - exists xs. cbn [filter map Rsum fin_val].
      change (notnan NaN) with false. split; [exact E1|]. rewrite E2. lra. }
  destruct E as [xs [E1 E2]]. unfold nansum. rewrite E1.
  fold (nansum (map Fin xs)). rewrite <- (filter_notnan_Fin xs) at 1.
  fold (nansum (map Fin xs)). now rewrite nansum_Fin, E2.
Qed.

Lemma pivot_cell_total (df : list (row xreal * xreal)) (region : string)
      (col : string * string) :
  pivot_cell df region col = Fin (cell_real df region col).
Proof.
  unfold pivot_cell, cell_real.
  destruct (filter (in_cell region col) df) as [|x g]; [reflexivity|].
  rewrite nansum_total, map_map. reflexivity.
Qed.

Lemma weighted_cells_same (norm_data : DataFrame xreal)
      (weights weights0 : dict (dict xreal)) (region : string) (col : string * string) :
  (forall r, In r norm_data ->
             fin_val (snd (add_weighted weights r))
             = fin_val (snd (add_weighted weights0 r))) ->
  cell_real (map (add_weighted weights) norm_data) region col
  = cell_real (map (add_weighted weights0) norm_data) region col.
Proof.
  unfold cell_real. induction norm_data as [|r nd IH]; intros Hsame; [reflexivity|].
  cbn [map filter].
  change (in_cell region col (add_weighted weights0 r))
    with (in_cell region col (add_weighted weights r)).
  destruct (in_cell region col (add_weighted weights r)); cbn [map Rsum].
  - rewrite (Hsame r (or_introl eq_refl)), IH; [reflexivity|].
    intros r' Hr'. apply Hsame. now right.
  - apply IH. intros r' Hr'. apply Hsame. now right.
Qed.

(** X19.  A weight that is NaN (as [ahp_weights] gives for a template left
    unedited) silently counts as the weight 0: the weighted values are NaN,
    the sums of the pivot table skip them, and the scores are those of the
    same weights with 0 in place of every NaN. *)
Theorem topsis_nan_weight_is_zero (norm_data : DataFrame xreal)
        (weights weights0 : dict (dict xreal)) :
  (forall r, In r norm_data -> exists v, Value r = Fin v) ->
  (forall r, In r norm_data ->
             get_weight weights0 r = match get_weight weights r with
                                     | NaN => Fin 0
                                     | Fin w => Fin w
                                     end) ->
  topsis norm_data weights None = topsis norm_data weights0 None.
Proof.
  intros Hfin Hw0. rewrite !topsis_None.
  set (df := map (add_weighted weights) norm_data).
  set (df0 := map (add_weighted weights0) norm_data).
  assert (Hkeys : map fst df = map fst df0).
  { unfold df, df0. rewrite !map_map. reflexivity. }
  assert (Hval : forall r, In r norm_data ->
                   fin_val (snd (add_weighted weights r))
                   = fin_val (snd (add_weighted weights0 r))).
  { intros r Hr. unfold add_weighted. cbn [snd].
    destruct (Hfin r Hr) as [v Ev]. rewrite Ev, (Hw0 r Hr).
    destruct (get_weight weights r) as [w|]; [reflexivity|].
    rewrite mul_Fin. cbn [mul xreal_numeric xlift2 fin_val]. lra. }
  assert (Ei : pivot_index (pivot_table df) = pivot_index (pivot_table df0)).
  { unfold pivot_table. cbn [pivot_index].
    rewrite <- (map_map fst (@Region xreal) df), <- (map_map fst (@Region xreal) df0).
    now rewrite Hkeys. }
  assert (Ec : pivot_columns (pivot_table df) = pivot_columns (pivot_table df0)).
  { unfold pivot_table. cbn [pivot_columns].
    rewrite <- (map_map fst (fun x : row xreal => (Category x, Sub_category x)) df).
    rewrite <- (map_map fst (fun x : row xreal => (Category x, Sub_category x)) df0).
    now rewrite Hkeys. }
  assert (Ecells : pivot_cells (pivot_table df) = pivot_cells (pivot_table df0)).
  { unfold pivot_table in *. cbn [pivot_cells pivot_index pivot_columns] in *.
    rewrite Ei, Ec. apply map_ext. intros r. apply map_ext. intros c.
    rewrite !pivot_cell_total. f_equal. now apply weighted_cells_same. }
  assert (E : pivot_table df = pivot_table df0).
  { destruct (pivot_table df), (pivot_table df0). cbn in Ei, Ec, Ecells. now subst. }
  now rewrite E.
Qed.
End NanWeight.

Section NanWeightWitness.
Import Scenario.
Local Open Scope string_scope.

Lemma topsis_nan_weight_is_zero_witness :
  (forall r, In r (distance_norm (T:=xreal)) -> exists v, Value r = Fin v)
  /\ topsis distance_norm [("Accessibility", [("Distance", NaN)])] None
     = topsis distance_norm [("Accessibility", [("Distance", Fin 0)])] None.
Proof.
  assert (Hfin : forall r, In r (distance_norm (T:=xreal)) -> exists v, Value r = Fin v).
  { intros r [<-|[<-|[]]]; simpl; eauto. }
  split; [exact Hfin|].
  apply (topsis_nan_weight_is_zero distance_norm
           [("Accessibility", [("Distance", NaN)])]
           [("Accessibility", [("Distance", Fin 0)])] Hfin).
  intros r [<-|[<-|[]]]; reflexivity.
Defined.
End NanWeightWitness.

(** ** [min_max_normalize]: the decimal comma *)

Section DecimalComma.

Lemma replace_char_app (c : ascii) (new a b : string) :
  replace (String c EmptyString) new (a ++ b)
  = (replace (String c EmptyString) new a ++ replace (String c EmptyString) new b)%string.
Proof.
  unfold replace. induction a as [|x a IH]; [reflexivity|].
  cbn [append replace_from String.length Nat.sub].
  assert (Ep : forall s, String.prefix (String c EmptyString) (String x s)
                         = String.prefix (String c EmptyString) (String x EmptyString)).
  { intros s. cbn [String.prefix]. destruct (Ascii.ascii_dec c x); [|reflexivity].
    now destruct s. }
  rewrite (Ep (a ++ b)%string), (Ep a).
  destruct (String.prefix (String c EmptyString) (String x EmptyString)).
  - rewrite IH. now rewrite append_assoc.
  - now rewrite IH.
Qed.

Lemma prefix_cons (x y : ascii) (s t : string) :
  String.prefix (String x s) (String y t)
  = if Ascii.ascii_dec x y then String.prefix s t else false.
Proof. reflexivity. Qed.

Lemma prefix_nbsp (x : ascii) (s : string) :
  String.prefix nbsp (String x s)
  = if Ascii.ascii_dec (ascii_of_nat 194) x
    then match s with
         | EmptyString => false
         | String y _ => if Ascii.ascii_dec (ascii_of_nat 160) y then true else false
         end
    else false.
Proof.
  unfold nbsp. rewrite prefix_cons.
  destruct (Ascii.ascii_dec (ascii_of_nat 194) x); [|reflexivity].
  destruct s as [|y s]; [reflexivity|]. rewrite prefix_cons.
  destruct (Ascii.ascii_dec (ascii_of_nat 160) y); [|reflexivity].
  now destruct s.
Qed.

Lemma prefix_nbsp_sep (x c : ascii) (a b : string) :
  c <> ascii_of_nat 160 ->
  String.prefix nbsp (String x (a ++ String c b)) = String.prefix nbsp (String x a).
Proof.
  intros Hc. rewrite !prefix_nbsp.
  destruct (Ascii.ascii_dec (ascii_of_nat 194) x); [|reflexivity].
  destruct a as [|y a]; [|reflexivity]. cbn [append].
  destruct (Ascii.ascii_dec (ascii_of_nat 160) c); [|reflexivity].
  exfalso. apply Hc. now symmetry.
Qed.

Lemma prefix_nbsp_length (x : ascii) (a : string) :
  String.prefix nbsp (String x a) = true -> (1 <= String.length a)%nat.
Proof.
  rewrite prefix_nbsp.
  destruct (Ascii.ascii_dec (ascii_of_nat 194) x); [|discriminate].
  destruct a; [discriminate|]. cbn [String.length]. lia.
Qed.

Lemma replace_nbsp_sep (c : ascii) (a b : string) :
  c <> ascii_of_nat 194 -> c <> ascii_of_nat 160 ->
  replace nbsp "" (a ++ String c b)
  = (replace nbsp "" a ++ String c (replace nbsp "" b))%string.
Proof.
  intros H194 H160. unfold replace.
  assert (G : forall k, (k <= String.length a)%nat ->
                replace_from nbsp "" (a ++ String c b) k
                = (replace_from nbsp "" a k
                   ++ String c (replace_from nbsp "" b 0))%string).
  { induction a as [|x a IH]; intros k Hk.
    - cbn [String.length] in Hk. assert (k = 0)%nat by lia. subst k.
      cbn [append replace_from].
      assert (Ep : String.prefix nbsp (String c b) = false).
      { rewrite prefix_nbsp.
        destruct (Ascii.ascii_dec (ascii_of_nat 194) c); [|reflexivity].
        exfalso. apply H194. now symmetry. }
      now rewrite Ep.
    - cbn [append replace_from]. destruct k as [|k].
      + rewrite (prefix_nbsp_sep x c a b H160).
        destruct (String.prefix nbsp (String x a)) eqn:Ep.
        * apply prefix_nbsp_length in Ep. cbn [append].
          apply IH. unfold nbsp. cbn [String.length Nat.sub]. exact Ep.
        * cbn [append]. f_equal. apply IH. lia.
      + apply IH. cbn [String.length] in Hk. lia. }
  apply G. lia.
Qed.

Lemma comma_not_nbsp :
  ","%char <> ascii_of_nat 194 /\ ","%char <> ascii_of_nat 160
  /\ "."%char <> ascii_of_nat 194 /\ "."%char <> ascii_of_nat 160.
Proof.
  repeat split; intros E; apply (f_equal nat_of_ascii) in E; vm_compute in E;
    discriminate E.
Qed.

Lemma replace_separators :
  replace " " "" "," = ","%string
  /\ replace " " "" "." = "."%string
  /\ replace "," "." "," = "."%string
  /\ replace "," "." "." = "."%string.
Proof. repeat split; vm_compute; reflexivity. Qed.

Lemma replace_char_cons (c x : ascii) (new s : string) :
  replace (String c EmptyString) new (String x s)
  = (replace (String c EmptyString) new (String x EmptyString)
     ++ replace (String c EmptyString) new s)%string.
Proof. apply (replace_char_app c new (String x EmptyString) s). Qed.

Lemma clean_decimal_comma (a b : string) :
  clean (a ++ "," ++ b) = clean (a ++ "." ++ b).
Proof.
  destruct comma_not_nbsp as [Hc1 [Hc2 [Hp1 Hp2]]].
  destruct replace_separators as [Es1 [Es2 [Ec1 Ec2]]].
  unfold clean.
  change (a ++ "," ++ b)%string with (a ++ String "," b)%string.
  change (a ++ "." ++ b)%string with (a ++ String "." b)%string.
  rewrite (replace_nbsp_sep ","%char a b Hc1 Hc2).
  rewrite (replace_nbsp_sep "."%char a b Hp1 Hp2).
  set (A := replace nbsp "" a). set (B := replace nbsp "" b).
  rewrite (replace_char_app " "%char "" A (String "," B)).
  rewrite (replace_char_app " "%char "" A (String "." B)).
  rewrite (replace_char_cons " "%char ","%char "" B).
  rewrite (replace_char_cons " "%char "."%char "" B).
  rewrite Es1, Es2.
  set (A' := replace " " "" A). set (B' := replace " " "" B).
  change ("," ++ B')%string with (String "," B').
  change ("." ++ B')%string with (String "." B').
  rewrite (replace_char_app ","%char "." A' (String "," B')).
  rewrite (replace_char_app ","%char "." A' (String "." B')).
  rewrite (replace_char_cons ","%char ","%char "." B').
  rewrite (replace_char_cons ","%char "."%char "." B').
  rewrite Ec1, Ec2. reflexivity.
Qed.

Lemma parse_values_same {T : Type} `{Numeric T} (to_numeric : string -> option T)
      (data data' : DataFrame string) :
  Forall2 (fun r r' => row_keys r = row_keys r'
                       /\ clean (Value r) = clean (Value r')) data data' ->
  parse_values to_numeric data = parse_values to_numeric data'.
Proof.
  induction 1 as [|r r' data data' [Hk Hc] Hrest IH]; [reflexivity|].
  cbn [parse_values]. rewrite Hc, IH.
  assert (Es : forall v : T, set_Value r v = set_Value r' v).
  { intros v. unfold set_Value. unfold row_keys in Hk. now inversion Hk. }
  destruct (to_numeric (clean (Value r'))); [|reflexivity].
  destruct (parse_values to_numeric data'); [reflexivity|].
  cbn [bind]. now rewrite Es.
Qed.

Lemma all_integers_same (p : Z -> bool) (data data' : DataFrame string) :
  Forall2 (fun r r' => row_keys r = row_keys r'
                       /\ clean (Value r) = clean (Value r')) data data' ->
  all_integers p data = all_integers p data'.
Proof.
  induction 1 as [|r r' data data' [Hk Hc] Hrest IH]; [reflexivity|].
  unfold all_integers in *. cbn [forallb]. now rewrite Hc, IH.
Qed.

Lemma column_dtype_same (data data' : DataFrame string) :
  Forall2 (fun r r' => row_keys r = row_keys r'
                       /\ clean (Value r) = clean (Value r')) data data' ->
  column_dtype data = column_dtype data'.
Proof.
  intros Hsame. unfold column_dtype.
  now rewrite !(all_integers_same _ data data' Hsame).
Qed.

Lemma int_rows_same (data data' : DataFrame string) :
  Forall2 (fun r r' => row_keys r = row_keys r'
                       /\ clean (Value r) = clean (Value r')) data data' ->
  int_rows data = int_rows data'.
Proof.
  induction 1 as [|r r' data data' [Hk Hc] Hrest IH]; [reflexivity|].
  unfold int_rows in *. cbn [map]. rewrite Hc, IH. f_equal.
  unfold set_Value. unfold row_keys in Hk. now inversion Hk.
Qed.

(** X20.  A value written with a decimal comma is normalised as the same
    value written with a point: turning one comma of one value into a point
    changes nothing in what [min_max_normalize] returns or raises. *)
Theorem min_max_normalize_decimal_comma {T : Type} `{Numeric T}
        (to_numeric : string -> option T) (pre post : DataFrame string)
        (r : row string) (a b : string) :
  min_max_normalize to_numeric (pre ++ set_Value r (a ++ "," ++ b)%string :: post)
  = min_max_normalize to_numeric (pre ++ set_Value r (a ++ "." ++ b)%string :: post).
Proof.
  assert (Hsame : Forall2 (fun r r' => row_keys r = row_keys r'
                                       /\ clean (Value r) = clean (Value r'))
                          (pre ++ set_Value r (a ++ "," ++ b)%string :: post)
                          (pre ++ set_Value r (a ++ "." ++ b)%string :: post)).
  { apply Forall2_app.
    - induction pre as [|x pre IH]; constructor; [now split|exact IH].
    - constructor.
      + split; [reflexivity|]. cbn [Value set_Value]. apply clean_decimal_comma.
      + induction post as [|x post IH]; constructor; [now split|exact IH]. }
  unfold min_max_normalize.
  now rewrite (parse_values_same to_numeric _ _ Hsame),
    (column_dtype_same _ _ Hsame), (int_rows_same _ _ Hsame).
Qed.
End DecimalComma.
